(** * moggie search engine: posting-list buckets, keyword placement,
      mutation history and query evaluation

    A shallow embedding of [moggie/search/engine.py].  Python objects
    are records, methods are functions in a state-and-exception monad,
    byte strings are lists of [byte], Python [str] values are [string]s
    (read as their UTF-8 code units) and Python integers are [Z]. *)

From Stdlib Require Import ZArith Lia List Bool.
From Stdlib Require Import Strings.String Strings.Ascii Strings.Byte.
From stdpp Require Import base tactics option list gmap strings fin_maps sets.

Local Open Scope Z_scope.

(** ** Exceptions and results *)

(** The Python exceptions the engine can raise.  [StorageError] is the
    error kind the design reserves for the record store; nothing in
    [engine.py] raises it.  [OutOfFuel] is not a Python exception: it
    marks a loop of the model that ran out of fuel. *)
Inductive exn : Type :=
  | ValueError
  | TypeError
  | KeyError
  | IndexError
  | PermissionError
  | StructError
  | ZeroDivisionError
  | StorageError
  | OutOfFuel.

Inductive res (A : Type) : Type :=
  | Ok (a : A)
  | Err (e : exn).
Arguments Ok {A} a.
Arguments Err {A} e.

#[global] Instance exn_eq_dec : EqDecision exn.
Proof. solve_decision. Defined.

#[global] Instance res_ret : MRet res := fun A a => Ok a.
#[global] Instance res_bind : MBind res := fun A B k r =>
  match r with
  | Ok a => k a
  | Err e => Err e
  end.

(** ** Bytes and [struct] packing *)

Abbreviation bytes := (list byte).

#[global] Instance byte_eq_dec : EqDecision byte := Byte.byte_eq_dec.

Definition Z_of_byte (b : byte) : Z := Z.of_N (Byte.to_N b).

Definition byte_of_Z (z : Z) : byte :=
  match Byte.of_N (Z.to_N (z mod 256)) with
  | Some b => b
  | None => x00
  end.

(** [len(b)] *)
Definition len {A} (l : list A) : Z := Z.of_nat (length l).

(** [b[i:j]] for non-negative [i] and [j]. *)
Definition slice {A} (b : list A) (i j : Z) : list A :=
  take (Z.to_nat (j - i)) (drop (Z.to_nat i) b).

(** [int.from_bytes(bs, 'little')] *)
Fixpoint le_int (bs : bytes) : Z :=
  match bs with
  | [] => 0
  | b :: bs' => Z_of_byte b + 256 * le_int bs'
  end.

(** [x.to_bytes(n, 'little')] for [0 <= x < 256^n]. *)
Fixpoint le_bytes (n : nat) (x : Z) : bytes :=
  match n with
  | O => []
  | S n' => byte_of_Z (x mod 256) :: le_bytes n' (x / 256)
  end.

(** [struct.unpack('<HHI', buf)]: [struct.error] unless [buf] is
    exactly eight bytes long. *)
Definition unpack_HHI (buf : bytes) : res (Z * Z * Z) :=
  if len buf =? 8
  then Ok (le_int (slice buf 0 2), le_int (slice buf 2 4), le_int (slice buf 4 8))
  else Err StructError.

(** [struct.pack('<HHI', a, b, c)]: [struct.error] when a field does
    not fit its width. *)
Definition pack_HHI (a b c : Z) : res bytes :=
  if (0 <=? a) && (a <? 65536) && (0 <=? b) && (b <? 65536)
     && (0 <=? c) && (c <? 4294967296)
  then Ok (le_bytes 2 a ++ le_bytes 2 b ++ le_bytes 4 c)
  else Err StructError.

(** ** Python text values *)

(** A value that is either a [str] or a [bytes] object.  A [str] is
    held as the code units of its UTF-8 encoding, so the [str] values
    covered are those that encode: one with a lone surrogate, on which
    [bytes(s, 'utf-8')] raises [UnicodeEncodeError], has no counterpart
    here. *)
Inductive text : Type :=
  | Str (s : string)
  | Bytes (b : bytes).

(** [bytes(s, 'utf-8')], for a [str] that encodes. *)
Definition utf8 (s : string) : bytes := list_byte_of_string s.

(** [t if isinstance(t, bytes) else bytes(t, 'utf-8')] *)
Definition to_bytes (t : text) : bytes :=
  match t with
  | Str s => utf8 s
  | Bytes b => b
  end.

(** Truth value of a [str] or [bytes] object: non-empty. *)
Definition text_truthy (t : text) : bool :=
  match t with
  | Str s => negb (String.eqb s EmptyString)
  | Bytes b => negb (bool_decide (b = []))
  end.

Definition bytes_truthy (b : bytes) : bool := negb (bool_decide (b = [])).

(** ** IntSet *)

(** Modelled from the spec: [moggie/util/intset.py] is not among the
    sources.  An IntSet is a finite set of integers with value equality;
    [|], [&], [-] and [^] are union, intersection, difference and
    symmetric difference, and an IntSet is true when it is not empty. *)
Abbreviation IntSet := (gset Z).

Module IntSetOps.
Definition Or (a b : IntSet) : IntSet := a ∪ b.
Definition And (a b : IntSet) : IntSet := a ∩ b.
Definition Sub (a b : IntSet) : IntSet := a ∖ b.
Definition Xor (a b : IntSet) : IntSet := (a ∖ b) ∪ (b ∖ a).
  (** [IntSet.All(n)]: the ids [0 .. n-1]. *)
Definition All (n : Z) : IntSet := list_to_set (seqZ 0 n).
Definition truthy (a : IntSet) : bool := negb (bool_decide (a = ∅)).
  (** Truth value of [None] or an IntSet. *)
Definition opt_truthy (a : option IntSet) : bool :=
    match a with
    | Some s => truthy s
    | None => false
    end.
  (** [x or IntSet()] *)
Definition or_empty (a : option IntSet) : IntSet :=
    match a with
    | Some s => if truthy s then s else ∅
    | None => ∅
    end.
End IntSetOps.

(** ** The dumb codec *)

(** [moggie/util/dumbcode.py] is not among the sources; the engine only
    passes values through it, so the encoders and the decoder are taken
    as an interface.  Bucket triples hold the encoding of [None] or of an
    IntSet; history entries hold ASCII encodings of IntSets. *)
Class DumbCodec : Type := {
  dumb_encode_bin : option Z -> option IntSet -> bytes;
  dumb_encode_asc : option Z -> IntSet -> string;
  dumb_decode : bytes -> option IntSet;
  dumb_decode_asc : string -> option IntSet;
}.

(** Decoding inverts encoding (spec: [decode(encode(S)) == S]). *)
Class DumbCodecLaws `{DumbCodec} : Prop := {
  dumb_decode_encode_bin :
    forall c v, dumb_decode (dumb_encode_bin c v) = v;
  dumb_decode_encode_asc :
    forall c s, dumb_decode_asc (dumb_encode_asc c s) = Some s;
}.

(** ** PostingListBucket *)

Module PostingListBucket.

  (** The object: [self.blob], [self.compress], [self.deleted]. *)
Record t : Type := mk {
    blob : bytes;
    compress : option Z;
    deleted : option IntSet;
  }.

  (** [PostingListBucket(blob)] with the class defaults. *)
Definition new (b : bytes) : t :=
    {| blob := b; compress := None; deleted := None |}.

Definition with_blob (self : t) (b : bytes) : t :=
    {| blob := b; compress := compress self; deleted := deleted self |}.

Definition with_deleted (self : t) (d : option IntSet) : t :=
    {| blob := blob self; compress := compress self; deleted := d |}.

Section Methods.
Context `{DumbCodec}.

    (** The [while beg < len(self.blob)] loop of [__iter__]. *)
Fixpoint iter_loop (fuel : nat) (b : bytes) (beg : Z) (acc : list bytes)
      : res (list bytes) :=
      if negb (beg <? len b) then Ok acc else
      match fuel with
      | O => Err OutOfFuel
      | S fuel' =>
          ('(kw_ln, c_ln, iset_ln) ← unpack_HHI (slice b beg (beg + 8));
           iter_loop fuel' b (beg + 8 + kw_ln + c_ln + iset_ln)
             (acc ++ [slice b (beg + 8) (beg + 8 + kw_ln)]))
      end.

    (** [list(self)]: the keywords, without decoding any IntSet. *)
Definition iter (self : t) : res (list bytes) :=
      iter_loop (length (blob self)) (blob self) 0 [].

    (** The loop of [items(decode=False)]. *)
Fixpoint items_loop (fuel : nat) (b : bytes) (beg : Z)
        (acc : list (bytes * bytes * bytes)) : res (list (bytes * bytes * bytes)) :=
      if negb (beg <? len b) then Ok acc else
      match fuel with
      | O => Err OutOfFuel
      | S fuel' =>
          ('(kw_ln, c_ln, iset_ln) ← unpack_HHI (slice b beg (beg + 8));
           let cbeg := beg + 8 + kw_ln in
           let end_ := cbeg + c_ln + iset_ln in
           let kw := slice b (beg + 8) cbeg in
           let bcomment := slice b cbeg (cbeg + c_ln) in
           let iset_blob := slice b (cbeg + c_ln) end_ in
           items_loop fuel' b end_ (acc ++ [(kw, bcomment, iset_blob)]))
      end.

    (** [list(self.items(decode=False))] *)
Definition items (self : t) : res (list (bytes * bytes * bytes)) :=
      items_loop (length (blob self)) (blob self) 0 [].

    (** The loop of [_find_iset]; the state is [(chunks, bcomment, iset)]. *)
Fixpoint find_loop (fuel : nat) (b bkeyword : bytes) (beg : Z)
        (chunks : list bytes) (bcomment : bytes) (iset : option IntSet)
      : res (list bytes * bytes * option IntSet) :=
      if negb (beg <? len b) then Ok (chunks, bcomment, iset) else
      match fuel with
      | O => Err OutOfFuel
      | S fuel' =>
          ('(kw_ln, c_ln, iset_ln) ← unpack_HHI (slice b beg (beg + 8));
           let cbeg := beg + 8 + kw_ln in
           let end_ := cbeg + c_ln + iset_ln in
           let kw := slice b (beg + 8) cbeg in
           if negb (bool_decide (kw = bkeyword))
           then find_loop fuel' b bkeyword end_
                  (chunks ++ [slice b beg end_]) bcomment iset
           else find_loop fuel' b bkeyword end_ chunks
                  (slice b cbeg (cbeg + c_ln))
                  (dumb_decode (slice b (cbeg + c_ln) end_)))
      end.

Definition _find_iset (self : t) (kw : text)
      : res (list bytes * bytes * bytes * option IntSet) :=
      let bkeyword := to_bytes kw in
      ('(chunks, bcomment, iset) ←
          find_loop (length (blob self)) (blob self) bkeyword 0 [] [] None;
       Ok (chunks, bkeyword, bcomment, iset)).

    (** [remove]: the new object state and the returned pair (or the
        exception). *)
Definition remove (self : t) (keyword : text)
      : t * res (bytes * option IntSet) :=
      match _find_iset self keyword with
      | Err e => (self, Err e)
      | Ok (chunks, bkeyword, bcomment, iset) =>
          let self' :=
            match iset with
            | Some _ => with_blob self (concat chunks)
            | None => self
            end in
          (self', Ok (bcomment, iset))
      end.

    (** [set], with its optional [bkeyword] and [chunks] arguments
        ([None] is the default of both). *)
Definition set (self : t) (keyword : text) (iset : option IntSet)
        (comment : text) (bkeyword : option bytes)
        (chunks : option (list bytes)) : t * res unit :=
      let found :=
        match bkeyword, chunks with
        | Some bk, Some ch =>
            if bytes_truthy bk && negb (bool_decide (ch = []))
            then Ok (ch, bk, [])
            else ('(ch', bk', bc', _) ← _find_iset self keyword;
                  Ok (ch', bk', bc'))
        | _, _ =>
            ('(ch', bk', bc', _) ← _find_iset self keyword;
             Ok (ch', bk', bc'))
        end in
      match found with
      | Err e => (self, Err e)
      | Ok (chunks, bkeyword, bcomment) =>
          let bcomment :=
            if text_truthy comment then to_bytes comment else bcomment in
          let iset_blob := dumb_encode_bin (compress self) iset in
          if bytes_truthy bcomment || IntSetOps.opt_truthy iset then
            match pack_HHI (len bkeyword) (len bcomment) (len iset_blob) with
            | Err e => (self, Err e)
            | Ok hdr =>
                (with_blob self
                   (concat (chunks ++ [hdr; bkeyword; bcomment; iset_blob])),
                 Ok tt)
            end
          else (with_blob self (concat chunks), Ok tt)
      end.

    (** [add(keyword, ints)] *)
Definition add (self : t) (keyword : text) (ints : list Z) : t * res unit :=
      match _find_iset self keyword with
      | Err e => (self, Err e)
      | Ok (chunks, bkeyword, bcomment, iset) =>
          let iset := match iset with Some s => s | None => ∅ end in
          let iset :=
            if negb (bool_decide (ints = []))
            then IntSetOps.Or iset (list_to_set ints) else iset in
          let iset :=
            match deleted self with
            | Some d => IntSetOps.Sub iset d
            | None => iset
            end in
          set self keyword (Some iset) (Bytes bcomment) (Some bkeyword) (Some chunks)
      end.

    (** [set_comment(keyword, comment)] *)
Definition set_comment (self : t) (keyword : text) (comment : text)
      : t * res unit :=
      let bcomment := to_bytes comment in
      match _find_iset self keyword with
      | Err e => (self, Err e)
      | Ok (chunks, bkeyword, ocomment, iset) =>
          set self keyword iset (Bytes bcomment) (Some bkeyword) (Some chunks)
      end.

    (** [get(keyword, with_comment=True)] *)
Definition get_with_comment (self : t) (keyword : text)
      : res (bytes * option IntSet) :=
      ('(chunks, bkeyword, bcomment, iset) ← _find_iset self keyword;
       Ok (bcomment, iset)).

    (** [get(keyword)] *)
Definition get (self : t) (keyword : text) : res (option IntSet) :=
      ('(chunks, bkeyword, bcomment, iset) ← _find_iset self keyword;
       Ok iset).

End Methods.
End PostingListBucket.


(** ** The bucket layout and its invariant *)

(** A stored triple: keyword bytes, comment bytes and IntSet blob. *)
Abbreviation triple := (bytes * bytes * bytes)%type.

Definition t_kw (t : triple) : bytes := t.1.1.
Definition t_comment (t : triple) : bytes := t.1.2.
Definition t_iset (t : triple) : bytes := t.2.

(** The three lengths fit the [<HHI] header. *)
Definition wf_triple (t : triple) : Prop :=
  len (t_kw t) < 65536 /\ len (t_comment t) < 65536 /\
  len (t_iset t) < 4294967296.

(** The packed [<HHI] header of a triple. *)
Definition header (t : triple) : bytes :=
  le_bytes 2 (len (t_kw t)) ++ le_bytes 2 (len (t_comment t))
    ++ le_bytes 4 (len (t_iset t)).

(** [[u16 kw_len][u16 comment_len][u32 iset_len][kw][comment][iset]] *)
Definition pack_triple (t : triple) : bytes :=
  header t ++ t_kw t ++ t_comment t ++ t_iset t.

Definition serialize (ts : list triple) : bytes :=
  concat (map pack_triple ts).

(** The bucket invariant of the data model: the blob is a sequence of
    well-formed triples, keywords are unique, and no triple has both an
    empty comment and an empty (or absent) IntSet. *)
Definition bucket_inv `{DumbCodec} (b : bytes) : Prop :=
  exists ts : list triple,
    Forall wf_triple ts /\ b = serialize ts /\ NoDup (map t_kw ts) /\
    Forall (fun t => ~ (t_comment t = [] /\
                        IntSetOps.opt_truthy (dumb_decode (t_iset t)) = false)) ts.

(** What [_find_iset] computes on a list of triples: the triples it
    keeps as chunks, and the comment and IntSet of the last match. *)
Definition kept (bk : bytes) (ts : list triple) : list triple :=
  filter (fun t => t_kw t <> bk) ts.

Definition found `{DumbCodec} (bk : bytes) (ts : list triple)
    (init : bytes * option IntSet) : bytes * option IntSet :=
  fold_left
    (fun acc t =>
       if bool_decide (t_kw t = bk)
       then (t_comment t, dumb_decode (t_iset t)) else acc)
    ts init.

(** ** A reference codec *)

(** Modelled from the spec: the explicit-list encoding of section 4.1,
    with a leading tag byte.  Each element is a sign byte followed by its
    magnitude in unary and a zero terminator; [N] tags [None] and [L]
    tags a list.  It instantiates [DumbCodec] for the closed examples. *)
Module ListCodec.

Fixpoint enc_list (l : list Z) : bytes :=
  match l with
  | [] => []
  | x :: l' =>
      (if x <? 0 then x01 else x00)
        :: repeat x01 (Z.abs_nat x) ++ x00 :: enc_list l'
  end.

Fixpoint dec_loop (bs : bytes) (cur : option (bool * nat)) (acc : list Z)
  : option (list Z) :=
  match bs with
  | [] =>
      match cur with
      | None => Some (rev acc)
      | Some _ => None
      end
  | b :: bs' =>
      match cur with
      | None => dec_loop bs' (Some (bool_decide (b = x01), O)) acc
      | Some (neg, n) =>
          if bool_decide (b = x00)
          then dec_loop bs' None
                 ((if neg : bool then - Z.of_nat n else Z.of_nat n) :: acc)
          else dec_loop bs' (Some (neg, S n)) acc
      end
  end.

Definition encode (v : option IntSet) : bytes :=
  match v with
  | None => [x4e]
  | Some s => x4c :: enc_list (elements s)
  end.

Definition decode (b : bytes) : option IntSet :=
  match b with
  | x4c :: rest => list_to_set <$> dec_loop rest None []
  | _ => None
  end.

#[global] Instance codec : DumbCodec := {|
  dumb_encode_bin := fun _ v => encode v;
  dumb_encode_asc := fun _ s => string_of_list_byte (encode (Some s));
  dumb_decode := decode;
  dumb_decode_asc := fun s => decode (list_byte_of_string s);
|}.

End ListCodec.

(** ** Sample buckets *)

Module Samples.
Import ListCodec.

(** [hello -> {1,2,3,4}], as left by [pl.add('hello', [1, 2, 3, 4])]. *)
Definition hello_triple : triple :=
  (utf8 "hello", [], encode (Some {[1; 2; 3; 4]})).

Definition world_triple : triple :=
  (utf8 "world", utf8 "note", encode (Some {[1]})).

Definition hello_bucket : PostingListBucket.t :=
  PostingListBucket.new (serialize [hello_triple; world_triple]).

End Samples.

(** The data invariant on a list of triples (see [bucket_inv]). *)
Definition triples_inv `{DumbCodec} (ts : list triple) : Prop :=
  Forall wf_triple ts /\ NoDup (map t_kw ts) /\
  Forall (fun t => ~ (t_comment t = [] /\
                      IntSetOps.opt_truthy (dumb_decode (t_iset t)) = false)) ts.

(** ** Python string operations *)

Module PyStr.

Abbreviation chars := (list ascii).

Definition to_chars (s : string) : chars := list_ascii_of_string s.
Definition of_chars (l : chars) : string := string_of_list_ascii l.

(** [l] begins with [p]. *)
Fixpoint starts (p l : chars) : bool :=
  match p, l with
  | [], _ => true
  | _ :: _, [] => false
  | a :: p', b :: l' => bool_decide (a = b) && starts p' l'
  end.

(** [s.startswith(p)], which is [s[:len(p)] == p]. *)
Definition startswith (s p : string) : bool :=
  starts (to_chars p) (to_chars s).

(** [s.endswith(p)] *)
Definition endswith (s p : string) : bool :=
  starts (rev (to_chars p)) (rev (to_chars s)).

Fixpoint contains_chars (sub l : chars) : bool :=
  starts sub l ||
  match l with
  | [] => false
  | _ :: l' => contains_chars sub l'
  end.

(** [sub in s] *)
Definition contains (sub s : string) : bool :=
  contains_chars (to_chars sub) (to_chars s).

(** [s.replace(c, '')] for a single character [c]. *)
Definition remove_char (c : ascii) (s : string) : string :=
  of_chars (filter (fun x => x <> c) (to_chars s)).

(** The scan of [s.split(sep)] for a non-empty [sep]: [skip] counts the
    characters of a separator still to pass over, [cur] is the piece
    being collected. *)
Fixpoint split_go (sep l : chars) (skip : nat) (cur : chars) : list chars :=
  match l with
  | [] => [cur]
  | c :: l' =>
      match skip with
      | S k => split_go sep l' k cur
      | O =>
          if starts sep l
          then cur :: split_go sep l' (length sep - 1) []
          else split_go sep l' O (cur ++ [c])
      end
  end.

(** [s.split(sep)]; an empty separator is a [ValueError]. *)
Definition split (sep s : string) : res (list string) :=
  match to_chars sep with
  | [] => Err ValueError
  | sepc => Ok (map of_chars (split_go sepc (to_chars s) O []))
  end.

(** [s.split(sep)[0]] for a non-empty [sep]. *)
Definition split_head (sep s : string) : string :=
  of_chars (hd [] (split_go (to_chars sep) (to_chars s) O [])).

Fixpoint split1_go (sep l cur : chars) : option (chars * chars) :=
  match l with
  | [] => None
  | c :: l' =>
      if starts sep l then Some (cur, drop (length sep) l)
      else split1_go sep l' (cur ++ [c])
  end.

(** [s.split(sep, 1)] for a non-empty [sep]. *)
Definition split1 (sep s : string) : list string :=
  match split1_go (to_chars sep) (to_chars s) [] with
  | Some (a, b) => [of_chars a; of_chars b]
  | None => [s]
  end.

(** Characters [int()] strips from an ASCII [str]: tab, line feed,
    vertical tab, form feed, carriage return and space.  (The separators
    [0x1c .. 0x1f] are stripped by [str.strip()], not by [int()].) *)
Definition is_space (c : ascii) : bool :=
  let n := nat_of_ascii c in
  ((9 <=? n) && (n <=? 13) || (n =? 32))%nat.

Fixpoint drop_space (l : chars) : chars :=
  match l with
  | c :: l' => if is_space c then drop_space l' else l
  | [] => []
  end.

(** [s.strip()] *)
Definition strip (l : chars) : chars :=
  rev (drop_space (rev (drop_space l))).

(** The value of a digit in the given base (at most 16). *)
Definition digit_val (base : Z) (c : ascii) : option Z :=
  let n := Z.of_nat (nat_of_ascii c) in
  let v :=
    if (48 <=? n) && (n <=? 57) then Some (n - 48)
    else if (97 <=? n) && (n <=? 102) then Some (n - 87)
    else if (65 <=? n) && (n <=? 70) then Some (n - 55)
    else None in
  match v with
  | Some d => if d <? base then Some d else None
  | None => None
  end.

(** Digits with single underscores between them; [prev] tells whether
    the previous character was a digit. *)
Fixpoint digits_go (base : Z) (l : chars) (acc : Z) (prev : bool) : option Z :=
  match l with
  | [] => if prev then Some acc else None
  | c :: l' =>
      if bool_decide (c = "_"%char)
      then (if prev then digits_go base l' acc false else None)
      else
        match digit_val base c with
        | Some d => digits_go base l' (base * acc + d) true
        | None => None
        end
  end.

Definition unsigned (base : Z) (l : chars) : res Z :=
  match digits_go base l 0 false with
  | Some z => Ok z
  | None => Err ValueError
  end.

Definition signed (base : Z) (l : chars) : res Z :=
  match l with
  | "+"%char :: l' => unsigned base l'
  | "-"%char :: l' => z ← unsigned base l'; Ok (- z)
  | _ => unsigned base l
  end.

(** [int(s)] on ASCII input: surrounding whitespace, an optional sign,
    decimal digits with optional single underscores; anything else is a
    [ValueError]. *)
Definition int (s : string) : res Z := signed 10 (strip (to_chars s)).

(** [int(s, 16)]: as [int], in base 16, with an optional [0x] prefix
    after the sign. *)
Definition int16 (s : string) : res Z :=
  let body (l : chars) : res Z :=
    match l with
    | "0"%char :: ("x"%char | "X"%char) :: "_"%char :: l' => unsigned 16 l'
    | "0"%char :: ("x"%char | "X"%char) :: l' => unsigned 16 l'
    | _ => unsigned 16 l
    end in
  match strip (to_chars s) with
  | "+"%char :: l' => body l'
  | "-"%char :: l' => z ← body l'; Ok (- z)
  | l => body l
  end.

(** The character of a digit: [0-9], then [a-f]. *)
Definition digit_char (d : Z) : ascii :=
  ascii_of_nat (Z.to_nat (if d <? 10 then 48 + d else 87 + d)).

(** The digits of [n >= 0] in the given base, most significant first,
    in front of [acc]. *)
Fixpoint digits_of (base : Z) (fuel : nat) (n : Z) (acc : chars) : chars :=
  match fuel with
  | O => acc
  | S fuel' =>
      let acc' := digit_char (n mod base) :: acc in
      if n / base =? 0 then acc' else digits_of base fuel' (n / base) acc'
  end.

(** The digits of [n] in the given base, zero-padded to [prec] digits,
    with a minus sign for a negative [n]. *)
Definition render (base : Z) (prec : nat) (n : Z) : chars :=
  let a := Z.abs n in
  let ds := digits_of base (S (Z.to_nat (Z.log2 a))) a [] in
  let ds := repeat "0"%char (prec - length ds) ++ ds in
  if n <? 0 then "-"%char :: ds else ds.



(** ['%.<prec>x' % n] *)
Definition hex (prec : nat) (n : Z) : string := of_chars (render 16 prec n).


End PyStr.

(** ** Stored values and the record store *)

(** [self.config]: the entries the engine reads. *)
Record Config : Type := mkConfig {
  partial_list_len : Z;
  partial_min_hits : Z;
  partial_shortest : Z;
  partial_longest : Z;
  partial_matches : Z;
  l1_keywords : Z;
  l2_buckets : Z;
}.

(** [SearchEngine.DEFAULTS] *)
Definition DEFAULTS : Config := {|
  partial_list_len := 1000000;
  partial_min_hits := 3;
  partial_shortest := 6;
  partial_longest := 32;
  partial_matches := 25;
  l1_keywords := 512000;
  l2_buckets := 40 * 1024 * 1024;
|}.

(** [self.history]: a dict with optional ['ver'] and ['pos'] keys. *)
Record History : Type := mkHistory {
  h_ver : option Z;
  h_pos : option Z;
}.

(** One entry of a changeset: [[kw, idx, enc_iset, enc_oset]]. *)
Abbreviation change := (string * Z * string * string)%type.

(** A history entry: [{id, ts, comment, version, changes}]. *)
Record HistoryEntry : Type := mkEntry {
  he_id : string;
  he_ts : Z;
  he_comment : string;
  he_version : Z;
  he_changes : list change;
}.

(** The values the engine keeps in records. *)
Inductive recval : Type :=
  | RBytes (b : bytes)
  | RConfig (c : Config)
  | RStatus (h : History)
  | REntry (e : HistoryEntry).

(** [moggie/storage/records.py] is not among the sources: the record
    store is taken as an interface, with the operations the engine calls.
    [rs_get] is [records.get(idx)] ([None] when absent), [rs_contains] is
    [idx in records], [rs_keys_get] is [records.keys.get(kw_hash)] and
    yields the stored [(position, index)] pair. *)
Class RecordStore (store : Type) : Type := {
  rs_contains : store -> Z -> bool;
  rs_get : store -> Z -> option recval;
  rs_set : store -> Z -> recval -> store;
  rs_hash_key : string -> bytes;
  rs_keys_get : store -> bytes -> option (Z * Z);
  rs_set_key : store -> string -> Z -> store;
  rs_del_key : store -> string -> store;
  rs_drop_cache : store -> store;
}.

(** [moggie/search/versions.py], [moggie/search/dates.py] and
    [moggie/util/mailpile.py] are not among the sources; their functions
    are taken as an interface. *)
Class TermMagic : Type := {
  version_to_keywords : Z -> list string;
  ts_to_keywords : Z -> string -> list string;
  tag_quote : string -> string;
  tag_unquote : string -> res string;
}.

(** [from_json] and [to_json] of the dumb codec, over an abstract type of
    JSON values. *)
Class JsonCodec (json : Type) : Type := {
  from_json : bytes -> gmap string json;
  to_json : gmap string json -> string;
}.

(** ** Query terms *)

(** The IntSet callables that occur in op trees. *)
Inductive fn : Type := FOr | FAnd | FSub | FAll.

#[global] Instance fn_eq_dec : EqDecision fn.
Proof. solve_decision. Defined.

(** An op tree: a string, a tuple, a list, or an IntSet callable (the
    head of a tuple, or the [ALL] symbol). *)
#[warnings="-register-all"]
Inductive term : Type :=
  | TStr (s : string)
  | TTuple (l : list term)
  | TList (l : list term)
  | TFn (f : fn).

(** [term == other] on op trees. *)
Fixpoint term_eqb (a b : term) : bool :=
  let fix list_eqb (l1 l2 : list term) : bool :=
    match l1, l2 with
    | [], [] => true
    | x :: l1', y :: l2' => term_eqb x y && list_eqb l1' l2'
    | _, _ => false
    end in
  match a, b with
  | TStr s1, TStr s2 => bool_decide (s1 = s2)
  | TTuple l1, TTuple l2 => list_eqb l1 l2
  | TList l1, TList l2 => list_eqb l1 l2
  | TFn f1, TFn f2 => bool_decide (f1 = f2)
  | _, _ => false
  end.

(** Calling an IntSet callable on a sequence of IntSets.  [Or] unions
    its arguments, [And] intersects them, [Sub] subtracts the others from
    the first; [All] takes a number, so applying it to IntSets is a
    [TypeError], and so is calling [And] or [Sub] without arguments. *)
Definition apply_fn (f : fn) (args : list IntSet) : res IntSet :=
  match f, args with
  | FOr, _ => Ok (foldr IntSetOps.Or ∅ args)
  | FAnd, a :: rest => Ok (foldl IntSetOps.And a rest)
  | FSub, a :: rest => Ok (foldl IntSetOps.Sub a rest)
  | _, _ => Err TypeError
  end.

(** ** SearchEngine *)

Module SearchEngine.

Definition IDX_CONFIG : Z := 0.
Definition IDX_PART_SPACE : Z := 1.
Definition IDX_HISTORY_STATUS : Z := 1000.
Definition IDX_HISTORY_START : Z := 1001.
Definition IDX_HISTORY_END : Z := 2000.
Definition IDX_MAX_RESERVED : Z := 2000.

(** The engine object.  [pending] is [self.part_spaces[1]], the set of
    keywords waiting for a wordblob update. *)
Record t (store : Type) : Type := mk {
  records : store;
  config : Config;
  history : History;
  l1_begin : Z;
  l2_begin : Z;
  maxint : Z;
  deleted : IntSet;
  pending : gset string;
}.
Arguments mk {store}.
Arguments records {store}.
Arguments config {store}.
Arguments history {store}.
Arguments l1_begin {store}.
Arguments l2_begin {store}.
Arguments maxint {store}.
Arguments deleted {store}.
Arguments pending {store}.

(** The scope of a mutation: an IntSet, or a dict for a comment edit. *)
Inductive scope (json : Type) : Type :=
  | ScopeSet (s : IntSet)
  | ScopeDict (d : gmap string json).
Arguments ScopeSet {json}.
Arguments ScopeDict {json}.

(** An operator as the caller writes it: ['+'], [b'+'], or a callable. *)
Inductive opval : Type :=
  | OStr (s : string)
  | OBytes (b : bytes)
  | OFn (f : fn).

(** The ids of a result: one integer or a sequence of them. *)
Inductive ids_arg : Type :=
  | IdInt (i : Z)
  | IdList (l : list Z).

(** The keywords of a result: one string or a list of them. *)
Inductive kws_arg : Type :=
  | KwStr (s : string)
  | KwList (l : list string).

(** What [mutate] returns: [mutations], [changed], and either the
    history entry or the bare changeset. *)
Record mutate_result : Type := mkResult {
  mr_mutations : Z;
  mr_changed : IntSet;
  mr_history : option HistoryEntry;
  mr_changes : option (list change);
}.

(** The local variables of [mutate]'s loop. *)
Record mut_acc : Type := mkAcc {
  acc_cset_all : IntSet;
  acc_changes : list change;
  acc_mutations : Z;
}.

(** What [search] returns: the IntSet, or with [explain] the triple
    [(tag_namespace, ops, rv)]. *)
Inductive search_result : Type :=
  | Plain (rv : IntSet)
  | Explained (ns : string) (ops : term) (rv : IntSet).

Section Engine.
Context `{DumbCodec} `{TermMagic}.
Context {json : Type} `{JsonCodec json}.
Context {store : Type} `{RecordStore store}.

Abbreviation engine := (t store).

(** Methods run in a state-and-exception monad over the engine object:
    a method returns the object as it has left it, and a value or the
    exception raised. *)
Definition M (A : Type) : Type := engine -> engine * res A.

Definition ret {A} (a : A) : M A := fun self => (self, Ok a).
Definition raise {A} (e : exn) : M A := fun self => (self, Err e).
Definition bind {A B} (m : M A) (k : A -> M B) : M B := fun self =>
  match m self with
  | (self', Ok a) => k a self'
  | (self', Err e) => (self', Err e)
  end.
Definition lift {A} (r : res A) : M A := fun self => (self, r).
(** A computation that reads the object and leaves it as it is. *)
Definition read {A} (f : engine -> res A) : M A := fun self => (self, f self).

#[global] Instance M_ret : MRet M := @ret.
#[global] Instance M_bind : MBind M := fun A B k m => bind m k.

Definition with_records (self : engine) (r : store) : engine :=
  mk r (config self) (history self) (l1_begin self) (l2_begin self)
     (maxint self) (deleted self) (pending self).

Definition with_history (self : engine) (h : History) : engine :=
  mk (records self) (config self) h (l1_begin self) (l2_begin self)
     (maxint self) (deleted self) (pending self).

Definition with_maxint (self : engine) (m : Z) : engine :=
  mk (records self) (config self) (history self) (l1_begin self)
     (l2_begin self) m (deleted self) (pending self).

Definition with_pending (self : engine) (p : gset string) : engine :=
  mk (records self) (config self) (history self) (l1_begin self)
     (l2_begin self) (maxint self) (deleted self) p.

(** [self.records[idx] = value] *)
Definition records_set (idx : Z) (v : recval) : M unit := fun self =>
  (with_records self (rs_set (records self) idx v), Ok tt).

(** [__init__], given the opened record store, the [defaults] argument
    merged over [DEFAULTS], and [maxint]. *)
Definition init (r : store) (defaults : Config) (maxint : Z) : engine :=
  let '(r, cfg) :=
    match rs_get r IDX_CONFIG with
    | Some (RConfig c) => (r, c)
    | _ => (rs_set r IDX_CONFIG (RConfig defaults), defaults)
    end in
  let hist :=
    match rs_get r IDX_HISTORY_STATUS with
    | Some (RStatus h) => h
    | _ => mkHistory (Some 1) None
    end in
  let l1 := IDX_MAX_RESERVED + 1 in
  mk r cfg hist l1 (l1 + l1_keywords cfg) maxint {[0]} ∅.

(** [_allocate_history_slot] *)
Definition _allocate_history_slot : M (Z * Z) := fun self =>
  let pos := default IDX_HISTORY_END (h_pos (history self)) + 1 in
  let pos := if pos >? IDX_HISTORY_END then IDX_HISTORY_START else pos in
  let ver := default 0 (h_ver (history self)) + 1 in
  let h := mkHistory (Some ver) (Some pos) in
  let self := with_history self h in
  let self := with_records self (rs_set (records self) IDX_HISTORY_STATUS (RStatus h)) in
  (self, Ok (pos, ver)).

(** [self.records.get(idx) or b''] as the blob of a bucket; a record
    that holds something other than bytes cannot be read as a bucket. *)
Definition bucket_blob (v : option recval) : res bytes :=
  match v with
  | None => Ok []
  | Some (RBytes b) => Ok b
  | Some _ => Err TypeError
  end.

(** The tags one L1 bucket contributes to [iter_tags]. *)
Definition tags_of_items (tag_namespace : string)
    (its : list triple) : list (string * (bytes * IntSet)) :=
  let suffix := ("@" +:+ tag_namespace)%string in
  omap (fun it : triple =>
    let kw := string_of_list_byte (t_kw it) in
    let is_tag :=
      (3 <? Z.of_nat (String.length kw)) && PyStr.startswith kw "in:"
      && negb (bool_decide (String.get 3 kw = Some "@"%char)) in
    let hit kw := Some (kw, (t_comment it,
                             IntSetOps.or_empty (dumb_decode (t_iset it)))) in
    if bool_decide (tag_namespace = ""%string) then
      if is_tag then hit kw else None
    else
      if is_tag && PyStr.endswith kw suffix
      then hit (PyStr.split_head "@" kw)
      else None) its.

(** The loop of [iter_tags] over [range(self.l1_begin, self.l2_begin)],
    [n] indices from [idx] on; it stops at the first index that is not in
    the records. *)
Fixpoint iter_tags_from (n : nat) (idx : Z) (tag_namespace : string)
    (self : engine) : res (list (string * (bytes * IntSet))) :=
  match n with
  | O => Ok []
  | S n' =>
      if negb (rs_contains (records self) idx) then Ok [] else
      match rs_get (records self) idx with
      | Some (RBytes b) =>
          its ← PostingListBucket.items (PostingListBucket.new b);
          rest ← iter_tags_from n' (idx + 1) tag_namespace self;
          Ok (tags_of_items tag_namespace its ++ rest)
      | _ => Err TypeError
      end
  end.

(** [list(self.iter_tags(tag_namespace))] *)
Definition iter_tags (tag_namespace : string) (self : engine)
  : res (list (string * (bytes * IntSet))) :=
  iter_tags_from (Z.to_nat (l2_begin self - l1_begin self)) (l1_begin self)
    tag_namespace self.

(** The loop of [_empty_l1_idx]: the first of [n] indices from [idx] on
    that is not in the records. *)
Fixpoint first_empty (r : store) (n : nat) (idx : Z) : option Z :=
  match n with
  | O => None
  | S n' => if negb (rs_contains r idx) then Some idx
            else first_empty r n' (idx + 1)
  end.

(** [_empty_l1_idx]; the final [raise None] is a [TypeError], since
    [None] is not an exception. *)
Definition _empty_l1_idx (self : engine) : res Z :=
  match first_empty (records self)
          (Z.to_nat (l2_begin self - l1_begin self)) (l1_begin self) with
  | Some idx => Ok idx
  | None => Err TypeError
  end.

(** [struct.unpack('<I', buf)[0]] *)
Definition unpack_I (buf : bytes) : res Z :=
  if len buf =? 4 then Ok (le_int buf) else Err StructError.

(** [keyword_index(kw, prefer_l1, create)]; [prefer_l1] is [None],
    [True] or [False]. *)
Definition keyword_index (kw : string) (prefer_l1 : option bool)
    (create : bool) : M Z := fun self =>
  let kw_hash := rs_hash_key kw in
  let prefer_l1 :=
    match prefer_l1 with
    | None => if PyStr.startswith kw "in:" then true else false
    | Some b => b
    end in
  match rs_keys_get (records self) kw_hash with
  | Some kw_pos_idx => (self, Ok kw_pos_idx.2)
  | None =>
      if prefer_l1 && create then
        match _empty_l1_idx self with
        | Err e => (self, Err e)
        | Ok idx =>
            let self := with_records self (rs_set_key (records self) kw idx) in
            let self := with_records self (rs_set (records self) idx (RBytes [])) in
            (self, Ok idx)
        end
      else
        match unpack_I (slice kw_hash 0 4) with
        | Err e => (self, Err e)
        | Ok kw_hash_int =>
            if l2_buckets (config self) =? 0 then (self, Err ZeroDivisionError)
            else (self, Ok (kw_hash_int mod l2_buckets (config self)
                            + l2_begin self))
        end
  end.

(** [tag_quote_magic(term)] *)
Definition tag_quote_magic (term : string) : res string :=
  let unquoted :=
    if PyStr.contains "%" term
    then (u ← tag_unquote term; Ok (Some (tag_quote u)))
    else Ok None in
  match unquoted with
  | Ok (Some q) => Ok q
  | Ok None | Err ValueError => Ok (tag_quote term)
  | Err e => Err e
  end.

(** [keywords[kw] = keywords.get(kw, []) + [r_id]] on a dict that keeps
    insertion order. *)
Fixpoint dict_append (d : list (string * list Z)) (kw : string) (r_id : Z)
  : list (string * list Z) :=
  match d with
  | [] => [(kw, [r_id])]
  | (k, ids) :: d' =>
      if bool_decide (k = kw) then (k, ids ++ [r_id]) :: d'
      else (k, ids) :: dict_append d' kw r_id
  end.

(** The keyword rewriting in the inner loop of [_prep_results]. *)
Definition normalise_kw (tag_ns : string) (kw : string) : res string :=
  let kw := PyStr.remove_char "*" kw in
  let kw :=
    if PyStr.startswith kw "tag:"
    then ("in:" +:+ String.substring 4 (String.length kw - 4) kw)%string
    else kw in
  if PyStr.startswith kw "in:" then
    let kw := if bool_decide (tag_ns = ""%string) then kw
              else (kw +:+ "@" +:+ tag_ns)%string in
    tag_quote_magic kw
  else Ok kw.

(** [for kw in kw_list + extra_kws: ...] for one [r_id]. *)
Fixpoint prep_kws (tag_ns : string) (kws : list string) (r_id : Z)
    (keywords : list (string * list Z)) : res (list (string * list Z)) :=
  match kws with
  | [] => Ok keywords
  | kw :: kws' =>
      kw' ← normalise_kw tag_ns kw;
      prep_kws tag_ns kws' r_id (dict_append keywords kw' r_id)
  end.

(** [for r_id in r_ids: ...] for one result. *)
Fixpoint prep_ids (tag_ns : string) (kw_list extra_kws : list string)
    (r_ids : list Z) (st : list (string * list Z) * list Z) : M (list (string * list Z) * list Z) :=
  match r_ids with
  | [] => ret st
  | r_id :: r_ids' => fun self =>
      let self :=
        if maxint self <=? r_id then with_maxint self (r_id + 1) else self in
      match prep_kws tag_ns (kw_list ++ extra_kws) r_id st.1 with
      | Err e => (self, Err e)
      | Ok keywords =>
          let hits :=
            if bool_decide (kw_list = []) then st.2 else st.2 ++ [r_id] in
          prep_ids tag_ns kw_list extra_kws r_ids' (keywords, hits) self
      end
  end.

Definition ids_list (r_ids : ids_arg) : list Z :=
  match r_ids with
  | IdInt i => [i]
  | IdList l => l
  end.

Definition kws_list (kw_list : kws_arg) : list string :=
  match kw_list with
  | KwStr s => [s]
  | KwList l => l
  end.

(** [for (r_ids, kw_list) in results: ...] *)
Fixpoint prep_results_loop (tag_ns : string) (extra_kws : list string)
    (results : list (ids_arg * kws_arg))
    (st : list (string * list Z) * list Z) : M (list (string * list Z) * list Z) :=
  match results with
  | [] => ret st
  | (r_ids, kw_list) :: results' =>
      st' ← prep_ids tag_ns (kws_list kw_list) extra_kws (ids_list r_ids) st;
      prep_results_loop tag_ns extra_kws results' st'
  end.

(** [[(self.keyword_index(k, ...), k) for k in keywords]] *)
Fixpoint index_keywords (prefer_l1 : option bool) (create : bool)
    (ks : list string) : M (list (Z * string)) :=
  match ks with
  | [] => ret []
  | k :: ks' =>
      idx ← keyword_index k prefer_l1 create;
      rest ← index_keywords prefer_l1 create ks';
      ret ((idx, k) :: rest)
  end.

(** [_prep_results]; [do_touch] is the call [self.touch()] made when
    [touch] is true. *)
Definition _prep_results (do_touch : M (list string))
    (results : list (ids_arg * kws_arg)) (prefer_l1 : option bool)
    (tag_ns : string) (touch create : bool)
  : M (list (Z * string) * list (string * IntSet) * list Z) :=
  let extra_kws := if bool_decide (tag_ns = ""%string) then [] else ["in:"%string] in
  extra_kws ← (if touch then (kws ← do_touch; ret (extra_kws ++ kws))
               else ret extra_kws);
  '(keywords, hits) ← prep_results_loop tag_ns extra_kws results ([], []);
  kw_idx_list ← index_keywords prefer_l1 create (map fst keywords);
  ret (kw_idx_list,
       map (fun '(k, ids) => (k, list_to_set ids : IntSet)) keywords,
       hits).

(** The order of [sorted] on [(idx, kw)] pairs. *)
Definition pair_leb (a b : Z * string) : bool :=
  (a.1 <? b.1) || ((a.1 =? b.1) && String.leb a.2 b.2).

Fixpoint sorted_insert (x : Z * string) (l : list (Z * string))
  : list (Z * string) :=
  match l with
  | [] => [x]
  | y :: l' => if pair_leb x y then x :: l else y :: sorted_insert x l'
  end.

(** [sorted(kw_idx_list)] *)
Definition sorted (l : list (Z * string)) : list (Z * string) :=
  foldr sorted_insert [] l.

(** [dict[k]] on the keyword dict. *)
Fixpoint dict_get (d : list (string * IntSet)) (k : string) : res IntSet :=
  match d with
  | [] => Err KeyError
  | (k', v) :: d' => if bool_decide (k' = k) then Ok v else dict_get d' k
  end.

(** One round of the write loop of [add_results]. *)
Definition add_one (keywords : list (string * IntSet)) (x : Z * string)
  : M unit := fun self =>
  let '(idx, kw) := x in
  match bucket_blob (rs_get (records self) idx) with
  | Err e => (self, Err e)
  | Ok b =>
      let plb := PostingListBucket.with_deleted (PostingListBucket.new b)
                   (Some (deleted self)) in
      match dict_get keywords kw with
      | Err e => (self, Err e)
      | Ok ids =>
          match PostingListBucket.add plb (Str kw) (elements ids) with
          | (_, Err e) => (self, Err e)
          | (plb', Ok _) =>
              records_set idx (RBytes (PostingListBucket.blob plb')) self
          end
      end
  end.

Fixpoint add_loop (keywords : list (string * IntSet))
    (l : list (Z * string)) : M unit :=
  match l with
  | [] => ret tt
  | x :: l' => _ ← add_one keywords x; add_loop keywords l'
  end.

(** [add_results(results, prefer_l1, tag_namespace, touch)]; it returns
    [(len(keywords), hits)]. *)
Definition add_results_gen (do_touch : M (list string))
    (results : list (ids_arg * kws_arg)) (prefer_l1 : option bool)
    (tag_namespace : string) (touch : bool) : M (Z * list Z) :=
  '(kw_idx_list, keywords, hits) ←
     _prep_results do_touch results prefer_l1 tag_namespace touch true;
  _ ← add_loop keywords (sorted kw_idx_list);
  _ ← (fun self =>
         (with_pending self (pending self ∪ list_to_set (map fst keywords)),
          Ok tt));
  ret (len keywords, hits).

(** [version = self.history['ver'] = self.history.get('ver', 0) + 1;
    self.records[IDX_HISTORY_STATUS] = self.history] *)
Definition bump_version (self : engine) : engine :=
  let v := default 0 (h_ver (history self)) + 1 in
  let h := mkHistory (Some v) (h_pos (history self)) in
  let self := with_history self h in
  with_records self (rs_set (records self) IDX_HISTORY_STATUS (RStatus h)).

(** [touch(ids, version, ts)]; [now] is what [time.time()] returns.
    [touch] calls [add_results] with [touch=False], which does not call
    [touch] back. *)
Definition touch (ids : option IntSet) (version : option Z) (ts : option Z)
    (now : Z) : M (list string) :=
  version ←
    match version with
    | Some v => ret v
    | None => fun self =>
        (bump_version self, Ok (default 0 (h_ver (history self)) + 1))
    end;
  let ts := match ts with
            | Some t => if t =? 0 then now else t
            | None => now
            end in
  let kws := version_to_keywords version ++ ts_to_keywords ts "vdate" in
  (* logging.debug(... kws[-1]) *)
  _ ← (if bool_decide (kws = []) then raise IndexError else ret tt);
  match ids with
  | Some s =>
      _ ← add_results_gen (raise TypeError)
            [(IdList (elements s), KwList kws)] None ""%string false;
      ret kws
  | None => ret kws
  end.

(** [add_results]; [now] is what [time.time()] returns inside [touch]. *)
Definition add_results (now : Z) (results : list (ids_arg * kws_arg))
    (prefer_l1 : option bool) (tag_namespace : string) (touch_ : bool)
  : M (Z * list Z) :=
  add_results_gen (touch None None None now) results prefer_l1
    tag_namespace touch_.

(** [_ns(k, ns)] *)
Definition _ns (k ns : string) : res string :=
  if negb (bool_decide (ns = ""%string)) && PyStr.startswith k "in:" then
    if PyStr.contains "@" k then Err PermissionError
    else Ok (k +:+ "@" +:+ ns)%string
  else Ok k.

(** A mutation list: [[(scope, [(op, kw)])]]. *)
Abbreviation mlist := (list (scope json * list (opval * string))).

(** The mutations one change of a history entry gives rise to. *)
Definition change_mutations (undo : bool) (c : change)
  : res (list (scope json * list (opval * string))) :=
  let '(kw, idx, enc_iset, enc_oset) := c in
  match dumb_decode_asc enc_iset, dumb_decode_asc enc_oset with
  | Some iset, Some oset =>
      let '(iset, oset) := if undo then (oset, iset) else (iset, oset) in
      let add_bits := IntSetOps.Sub (IntSetOps.Or ∅ oset) iset in
      let sub_bits := IntSetOps.Sub (IntSetOps.Or ∅ iset) oset in
      Ok ((if IntSetOps.truthy add_bits
           then [(ScopeSet add_bits, [(OStr "+", kw)])] else [])
          ++ (if IntSetOps.truthy sub_bits
              then [(ScopeSet sub_bits, [(OStr "-", kw)])] else []))
  | _, _ => Err TypeError
  end.

Fixpoint changes_mutations (undo : bool) (cs : list change) : res mlist :=
  match cs with
  | [] => Ok []
  | c :: cs' =>
      ms ← change_mutations undo c;
      rest ← changes_mutations undo cs';
      Ok (ms ++ rest)
  end.

(** [historic_mutations(hist_id, undo, redo)].  A slot that holds the
    status or the configuration dict has no ['id'] key ([KeyError]); one
    that holds bytes cannot be indexed by a [str] ([TypeError]). *)
Definition historic_mutations (hist_id : string) (undo redo : bool)
    (self : engine) : res mlist :=
  if (undo && redo) || negb (undo || redo) then Err ValueError else
  slot ← PyStr.int16 (PyStr.split_head "-" hist_id);
  match rs_get (records self) slot with
  | None => Err KeyError
  | Some (REntry history) =>
      if negb (bool_decide (he_id history = hist_id)) then Err KeyError else
      let changes := he_changes history in
      let changes := if undo then rev changes else changes in
      changes_mutations undo changes
  | Some (RStatus _) | Some (RConfig _) => Err KeyError
  | Some (RBytes _) => Err TypeError
  end.

(** [_op(o)] inside [mutate] *)
Definition _op (o : opval) : res fn :=
  let o' :=
    match o with
    | OStr s =>
        if bool_decide (s = "+"%string) then Some FOr
        else if bool_decide (s = "-"%string) then Some FSub else None
    | OBytes b =>
        if bool_decide (b = [x2b]) then Some FOr
        else if bool_decide (b = [x2d]) then Some FSub else None
    | OFn f => Some f
    end in
  match o' with
  | Some FOr => Ok FOr
  | Some FSub => Ok FSub
  | _ => Err ValueError
  end.

(** [[(op, tag, self.keyword_index(tag, create=False)) for tag in tags]] *)
Fixpoint index_tags (op : fn) (tags : list string) : M (list (fn * string * Z)) :=
  match tags with
  | [] => ret []
  | tag :: tags' =>
      idx ← keyword_index tag None false;
      rest ← index_tags op tags';
      ret ((op, tag, idx) :: rest)
  end.

(** [list(_op_kwi(op, kw))] inside [mutate].  The generator is
    modelled by the list of what it yields. *)
Definition _op_kwi (tag_namespace : string) (op : opval) (kw : string)
  : M (list (fn * string * Z)) :=
  op ← lift (_op op);
  if bool_decide (kw = "in:*"%string) || bool_decide (kw = tag_quote "in:*") then
    if bool_decide (op = FSub) then
      tags ← read (iter_tags tag_namespace);
      index_tags op (map fst tags)
    else ret []
  else
    kw ← lift (_ns kw tag_namespace);
    idx ← keyword_index kw None (bool_decide (op = FOr));
    ret [(op, kw, idx)].

(** [for op, kw in op_kw_list: op_idx_kw_list.extend(_op_kwi(op, kw))] *)
Fixpoint expand_ops (tag_namespace : string) (op_kw_list : list (opval * string))
  : M (list (fn * string * Z)) :=
  match op_kw_list with
  | [] => ret []
  | (op, kw) :: rest =>
      l ← _op_kwi tag_namespace op kw;
      ls ← expand_ops tag_namespace rest;
      ret (l ++ ls)
  end.

(** The body of [for op, kw, idx in op_idx_kw_list] in [mutate]. *)
Definition mutate_one (mset : scope json) (x : fn * string * Z)
    (acc : mut_acc) : M mut_acc := fun self =>
  let '(op, kw, idx) := x in
  match bucket_blob (rs_get (records self) idx) with
  | Err e => (self, Err e)
  | Ok b =>
    let plb := PostingListBucket.new b in
    match PostingListBucket.get_with_comment plb (Str kw) with
    | Err e => (self, Err e)
    | Ok (comment, iset) =>
      match mset with
      | ScopeDict d =>
          let cdata := if bytes_truthy comment then from_json comment else ∅ in
          let cdata :=
            if bool_decide (op = FOr) then d ∪ cdata
            else filter (fun kv => kv.1 ∉ dom d) cdata in
          match PostingListBucket.set_comment plb (Str kw) (Str (to_json cdata)) with
          | (_, Err e) => (self, Err e)
          | (plb', Ok _) =>
              (with_records self
                 (rs_set (records self) idx (RBytes (PostingListBucket.blob plb'))),
               Ok acc)
          end
      | ScopeSet mset =>
          let iset := default ∅ iset in
          match apply_fn op [iset; mset] with
          | Err e => (self, Err e)
          | Ok oset =>
              if negb (bool_decide (iset = oset)) then
                match PostingListBucket.set plb (Str kw) (Some oset) (Bytes [])
                        None None with
                | (_, Err e) => (self, Err e)
                | (plb', Ok _) =>
                    let self :=
                      with_records self
                        (rs_set (records self) idx
                           (RBytes (PostingListBucket.blob plb'))) in
                    let cset := IntSetOps.And (IntSetOps.Xor (IntSetOps.Or ∅ iset) oset) mset in
                    let iset := IntSetOps.And iset mset in
                    let oset := IntSetOps.And oset mset in
                    (self,
                     Ok (mkAcc (IntSetOps.Or (acc_cset_all acc) cset)
                           (acc_changes acc ++
                              [(kw, idx, dumb_encode_asc (Some 256) iset,
                                dumb_encode_asc (Some 256) oset)])
                           (acc_mutations acc + 1)))
                end
              else (self, Ok acc)
          end
      end
    end
  end.

Fixpoint mutate_ops (mset : scope json) (l : list (fn * string * Z))
    (acc : mut_acc) : M mut_acc :=
  match l with
  | [] => ret acc
  | x :: l' => acc' ← mutate_one mset x acc; mutate_ops mset l' acc'
  end.

(** [for mset, op_kw_list in mlist: ...] *)
Fixpoint mutate_loop (tag_namespace : string) (ml : mlist) (acc : mut_acc)
  : M mut_acc :=
  match ml with
  | [] => ret acc
  | (mset, op_kw_list) :: ml' =>
      op_idx_kw_list ← expand_ops tag_namespace op_kw_list;
      acc' ← mutate_ops mset op_idx_kw_list acc;
      mutate_loop tag_namespace ml' acc'
  end.

(** [mutate(mlist, record_history, tag_namespace)].  [rnd] is what
    [random.randint(0, 0xffffffffff)] returns, [now] what [time.time()]
    returns when the entry is written and [now'] what it returns inside
    [touch]. *)
Definition mutate (ml : mlist) (record_history : option string)
    (tag_namespace : string) (rnd now now' : Z) : M mutate_result :=
  acc ← mutate_loop tag_namespace ml (mkAcc ∅ [] 0);
  let recording :=
    match record_history with
    | Some c => negb (bool_decide (c = ""%string))
    | None => false
    end in
  if recording then
    '(slot, version) ← _allocate_history_slot;
    let changes :=
      mkEntry (PyStr.hex 3 slot +:+ "-" +:+ PyStr.hex 0 rnd)%string now
        (default ""%string record_history) version (acc_changes acc) in
    _ ← records_set slot (REntry changes);
    _ ← touch (Some (acc_cset_all acc)) (Some version) None now';
    ret (mkResult (acc_mutations acc) (acc_cset_all acc) (Some changes) None)
  else
    _ ← touch (Some (acc_cset_all acc)) None None now';
    ret (mkResult (acc_mutations acc) (acc_cset_all acc) None
           (Some (acc_changes acc))).

(** [get_version()] *)
Definition get_version (self : engine) : Z := default 0 (h_ver (history self)).

(** [__getitem__(keyword)] *)
Definition __getitem__ (keyword : string) : M IntSet :=
  idx ← keyword_index keyword None false;
  read (fun self =>
    b ← bucket_blob (rs_get (records self) idx);
    iset ← PostingListBucket.get (PostingListBucket.new b) (Str keyword);
    Ok (IntSetOps.or_empty iset)).

(** [try: ... except ValueError: ids = []] *)
Definition except_ValueError {A} (r : res A) (handler : A) : res A :=
  match r with
  | Err ValueError => Ok handler
  | _ => r
  end.

(** The body of [for _id in elems] in [_id_list]. *)
Definition id_elem (maxint : Z) (_id : string) : res (list Z) :=
  if PyStr.contains ".." _id then
    parts ← PyStr.split ".." _id;
    match parts with
    | [b; e] =>
        b ← PyStr.int b;
        e ← PyStr.int e;
        Ok (seqZ b (Z.min maxint (e + 1) - b))
    | _ => Err ValueError
    end
  else
    i ← PyStr.int _id; Ok [i].

Fixpoint id_elems (maxint : Z) (elems : list string) : res (list Z) :=
  match elems with
  | [] => Ok []
  | _id :: elems' =>
      l ← id_elem maxint _id;
      ls ← id_elems maxint elems';
      Ok (l ++ ls)
  end.

(** [_id_list(ids)] *)
Definition _id_list (ids : string) (self : engine) : res (list Z) :=
  match String.get 0 ids with
  | None => Err IndexError
  | Some c =>
      ids ← except_ValueError
        (if bool_decide (c ∈ ["I"; "S"; "T"; "Z"]%char) then
           match dumb_decode_asc ids with
           | Some s => Ok (elements s)
           | None => Err TypeError
           end
         else
           elems ← PyStr.split "," ids;
           id_elems (maxint self) elems)
        [];
      Ok (filter (fun i => 0 <= i <= maxint self) ids)
  end.

(** [self[keyword]] read off the current state. *)
Definition lookup (self : engine) (keyword : string) : res IntSet :=
  (__getitem__ keyword self).2.

(** [_search(term, tag_ns)] *)
Fixpoint _search (self : engine) (tag_ns : string) (term_ : term) : res IntSet :=
  let all_ : res IntSet :=
    if negb (bool_decide (tag_ns = ""%string))
    then lookup self ("in:@" +:+ tag_ns)%string
    else Ok (IntSetOps.All (maxint self)) in
  let fix search_all (ts : list term) : res (list IntSet) :=
    match ts with
    | [] => Ok []
    | t :: ts' =>
        r ← _search self tag_ns t;
        rs ← search_all ts';
        Ok (r :: rs)
    end in
  match term_ with
  | TTuple (op :: (_ :: _) as args) =>
      rs ← search_all args;
      match op with
      | TFn f => apply_fn f rs
      | _ => Err TypeError
      end
  | TTuple _ => Ok ∅
  | TStr s =>
      let s :=
        if PyStr.startswith s "tag:"
        then ("in:" +:+ String.substring 4 (String.length s - 4) s)%string
        else s in
      if negb (bool_decide (tag_ns = ""%string)) && PyStr.startswith s "in:"
      then lookup self (s +:+ "@" +:+ tag_ns)%string
      else if bool_decide (s ∈ ["in:"; "all:mail"; "*"]%string) then all_
      else if PyStr.startswith s "id:" || PyStr.startswith s "mid:" then
        match PyStr.split1 ":" s with
        | [_; ids] => l ← _id_list ids self; Ok (list_to_set l)
        | _ => Err IndexError
        end
      else lookup self s
  | TList ts =>
      rs ← search_all ts;
      apply_fn FAnd rs
  | TFn FAll => all_
  | TFn _ => Err ValueError
  end.

End Engine.

(** [moggie/search/parse_greedy.py] is not among the sources: the
    parser, with the engine's magic map applied, is taken as an
    interface. *)
Class QueryParser (store : Type) : Type := {
  parse_terms : t store -> string -> res term;
}.

Section Search.
Context `{DumbCodec} `{TermMagic}.
Context {store : Type} `{RecordStore store} `{QueryParser store}.

(** [tag not in terms]: a substring test on query text, a membership
    test on a tuple or list; the [ALL] symbol is not iterable. *)
Definition not_in_terms (tag : string) (terms : term) : res bool :=
  match terms with
  | TStr s => Ok (negb (PyStr.contains tag s))
  | TTuple l | TList l => Ok (negb (existsb (term_eqb (TStr tag)) l))
  | TFn _ => Err TypeError
  end.

(** [[tag for tag in mask_tags if tag not in terms]] *)
Fixpoint masking_of (mask_tags : list string) (terms : term)
  : res (list string) :=
  match mask_tags with
  | [] => Ok []
  | tag :: rest =>
      b ← not_in_terms tag terms;
      ms ← masking_of rest terms;
      Ok (if b : bool then tag :: ms else ms)
  end.

(** Truth value of the [more_terms] argument. *)
Definition term_truthy (q : term) : bool :=
  match q with
  | TStr s => negb (bool_decide (s = ""%string))
  | TTuple l | TList l => negb (bool_decide (length l = O))
  | TFn _ => true
  end.

(** [self.parse_terms(q, self.magic_map) if isinstance(q, str) else q] *)
Definition parse_query (self : t store) (q : term) : res term :=
  match q with
  | TStr s => parse_terms self s
  | _ => Ok q
  end.

(** The op tree of [search] before masking: the parsed [terms], wrapped
    with [more_terms] and with the namespace's [ALL]. *)
Definition search_ops (self : t store) (terms : term) (tag_namespace : string)
    (more_terms : option term) : res term :=
  ops ← parse_query self terms;
  ops ←
    match more_terms with
    | Some mt =>
        if term_truthy mt then
          mt' ← parse_query self mt;
          Ok (TTuple [TFn FAnd; ops; mt'])
        else Ok ops
    | None => Ok ops
    end;
  Ok (if negb (bool_decide (tag_namespace = ""%string))
      then TTuple [TFn FAnd; TFn FAll; ops] else ops).

(** [search(terms, tag_namespace, mask_deleted, mask_tags, more_terms,
    explain)]; [terms] is query text ([TStr]) or a pre-built op tree. *)
Definition search (self : t store) (terms : term) (tag_namespace : string)
    (mask_deleted : bool) (mask_tags : option (list string))
    (more_terms : option term) (explain : bool) : res search_result :=
  ops ← search_ops self terms tag_namespace more_terms;
  ops ←
    match mask_tags with
    | Some ((_ :: _) as tags) =>
        masking ← masking_of tags terms;
        if negb (bool_decide (masking = []))
           && bool_decide (length masking = length tags)
        then Ok (TTuple ([TFn FSub; ops] ++ map TStr masking))
        else Ok ops
    | _ => Ok ops
    end;
  rv ← _search self tag_namespace ops;
  let rv := if mask_deleted then IntSetOps.Sub rv (deleted self) else rv in
  Ok (if explain then Explained tag_namespace ops rv else Plain rv).

(** [[self._search(t, ns) for t in ts]] *)
Fixpoint search_each (self : t store) (tag_namespace : string)
    (ts : list term) : res (list IntSet) :=
  match ts with
  | [] => Ok []
  | t :: ts' =>
      r ← _search self tag_namespace t;
      rs ← search_each self tag_namespace ts';
      Ok (r :: rs)
  end.

(** The argument list [[op, first] + rest] of a tuple. *)
Definition TTuple_args (op first : term) (rest : list term) : list term :=
  op :: first :: rest.

(** [rv] after the [mask_deleted] step of [search]. *)
Definition mask_deleted_of (self : t store) (mask_deleted : bool)
    (rv : IntSet) : IntSet :=
  if mask_deleted then IntSetOps.Sub rv (deleted self) else rv.

(** [[self._search(TStr tag, ns) for tag in tags]] *)
Fixpoint search_tags_each (self : t store) (tag_namespace : string)
    (tags : list string) : res (list IntSet) :=
  match tags with
  | [] => Ok []
  | tag :: tags' =>
      r ← _search self tag_namespace (TStr tag);
      rs ← search_tags_each self tag_namespace tags';
      Ok (r :: rs)
  end.

End Search.
End SearchEngine.

(** ** A reference record store and reference term magic *)

#[global] Instance byte_countable : Countable byte :=
  inj_countable Byte.to_N Byte.of_N Byte.of_to_N.

(** Modelled from the spec: the record store of section 4.2 as a finite
    map from record numbers to values, with the hashed-key secondary
    map; [set] replaces the value of a record, and a record that has
    been written is in the store.  The 16-byte key hash is the keyword
    itself, cut or zero-padded to 16 bytes.  It instantiates
    [RecordStore] for the closed examples. *)
Module MapStore.

Record t : Type := mk {
  recs : gmap Z recval;
  keys : gmap bytes (Z * Z);
}.

Definition hash_key (kw : string) : bytes :=
  take 16 (utf8 kw ++ repeat x00 16).

#[global] Instance store : RecordStore t := {|
  rs_contains s idx := bool_decide (is_Some (recs s !! idx));
  rs_get s idx := recs s !! idx;
  rs_set s idx v := mk (<[idx := v]> (recs s)) (keys s);
  rs_hash_key := hash_key;
  rs_keys_get s h := keys s !! h;
  rs_set_key s kw idx := mk (recs s) (<[hash_key kw := (0, idx)]> (keys s));
  rs_del_key s kw := mk (recs s) (delete (hash_key kw) (keys s));
  rs_drop_cache s := s;
|}.

Definition empty : t := mk ∅ ∅.

End MapStore.

(** Modelled from the spec: term magic that gives one [version:<v>]
    keyword per version and one [<kw_date>:<ts>] keyword per timestamp,
    and a tag quoting that leaves tags as they are. *)
Module PlainMagic.

#[global] Instance magic : TermMagic := {|
  version_to_keywords v := [("version:" +:+ PyStr.hex 0 v)%string];
  ts_to_keywords ts kw_date := [(kw_date +:+ ":" +:+ PyStr.hex 0 ts)%string];
  tag_quote s := s;
  tag_unquote s := Ok s;
|}.

#[global] Instance json_codec : JsonCodec string := {|
  from_json _ := ∅;
  to_json _ := ""%string;
|}.

(** Query text is one bare term. *)
#[global] Instance parser {store : Type} : SearchEngine.QueryParser store := {|
  SearchEngine.parse_terms _ s := Ok (TStr s);
|}.

End PlainMagic.

(** ** Frames *)

Section FrameDefs.
Context {store : Type}.

(** The attributes that only [__init__], [_allocate_history_slot] and
    [touch] assign. *)
Definition meta (self : SearchEngine.t store) : Config * History * Z * Z * IntSet :=
  (SearchEngine.config self, SearchEngine.history self,
   SearchEngine.l1_begin self, SearchEngine.l2_begin self,
   SearchEngine.deleted self).

(** The method [m] leaves [f self] as it is, whatever it returns. *)
Definition preserves {A X} (f : SearchEngine.t store -> X)
    (m : SearchEngine.M A) : Prop :=
  forall self, f (m self).1 = f self.

End FrameDefs.

(** ** Keyword placement: the properties stated about it *)

Section Placement.
Context {store : Type} `{RecordStore store}.

(** [idx] is the first record index of the L1 region
    [[l1_begin, l2_begin)] that is not in the records. *)
Definition first_unoccupied (self : SearchEngine.t store) (idx : Z) : Prop :=
  SearchEngine.l1_begin self <= idx < SearchEngine.l2_begin self /\
  rs_contains (SearchEngine.records self) idx = false /\
  forall j, SearchEngine.l1_begin self <= j < idx ->
            rs_contains (SearchEngine.records self) j = true.

(** Every record index of the L1 region is occupied. *)
Definition l1_full (self : SearchEngine.t store) : Prop :=
  forall j, SearchEngine.l1_begin self <= j < SearchEngine.l2_begin self ->
            rs_contains (SearchEngine.records self) j = true.

(** The state [keyword_index] leaves when it claims [idx] for [kw]:
    [set_key(kw, idx)], then [records[idx] = b'']. *)
Definition claimed (self : SearchEngine.t store) (kw : string) (idx : Z)
  : SearchEngine.t store :=
  SearchEngine.with_records self
    (rs_set (rs_set_key (SearchEngine.records self) kw idx) idx (RBytes [])).

End Placement.

(** ** Sample engines *)

Module SampleEngines.
Import SearchEngine ListCodec MapStore PlainMagic.

(** Two L1 records and eight L2 buckets. *)
Definition small_config : Config := {|
  partial_list_len := 20;
  partial_min_hits := 3;
  partial_shortest := 4;
  partial_longest := 14;
  partial_matches := 25;
  l1_keywords := 2;
  l2_buckets := 8;
|}.

Definition se0 : SearchEngine.t MapStore.t := init MapStore.empty small_config 1.

(** After [add_results([(4, ['in:inbox', 'in:testing'])])]: both L1
    records are taken. *)
Definition se_full : SearchEngine.t MapStore.t :=
  (add_results 1700000000 [(IdInt 4, KwList ["in:inbox"; "in:testing"]%string)]
     None ""%string true se0).1.

(** After [add_results([(4, ['in:inbox', 'hello'])])]: one L1 record is
    still free. *)
Definition se_one : SearchEngine.t MapStore.t :=
  (add_results 1700000000 [(IdInt 4, KwList ["in:inbox"; "hello"]%string)]
     None ""%string true se0).1.

(** Four L1 records and eight L2 buckets. *)
Definition medium_config : Config := {|
  partial_list_len := 20;
  partial_min_hits := 3;
  partial_shortest := 4;
  partial_longest := 14;
  partial_matches := 25;
  l1_keywords := 4;
  l2_buckets := 8;
|}.

(** Part of the module's own test set-up: [hello] and [world] on ids 1
    and 2, then the tags [in:inbox] and [in:testing] on id 4. *)
Definition se_test : SearchEngine.t MapStore.t :=
  let se := init MapStore.empty medium_config 1 in
  let se := (add_results 1700000000
               [(IdInt 1, KwList ["hello"; "world"]%string);
                (IdInt 2, KwList ["hello"]%string)]
               None ""%string true se).1 in
  (add_results 1700000001
     [(IdInt 4, KwList ["in:inbox"; "in:testing"]%string)]
     None ""%string true se).1.

(** [mutate([(IntSet([4, 3]), [('-', 'in:testing'), (IntSet.Or, 'in:inbox')])],
    record_history='Testing')] *)
Definition test_mutation : list (scope string * list (opval * string)) :=
  [(ScopeSet {[4; 3]},
    [(OStr "-", "in:testing"%string); (OFn FOr, "in:inbox"%string)])].

Definition se_mutated : SearchEngine.t MapStore.t * res mutate_result :=
  mutate test_mutation (Some "Testing"%string) ""%string 1193046 1700000002
    1700000003 se_test.

(** Ids 5 and 6 carry [in:spam]; id 5 also carries [in:trash]. *)
Definition se_mask : SearchEngine.t MapStore.t :=
  (add_results 1700000000
     [(IdInt 5, KwList ["in:spam"; "in:trash"]%string);
      (IdInt 6, KwList ["in:spam"]%string)]
     None ""%string true (init MapStore.empty medium_config 1)).1.


(** Ids 4 and 5 carry the global tag [in:inbox]; inside the namespace
    [work], id 5 carries [in:inbox] (stored as [in:inbox@work]). *)
Definition se_ns : SearchEngine.t MapStore.t :=
  let se := init MapStore.empty medium_config 1 in
  let se := (add_results 1700000000
               [(IdList [4; 5], KwList ["in:inbox"]%string)]
               None ""%string true se).1 in
  (add_results 1700000001 [(IdInt 5, KwList ["in:inbox"]%string)]
     None "work"%string true se).1.

End SampleEngines.

(** ** The text of id lists *)








(** ** The claims that the code does not meet, as stated *)

Section Stated.
Context `{DumbCodec} `{TermMagic}.
Context {json : Type} `{JsonCodec json}.
Context {store : Type} `{RecordStore store} `{SearchEngine.QueryParser store}.
Import SearchEngine.

(** "For [+] it is an error": a union with the operand [in:*] makes
    [mutate] raise. *)
Definition wildcard_union_raises (self : t store) (mset : IntSet) : Prop :=
  forall rnd now now',
  exists e,
    (mutate (json := json) [(ScopeSet mset, [(OStr "+", "in:*"%string)])] None
       ""%string rnd now now' self).2 = Err e.

(** "For [-], iterate every tag within the namespace and apply to
    each": after a subtraction with the operand [in:*], every tag that
    [iter_tags] yields for the namespace has lost the ids of the scope,
    under the keyword the namespace gives it. *)
Definition wildcard_subtract_scoped (self : t store) (ns : string)
    (mset : IntSet) : Prop :=
  forall rnd now now' self' r tags tag k old,
    mutate (json := json) [(ScopeSet mset, [(OStr "-", "in:*"%string)])] None
      ns rnd now now' self = (self', Ok r) ->
    iter_tags ns self = Ok tags -> tag ∈ map fst tags ->
    _ns tag ns = Ok k ->
    lookup self k = Ok old -> lookup self' k = Ok (old ∖ mset).



(** "[search] subtracts each tag of [mask_tags] that does not appear in
    the query text": no id of such a tag is in the result. *)
Definition masks_each_absent_tag (self : t store) (terms : term)
    (mask_tags : list string) : Prop :=
  forall rv tag ids i,
    search self terms ""%string true (Some mask_tags) None false = Ok (Plain rv) ->
    tag ∈ mask_tags -> not_in_terms tag terms = Ok true ->
    lookup self tag = Ok ids -> i ∈ ids -> i ∉ rv.

End Stated.

(** ** Well-formed buckets *)

(** The blob is a sequence of triples whose lengths fit their headers. *)
Definition bucket_wf (b : bytes) : Prop :=
  exists ts : list triple, Forall wf_triple ts /\ b = serialize ts.

(** ** Repeated slot allocation *)

Section Ring.
Context {store : Type} `{RecordStore store}.

(** The engine after [n] calls of [_allocate_history_slot]. *)
Fixpoint allocate_n (n : nat) (self : SearchEngine.t store) : SearchEngine.t store :=
  match n with
  | O => self
  | S n' => (SearchEngine._allocate_history_slot (allocate_n n' self)).1
  end.

End Ring.

(** ** The record store's contract *)

(** Modelled from the spec: [moggie/storage/records.py] is not among the
    sources.  Section 4.2 gives the contract of the record store: "a
    given idx has exactly one current value" and "set(idx, bytes)
    replaces", with the hashed-key map maintained by [set_key] and
    [del_key] only.  So a blob that has been written is what the record
    then reads as (an empty blob may read as absent, which the engine
    takes for an empty bucket all the same), the other records are as
    they were, and a write leaves the key map alone. *)
Class RecordStoreLaws (store : Type) `{RecordStore store} : Prop := {
  rs_get_set_same (s : store) (i : Z) (b : bytes) :
    SearchEngine.bucket_blob (rs_get (rs_set s i (RBytes b)) i) = Ok b;
  rs_get_set_other (s : store) (i j : Z) (v : recval) :
    i <> j -> rs_get (rs_set s i v) j = rs_get s j;
  rs_keys_get_set (s : store) (i : Z) (v : recval) (h : bytes) :
    rs_keys_get (rs_set s i v) h = rs_keys_get s h;
}.

(** ** Pre- and postconditions of methods *)

Section Hoare.
Context {store : Type}.

(** When [m] is called in a state that meets [P] and returns, the
    value and the state meet [Q]. *)
Definition hoare {A} (P : SearchEngine.t store -> Prop) (m : SearchEngine.M A)
    (Q : A -> SearchEngine.t store -> Prop) : Prop :=
  forall self self' a, P self -> m self = (self', Ok a) -> Q a self'.

End Hoare.

(** ** Tags as the index holds them *)

Section WildcardDefs.
Context `{DumbCodec} `{TermMagic}.
Context {store : Type} `{RecordStore store}.
Import SearchEngine.

(** The index resolves [tag] to the record [idx], which reads as a
    well-formed bucket where [tag] has the comment and IntSet [v]
    ([(b'', None)] when it has no triple there). *)
Definition holds (idx : Z) (tag : string) (v : bytes * option IntSet)
    (self : t store) : Prop :=
  (keyword_index tag None false self).2 = Ok idx /\
  exists b, bucket_blob (rs_get (records self) idx) = Ok b /\
            bucket_wf b /\
            PostingListBucket.get_with_comment (PostingListBucket.new b)
              (Str tag) = Ok v.

(** Every tag of [tags] is held at the record [ix] names for it. *)
Definition all_hold (ix : string -> Z) (tags : list string)
    (self : t store) : Prop :=
  forall tag, tag ∈ tags -> exists v, holds (ix tag) tag v self.

(** The record [keyword_index(tag, create=False)] resolves [tag] to. *)
Definition index_of (self : t store) (tag : string) : Z :=
  match (keyword_index tag None false self).2 with
  | Ok idx => idx
  | Err _ => 0
  end.

(** [tag] is kept in a well-formed bucket above the reserved records. *)
Definition tag_stored (self : t store) (tag : string) : Prop :=
  exists idx v, IDX_MAX_RESERVED < idx /\ holds idx tag v self.

(** A keyword that [add_results] files outside the tags: after the
    rewriting of [_prep_results] it does not begin with [in:]. *)
Definition plain_keyword (kw : string) : Prop :=
  forall kw', normalise_kw ""%string kw = Ok kw' ->
              PyStr.startswith kw' "in:" = false.

(** The keywords the next [touch] at time [now] adds to the ids it is
    given. *)
Definition touch_keywords (self : t store) (now : Z) : list string :=
  version_to_keywords (get_version self + 1) ++ ts_to_keywords now "vdate".

End WildcardDefs.
(** ** Facts about bytes, slices and headers *)

Lemma Z_of_byte_range (b : byte) : 0 <= Z_of_byte b < 256.
Proof.
  unfold Z_of_byte. pose proof (Byte.to_N_bounded b). lia.
Qed.

Lemma Z_of_byte_of_Z (z : Z) : 0 <= z < 256 -> Z_of_byte (byte_of_Z z) = z.
Proof.
  intros Hz. unfold byte_of_Z, Z_of_byte.
  rewrite Z.mod_small by lia.
  destruct (Byte.of_N (Z.to_N z)) as [b|] eqn:E.
  - apply Byte.to_of_N in E. lia.
  - apply Byte.of_N_None_iff in E. lia.
Qed.

Lemma le_int_nonneg (bs : bytes) : 0 <= le_int bs.
Proof.
  induction bs as [|b bs IH]; simpl; [lia|].
  pose proof (Z_of_byte_range b). lia.
Qed.

Lemma length_le_bytes (n : nat) (x : Z) : length (le_bytes n x) = n.
Proof. revert x. induction n; intros; simpl; auto. Qed.

Lemma le_int_le_bytes (n : nat) (x : Z) :
  0 <= x < 256 ^ Z.of_nat n -> le_int (le_bytes n x) = x.
Proof.
  revert x. induction n as [|n IH]; intros x Hx.
  - simpl in *. lia.
  - cbn [le_bytes le_int].
    rewrite Nat2Z.inj_succ, Z.pow_succ_r in Hx by lia.
    rewrite Z_of_byte_of_Z by (apply Z.mod_pos_bound; lia).
    rewrite IH.
    + pose proof (Z.div_mod x 256). lia.
    + split; [apply Z.div_pos; lia|].
      apply Z.div_lt_upper_bound; lia.
Qed.

Lemma len_le_bytes (n : nat) (x : Z) : len (le_bytes n x) = Z.of_nat n.
Proof. unfold len. rewrite length_le_bytes. reflexivity. Qed.

Lemma len_app {A} (a b : list A) : len (a ++ b) = len a + len b.
Proof. unfold len. rewrite length_app. lia. Qed.

Lemma len_nonneg {A} (a : list A) : 0 <= len a.
Proof. unfold len. lia. Qed.

Lemma slice_mid {A} (a b c : list A) (i j : Z) :
  i = len a -> j = i + len b -> slice (a ++ b ++ c) i j = b.
Proof.
  intros -> ->. unfold slice, len.
  rewrite Nat2Z.id, drop_app_length.
  replace (Z.to_nat _) with (length b) by lia.
  apply take_app_length.
Qed.

Lemma slice_prefix {A} (b c : list A) (j : Z) :
  j = len b -> slice (b ++ c) 0 j = b.
Proof. intros ->. apply (slice_mid [] b c); reflexivity. Qed.

Lemma slice_all {A} (a : list A) : slice a 0 (len a) = a.
Proof.
  unfold slice, len. simpl. rewrite drop_0.
  replace (Z.to_nat _) with (length a) by lia.
  apply firstn_all.
Qed.

Lemma unpack_pack_HHI (a b c : Z) (hdr : bytes) :
  pack_HHI a b c = Ok hdr -> unpack_HHI hdr = Ok (a, b, c) /\ len hdr = 8.
Proof.
  unfold pack_HHI. intros Hp.
  destruct (_ && _) eqn:E in Hp; [|discriminate].
  assert (hdr = le_bytes 2 a ++ le_bytes 2 b ++ le_bytes 4 c) as -> by congruence.
  clear Hp.
  repeat (apply andb_prop in E; destruct E as [E ?]).
  assert (Hlen : len (le_bytes 2 a ++ le_bytes 2 b ++ le_bytes 4 c) = 8).
  { unfold len. rewrite !length_app, !length_le_bytes. reflexivity. }
  split; [|exact Hlen].
  unfold unpack_HHI. rewrite Hlen. simpl (8 =? 8).
  cbv iota.
  assert (L2 : forall x, len (le_bytes 2 x) = 2)
    by (intros; unfold len; rewrite length_le_bytes; reflexivity).
  assert (L4 : forall x, len (le_bytes 4 x) = 4)
    by (intros; unfold len; rewrite length_le_bytes; reflexivity).
  rewrite (slice_prefix (le_bytes 2 a) (le_bytes 2 b ++ le_bytes 4 c) 2)
    by (rewrite ?L2; reflexivity).
  rewrite (slice_mid (le_bytes 2 a) (le_bytes 2 b) (le_bytes 4 c) 2 4)
    by (rewrite ?L2; reflexivity).
  replace (le_bytes 2 a ++ le_bytes 2 b ++ le_bytes 4 c)
    with ((le_bytes 2 a ++ le_bytes 2 b) ++ le_bytes 4 c ++ [])
    by (rewrite app_nil_r, app_assoc; reflexivity).
  rewrite (slice_mid (le_bytes 2 a ++ le_bytes 2 b) (le_bytes 4 c) [] 4 8)
    by (rewrite ?len_app, ?L2, ?L4; reflexivity).
  rewrite !le_int_le_bytes; [reflexivity| | |]; simpl; lia.
Qed.

Lemma res_bind_ok {A B} (a : A) (k : A -> res B) : mbind k (Ok a) = k a.
Proof. reflexivity. Qed.

Lemma res_bind_err {A B} (e : exn) (k : A -> res B) : mbind k (Err e) = Err e.
Proof. reflexivity. Qed.

(** ** Parsing a serialized bucket *)

Section BucketFacts.
Context `{DumbCodec}.
Import PostingListBucket.

Lemma find_loop_S fuel b bk beg chunks bc iset :
  find_loop (S fuel) b bk beg chunks bc iset =
  if negb (beg <? len b) then Ok (chunks, bc, iset) else
  '(kw_ln, c_ln, iset_ln) ← unpack_HHI (slice b beg (beg + 8));
  let cbeg := beg + 8 + kw_ln in
  let end_ := cbeg + c_ln + iset_ln in
  let kw := slice b (beg + 8) cbeg in
  if negb (bool_decide (kw = bk))
  then find_loop fuel b bk end_ (chunks ++ [slice b beg end_]) bc iset
  else find_loop fuel b bk end_ chunks
         (slice b cbeg (cbeg + c_ln))
         (dumb_decode (slice b (cbeg + c_ln) end_)).
Proof. reflexivity. Qed.

Lemma find_loop_done fuel b bk beg chunks bc iset :
  len b <= beg -> find_loop fuel b bk beg chunks bc iset = Ok (chunks, bc, iset).
Proof.
  intros Hle. destruct fuel; simpl;
    (destruct (beg <? len b) eqn:E; [apply Z.ltb_lt in E; lia|reflexivity]).
Qed.

Lemma items_loop_S fuel b beg acc :
  items_loop (S fuel) b beg acc =
  if negb (beg <? len b) then Ok acc else
  '(kw_ln, c_ln, iset_ln) ← unpack_HHI (slice b beg (beg + 8));
  let cbeg := beg + 8 + kw_ln in
  let end_ := cbeg + c_ln + iset_ln in
  items_loop fuel b end_
    (acc ++ [(slice b (beg + 8) cbeg, slice b cbeg (cbeg + c_ln),
              slice b (cbeg + c_ln) end_)]).
Proof. reflexivity. Qed.

Lemma items_loop_done fuel b beg acc :
  len b <= beg -> items_loop fuel b beg acc = Ok acc.
Proof.
  intros Hle. destruct fuel; simpl;
    (destruct (beg <? len b) eqn:E; [apply Z.ltb_lt in E; lia|reflexivity]).
Qed.

Lemma iter_loop_S fuel b beg acc :
  iter_loop (S fuel) b beg acc =
  if negb (beg <? len b) then Ok acc else
  '(kw_ln, c_ln, iset_ln) ← unpack_HHI (slice b beg (beg + 8));
  iter_loop fuel b (beg + 8 + kw_ln + c_ln + iset_ln)
    (acc ++ [slice b (beg + 8) (beg + 8 + kw_ln)]).
Proof. reflexivity. Qed.

Lemma iter_loop_done fuel b beg acc :
  len b <= beg -> iter_loop fuel b beg acc = Ok acc.
Proof.
  intros Hle. destruct fuel; simpl;
    (destruct (beg <? len b) eqn:E; [apply Z.ltb_lt in E; lia|reflexivity]).
Qed.

Lemma header_ok (t : triple) :
  wf_triple t ->
  unpack_HHI (header t) = Ok (len (t_kw t), len (t_comment t), len (t_iset t))
  /\ len (header t) = 8.
Proof.
  intros (Hk & Hc & Hi). apply unpack_pack_HHI.
  unfold pack_HHI, header.
  pose proof (len_nonneg (t_kw t)). pose proof (len_nonneg (t_comment t)).
  pose proof (len_nonneg (t_iset t)).
  repeat match goal with
  | |- context [?a <=? ?b] =>
      destruct (Z.leb_spec a b); [|lia]
  | |- context [?a <? ?b] =>
      destruct (Z.ltb_spec a b); [|lia]
  end.
  reflexivity.
Qed.

Lemma len_pack_triple (t : triple) :
  len (pack_triple t) = 8 + len (t_kw t) + len (t_comment t) + len (t_iset t).
Proof.
  unfold pack_triple, header. rewrite !len_app, !len_le_bytes. lia.
Qed.

(** The slices the loops take of a blob whose triple at [beg] is [t]. *)
Lemma slices_of_triple (pre rest : bytes) (t : triple) (beg : Z) :
  beg = len pre ->
  let b := pre ++ pack_triple t ++ rest in
  let cbeg := beg + 8 + len (t_kw t) in
  let end_ := cbeg + len (t_comment t) + len (t_iset t) in
  beg < len b /\
  slice b beg (beg + 8) = header t /\
  slice b (beg + 8) cbeg = t_kw t /\
  slice b cbeg (cbeg + len (t_comment t)) = t_comment t /\
  slice b (cbeg + len (t_comment t)) end_ = t_iset t /\
  slice b beg end_ = pack_triple t /\
  end_ = len (pre ++ pack_triple t).
Proof.
  intros ->. cbv zeta.
  assert (Hh : len (header t) = 8).
  { unfold header. rewrite !len_app, !len_le_bytes. reflexivity. }
  pose proof (len_pack_triple t) as Hp.
  pose proof (len_nonneg (t_kw t)). pose proof (len_nonneg (t_comment t)).
  pose proof (len_nonneg (t_iset t)). pose proof (len_nonneg rest).
  split; [rewrite !len_app; lia|].
  unfold pack_triple in *.
  repeat split.
  - rewrite <- (app_assoc (header t)).
    apply slice_mid; lia.
  - replace (pre ++ (header t ++ t_kw t ++ t_comment t ++ t_iset t) ++ rest)
      with ((pre ++ header t) ++ t_kw t ++ (t_comment t ++ t_iset t ++ rest))
      by (rewrite <- !app_assoc; reflexivity).
    apply slice_mid; rewrite ?len_app; lia.
  - replace (pre ++ (header t ++ t_kw t ++ t_comment t ++ t_iset t) ++ rest)
      with ((pre ++ header t ++ t_kw t) ++ t_comment t ++ (t_iset t ++ rest))
      by (rewrite <- !app_assoc; reflexivity).
    apply slice_mid; rewrite ?len_app; lia.
  - replace (pre ++ (header t ++ t_kw t ++ t_comment t ++ t_iset t) ++ rest)
      with ((pre ++ header t ++ t_kw t ++ t_comment t) ++ t_iset t ++ rest)
      by (rewrite <- !app_assoc; reflexivity).
    apply slice_mid; rewrite ?len_app; lia.
  - apply slice_mid; rewrite ?len_app; lia.
  - rewrite !len_app. lia.
Qed.

Lemma serialize_cons (t : triple) (ts : list triple) :
  serialize (t :: ts) = pack_triple t ++ serialize ts.
Proof. reflexivity. Qed.

Lemma serialize_app (ts1 ts2 : list triple) :
  serialize (ts1 ++ ts2) = serialize ts1 ++ serialize ts2.
Proof. unfold serialize. rewrite map_app, concat_app. reflexivity. Qed.

Lemma length_serialize (ts : list triple) :
  (length ts <= length (serialize ts))%nat.
Proof.
  induction ts as [|t ts IH]; [simpl; lia|].
  rewrite serialize_cons, length_app.
  pose proof (len_pack_triple t) as Hp.
  pose proof (len_nonneg (t_kw t)). pose proof (len_nonneg (t_comment t)).
  pose proof (len_nonneg (t_iset t)).
  unfold len in Hp at 1. simpl length at 1. lia.
Qed.

(** [_find_iset]'s loop on a well-formed blob. *)
Lemma find_loop_serialize (ts : list triple) :
  forall (pre : bytes) (fuel : nat) bk chunks bc iset,
  Forall wf_triple ts -> (length ts <= fuel)%nat ->
  find_loop fuel (pre ++ serialize ts) bk (len pre) chunks bc iset =
  Ok (chunks ++ map pack_triple (kept bk ts),
      (found bk ts (bc, iset)).1, (found bk ts (bc, iset)).2).
Proof.
  induction ts as [|t ts IH]; intros pre fuel bk chunks bc iset Hwf Hfuel.
  - rewrite find_loop_done by (rewrite len_app; unfold len; simpl; lia).
    simpl. rewrite app_nil_r. reflexivity.
  - destruct fuel as [|fuel]; [simpl in Hfuel; lia|].
    apply Forall_cons in Hwf as [Hwt Hwf].
    rewrite find_loop_S, serialize_cons.
    destruct (slices_of_triple pre (serialize ts) t (len pre) eq_refl)
      as (Hlt & Hh & Hk & Hc & Hi & Hp & He).
    apply Z.ltb_lt in Hlt. rewrite Hlt. cbn [negb].
    rewrite Hh. destruct (header_ok t Hwt) as [-> _].
    rewrite res_bind_ok. cbv zeta.
    rewrite Hk, Hc, Hi, Hp, He.
    rewrite (app_assoc pre).
    unfold kept, found. cbn [fold_left]. rewrite filter_cons.
    destruct (decide (t_kw t = bk)) as [Heq|Hne].
    + rewrite (bool_decide_eq_true_2 _ Heq). cbn [negb].
      rewrite decide_False by tauto.
      rewrite IH by (auto; simpl in Hfuel; lia). reflexivity.
    + rewrite (bool_decide_eq_false_2 _ Hne). cbn [negb].
      rewrite decide_True by tauto.
      rewrite IH by (auto; simpl in Hfuel; lia).
      cbn [map]. rewrite <- app_assoc. reflexivity.
Qed.

(** [items(decode=False)] on a well-formed blob gives the triples back. *)
Lemma items_loop_serialize (ts : list triple) :
  forall (pre : bytes) (fuel : nat) acc,
  Forall wf_triple ts -> (length ts <= fuel)%nat ->
  items_loop fuel (pre ++ serialize ts) (len pre) acc = Ok (acc ++ ts).
Proof.
  induction ts as [|t ts IH]; intros pre fuel acc Hwf Hfuel.
  - rewrite items_loop_done by (rewrite len_app; unfold len; simpl; lia).
    rewrite app_nil_r. reflexivity.
  - destruct fuel as [|fuel]; [simpl in Hfuel; lia|].
    apply Forall_cons in Hwf as [Hwt Hwf].
    rewrite items_loop_S, serialize_cons.
    destruct (slices_of_triple pre (serialize ts) t (len pre) eq_refl)
      as (Hlt & Hh & Hk & Hc & Hi & Hp & He).
    apply Z.ltb_lt in Hlt. rewrite Hlt. cbn [negb].
    rewrite Hh. destruct (header_ok t Hwt) as [-> _].
    rewrite res_bind_ok. cbv zeta.
    rewrite Hk, Hc, Hi, He.
    rewrite (app_assoc pre).
    rewrite IH by (auto; simpl in Hfuel; lia).
    rewrite <- app_assoc. destruct t as [[k c] i]. reflexivity.
Qed.

Lemma items_serialize (self : t) (ts : list triple) :
  Forall wf_triple ts -> blob self = serialize ts -> items self = Ok ts.
Proof.
  intros Hwf Hb. unfold items. rewrite Hb.
  apply (items_loop_serialize ts [] _ [] Hwf), length_serialize.
Qed.

Lemma find_iset_serialize (self : t) (ts : list triple) (kw : text) :
  Forall wf_triple ts -> blob self = serialize ts ->
  _find_iset self kw =
  Ok (map pack_triple (kept (to_bytes kw) ts), to_bytes kw,
      (found (to_bytes kw) ts ([], None)).1,
      (found (to_bytes kw) ts ([], None)).2).
Proof.
  intros Hwf Hb. unfold _find_iset. rewrite Hb.
  rewrite (find_loop_serialize ts [] _ _ [] [] None Hwf (length_serialize ts)).
  reflexivity.
Qed.

End BucketFacts.

(** ** The reference codec round-trips *)

Module ListCodecFacts.
Import ListCodec.

Lemma dec_loop_unary (k : nat) :
  forall (rest : bytes) (neg : bool) (n : nat) (acc : list Z),
  dec_loop (repeat x01 k ++ x00 :: rest) (Some (neg, n)) acc =
  dec_loop rest None
    ((if neg then - Z.of_nat (n + k) else Z.of_nat (n + k)) :: acc).
Proof.
  induction k as [|k IH]; intros rest neg n acc.
  - simpl. rewrite Nat.add_0_r. reflexivity.
  - simpl. rewrite IH. replace (S n + k)%nat with (n + S k)%nat by lia.
    reflexivity.
Qed.

Lemma dec_loop_enc_list (l : list Z) :
  forall acc, dec_loop (enc_list l) None acc = Some (rev acc ++ l).
Proof.
  induction l as [|x l IH]; intros acc.
  - simpl. rewrite app_nil_r. reflexivity.
  - cbn [enc_list dec_loop]. rewrite dec_loop_unary, IH.
    cbn [rev]. rewrite <- app_assoc. cbn [app]. do 3 f_equal.
    destruct (Z.ltb_spec x 0).
    + rewrite bool_decide_eq_true_2 by reflexivity. lia.
    + rewrite bool_decide_eq_false_2 by discriminate. lia.
Qed.

Lemma decode_encode (v : option IntSet) : decode (encode v) = v.
Proof.
  destruct v as [s|]; [|reflexivity].
  unfold encode, decode. rewrite dec_loop_enc_list. simpl.
  f_equal. apply list_to_set_elements_L.
Qed.

#[global] Instance codec_laws : DumbCodecLaws.
Proof.
  split.
  - intros c v. apply decode_encode.
  - intros c s.
    change (decode (list_byte_of_string (string_of_list_byte (encode (Some s))))
            = Some s).
    rewrite list_byte_of_string_of_list_byte.
    apply decode_encode.
Qed.

End ListCodecFacts.

(** ** Removing an absent keyword *)

Section RemoveAbsent.
Context `{DumbCodec}.
Import PostingListBucket.

Lemma items_loop_extends (fuel : nat) :
  forall b beg acc ts,
  items_loop fuel b beg acc = Ok ts -> exists new, ts = acc ++ new.
Proof.
  induction fuel as [|fuel IH]; intros b beg acc ts.
  - simpl. destruct (negb _); [|discriminate].
    intros [= <-]. exists []. rewrite app_nil_r. reflexivity.
  - rewrite items_loop_S. destruct (negb _).
    + intros [= <-]. exists []. rewrite app_nil_r. reflexivity.
    + destruct (unpack_HHI _) as [[[kw_ln c_ln] iset_ln]|e]; [|discriminate].
      rewrite res_bind_ok. cbv zeta. intros Hi.
      apply IH in Hi as [new ->]. rewrite <- app_assoc. eauto.
Qed.

Lemma find_loop_absent (fuel : nat) :
  forall b bk beg acc new chunks bc iset,
  items_loop fuel b beg acc = Ok (acc ++ new) ->
  bk ∉ map t_kw new ->
  exists chunks', find_loop fuel b bk beg chunks bc iset = Ok (chunks', bc, iset).
Proof.
  induction fuel as [|fuel IH]; intros b bk beg acc new chunks bc iset.
  - simpl. destruct (negb _); [|discriminate]. eauto.
  - rewrite items_loop_S, find_loop_S. destruct (negb _); [eauto|].
    destruct (unpack_HHI _) as [[[kw_ln c_ln] iset_ln]|e]; [|discriminate].
    rewrite !res_bind_ok. cbv zeta. intros Hi Hnot.
    destruct (items_loop_extends _ _ _ _ _ Hi) as [new' Hnew].
    rewrite <- app_assoc in Hnew. apply app_inv_head in Hnew. subst new.
    rewrite app_assoc in Hi.
    cbn [map app] in Hnot. apply not_elem_of_cons in Hnot as [Hne Hnot].
    unfold t_kw at 1 in Hne. cbn [fst] in Hne.
    rewrite bool_decide_eq_false_2 by congruence. cbn [negb].
    eapply IH; eauto.
Qed.

Lemma find_iset_absent (self : t) (keyword : text) (ts : list triple) :
  items self = Ok ts -> to_bytes keyword ∉ map t_kw ts ->
  exists chunks, _find_iset self keyword = Ok (chunks, to_bytes keyword, [], None).
Proof.
  unfold items, _find_iset. intros Hi Hnot.
  destruct (find_loop_absent _ _ (to_bytes keyword) _ [] ts [] [] None Hi Hnot)
    as [chunks ->].
  rewrite res_bind_ok. eauto.
Qed.

(** C10: [remove] of a keyword that has no triple in the bucket returns
    the pair [(b'', None)] and leaves [self.blob] unchanged byte for byte:
    the chunks are not joined again when nothing was found. *)
Theorem remove_absent_keeps_blob (self : t) (keyword : text) (ts : list triple) :
  items self = Ok ts -> to_bytes keyword ∉ map t_kw ts ->
  remove self keyword = (self, Ok ([], None)).
Proof.
  intros Hi Hnot. unfold remove.
  destruct (find_iset_absent self keyword ts Hi Hnot) as [chunks ->].
  reflexivity.
Qed.

End RemoveAbsent.

Lemma remove_absent_keeps_blob_witness :
  PostingListBucket.remove Samples.hello_bucket (Str "floop")
  = (Samples.hello_bucket, Ok ([], None)).
Proof.
  apply (remove_absent_keeps_blob Samples.hello_bucket (Str "floop")
           [Samples.hello_triple; Samples.world_triple]).
  - vm_compute. reflexivity.
  - apply (bool_decide_unpack _). vm_compute. exact I.
Defined.

(** ** Updates keep the bucket invariant *)

Section BucketInvariant.
Context `{DumbCodecLaws}.
Import PostingListBucket.

Lemma bucket_inv_triples (b : bytes) :
  bucket_inv b <-> exists ts, b = serialize ts /\ triples_inv ts.
Proof.
  unfold bucket_inv, triples_inv. split.
  - intros (ts & ? & ? & ? & ?). eauto 10.
  - intros (ts & ? & ? & ? & ?). eauto 10.
Qed.

Lemma sublist_map {A B} (f : A -> B) (l1 l2 : list A) :
  sublist l1 l2 -> sublist (map f l1) (map f l2).
Proof. induction 1; simpl; constructor; auto. Qed.

Lemma Forall_kept (P : triple -> Prop) bk ts :
  Forall P ts -> Forall P (kept bk ts).
Proof.
  rewrite !Forall_forall. intros HP t Ht.
  apply list_elem_of_filter in Ht as [_ Ht]. auto.
Qed.

Lemma kept_keys bk ts : bk ∉ map t_kw (kept bk ts).
Proof.
  intros Hin. apply list_elem_of_In, in_map_iff in Hin as (t & Hk & Ht).
  apply list_elem_of_In, list_elem_of_filter in Ht as [Hne _]. auto.
Qed.

Lemma triples_inv_kept bk ts : triples_inv ts -> triples_inv (kept bk ts).
Proof.
  intros (Hwf & Hnd & Hne). repeat split.
  - apply Forall_kept, Hwf.
  - eapply sublist_NoDup; [exact Hnd|].
    apply sublist_map, sublist_filter.
  - apply Forall_kept, Hne.
Qed.

Lemma triples_inv_snoc bk ts (t : triple) :
  triples_inv ts -> t_kw t = bk -> wf_triple t ->
  ~ (t_comment t = [] /\ IntSetOps.opt_truthy (dumb_decode (t_iset t)) = false) ->
  triples_inv (kept bk ts ++ [t]).
Proof.
  intros Hinv Hk Hwt Hnt.
  destruct (triples_inv_kept bk ts Hinv) as (Hwf & Hnd & Hne).
  repeat split.
  - apply Forall_app. split; [exact Hwf|]. constructor; [exact Hwt|constructor].
  - rewrite map_app. apply NoDup_app. split; [exact Hnd|]. split.
    + intros k Hin Hin'. cbn [map] in Hin'.
      apply list_elem_of_singleton in Hin'. subst k.
      rewrite Hk in Hin. exact (kept_keys bk ts Hin).
    + cbn [map]. apply NoDup_singleton.
  - apply Forall_app. split; [exact Hne|]. constructor; [exact Hnt|constructor].
Qed.

Lemma pack_HHI_inv a b c hdr :
  pack_HHI a b c = Ok hdr ->
  hdr = le_bytes 2 a ++ le_bytes 2 b ++ le_bytes 4 c /\
  a < 65536 /\ b < 65536 /\ c < 4294967296.
Proof.
  unfold pack_HHI. destruct (_ && _) eqn:E; [|discriminate].
  intros [= <-]. split; [reflexivity|].
  repeat (apply andb_prop in E; destruct E as [E ?]). lia.
Qed.

(** What the tail of [set] does once the chunks, the keyword bytes and
    the comment are known. *)
Lemma set_tail_inv (self : t) ts bk (bc : bytes) (iset : option IntSet) self' r :
  triples_inv ts ->
  (if bytes_truthy bc || IntSetOps.opt_truthy iset then
     match pack_HHI (len bk) (len bc)
             (len (dumb_encode_bin (compress self) iset)) with
     | Err e => (self, Err e)
     | Ok hdr =>
         (with_blob self
            (concat (map pack_triple (kept bk ts)
                     ++ [hdr; bk; bc; dumb_encode_bin (compress self) iset])),
          Ok tt)
     end
   else (with_blob self (concat (map pack_triple (kept bk ts))), Ok tt))
  = (self', r) ->
  self' = self \/ exists ts', blob self' = serialize ts' /\ triples_inv ts'.
Proof.
  intros Hinv.
  destruct (bytes_truthy bc || IntSetOps.opt_truthy iset) eqn:Htruthy.
  - destruct (pack_HHI _ _ _) as [hdr|e] eqn:Hp; intros [= <- <-]; [|auto].
    right. apply pack_HHI_inv in Hp as (-> & Hk & Hc & Hi).
    set (t := (bk, bc, dumb_encode_bin (compress self) iset) : triple).
    exists (kept bk ts ++ [t]). split.
    + cbn [blob with_blob]. rewrite serialize_app. unfold serialize.
      rewrite concat_app. cbn [map concat]. unfold pack_triple, header.
      rewrite !app_nil_r, <- !app_assoc. reflexivity.
    + apply triples_inv_snoc; auto.
      * repeat split; assumption.
      * intros [Hc0 Hi0]. unfold t, t_comment, t_iset in Hc0, Hi0.
        cbn [fst snd] in Hc0, Hi0.
        rewrite dumb_decode_encode_bin in Hi0.
        unfold bytes_truthy in Htruthy. subst bc.
        rewrite bool_decide_eq_true_2 in Htruthy by reflexivity.
        simpl in Htruthy. congruence.
  - intros [= <- <-]. right. exists (kept bk ts). split; [reflexivity|].
    apply triples_inv_kept, Hinv.
Qed.

Lemma set_inv (self : t) ts kw iset comment bko cho :
  blob self = serialize ts -> triples_inv ts ->
  (bko = None /\ cho = None) \/
  (bko = Some (to_bytes kw) /\
   cho = Some (map pack_triple (kept (to_bytes kw) ts))) ->
  bucket_inv (blob (set self kw iset comment bko cho).1).
Proof.
  intros Hb Hinv Hargs.
  assert (Hwf : Forall wf_triple ts) by apply Hinv.
  pose proof (find_iset_serialize self ts kw Hwf Hb) as Hfind.
  apply bucket_inv_triples.
  destruct (set self kw iset comment bko cho) as [self' r] eqn:Hset.
  cbn [fst]. unfold set in Hset. rewrite Hfind in Hset.
  rewrite !res_bind_ok in Hset.
  assert (Hdone : self' = self \/
            exists ts', blob self' = serialize ts' /\ triples_inv ts').
  { destruct Hargs as [[-> ->]|[-> ->]].
    - eapply set_tail_inv; [exact Hinv|exact Hset].
    - destruct (bytes_truthy (to_bytes kw) && _).
      + eapply set_tail_inv; [exact Hinv|exact Hset].
      + eapply set_tail_inv; [exact Hinv|exact Hset]. }
  destruct Hdone as [->|Hts]; eauto.
Qed.

(** C3: starting from a bucket whose blob satisfies the invariant,
    [set], [add], [set_comment] and [remove] (whether they return or
    raise) leave a blob that satisfies it again: no two triples share a
    keyword and no triple has both an empty IntSet and an empty
    comment. *)
Theorem bucket_updates_keep_inv (self : t) :
  bucket_inv (blob self) ->
  (forall kw iset comment,
     bucket_inv (blob (set self kw iset comment None None).1)) /\
  (forall kw ints, bucket_inv (blob (add self kw ints).1)) /\
  (forall kw comment, bucket_inv (blob (set_comment self kw comment).1)) /\
  (forall kw, bucket_inv (blob (remove self kw).1)).
Proof.
  intros Hb. pose proof Hb as Hb'.
  apply bucket_inv_triples in Hb' as (ts & Hblob & Hinv).
  assert (Hwf : Forall wf_triple ts) by apply Hinv.
  repeat split.
  - intros kw iset comment. eapply set_inv; eauto.
  - intros kw ints. unfold add.
    rewrite (find_iset_serialize self ts kw Hwf Hblob).
    eapply set_inv; eauto.
  - intros kw comment. unfold set_comment.
    rewrite (find_iset_serialize self ts kw Hwf Hblob).
    eapply set_inv; eauto.
  - intros kw. unfold remove.
    rewrite (find_iset_serialize self ts kw Hwf Hblob).
    destruct (found _ _ _).2; cbn [fst]; [|exact Hb].
    apply bucket_inv_triples. exists (kept (to_bytes kw) ts).
    split; [reflexivity|]. apply triples_inv_kept, Hinv.
Qed.

End BucketInvariant.

Lemma hello_bucket_inv :
  bucket_inv (PostingListBucket.blob Samples.hello_bucket).
Proof.
  exists [Samples.hello_triple; Samples.world_triple].
  split; [|split; [reflexivity|split]].
  - repeat constructor; vm_compute; reflexivity.
  - apply (bool_decide_unpack _). vm_compute. exact I.
  - repeat constructor; intros [Hc Hi]; vm_compute in Hc, Hi; discriminate.
Qed.

Lemma bucket_updates_keep_inv_witness :
  bucket_inv
    (PostingListBucket.blob
       (PostingListBucket.add Samples.hello_bucket (Str "hello") [5]).1).
Proof.
  apply (bucket_updates_keep_inv Samples.hello_bucket hello_bucket_inv).
Defined.

(** The bucket checks of the module's own test block. *)
Example bucket_test_block :
  let pl := PostingListBucket.new [] in
  let pl1 := (PostingListBucket.add pl (Str "hello") [1; 2; 3; 4]).1 in
  let pl2 := (PostingListBucket.add pl1 (Str "hello") [5]).1 in
  let pl3 := (PostingListBucket.remove pl2 (Str "hello")).1 in
  PostingListBucket.get pl1 (Str "hello") = Ok (Some {[1; 2; 3; 4]}) /\
  PostingListBucket.get pl1 (Str "floop") = Ok None /\
  PostingListBucket.get pl2 (Str "hello") = Ok (Some {[1; 2; 3; 4; 5]}) /\
  PostingListBucket.get pl3 (Str "hello") = Ok None /\
  PostingListBucket.blob pl3 = [].
Proof. vm_compute. repeat split; reflexivity. Qed.

(** ** Keyword placement *)

Section PlacementFacts.
Context `{DumbCodec} `{TermMagic}.
Context {store : Type} `{RecordStore store}.
Import SearchEngine.

Lemma first_empty_Some (r : store) (n : nat) :
  forall start idx,
  first_empty r n start = Some idx <->
  start <= idx < start + Z.of_nat n /\ rs_contains r idx = false /\
  forall j, start <= j < idx -> rs_contains r j = true.
Proof.
  induction n as [|n IH]; intros start idx.
  - simpl. split; [discriminate|]. intros [? _]. lia.
  - cbn [first_empty]. destruct (rs_contains r start) eqn:Hc; cbn [negb].
    + rewrite IH. split.
      * intros (Hr & Hf & Hall). split; [lia|]. split; [exact Hf|].
        intros j Hj. destruct (decide (j = start)) as [->|Hne]; [exact Hc|].
        apply Hall. lia.
      * intros (Hr & Hf & Hall).
        assert (idx <> start) by congruence.
        split; [lia|]. split; [exact Hf|]. intros j Hj. apply Hall. lia.
    + split.
      * intros [= <-]. split; [lia|]. split; [exact Hc|]. intros j Hj. lia.
      * intros (Hr & Hf & Hall).
        destruct (decide (idx = start)) as [->|Hne]; [reflexivity|].
        rewrite Hall in Hc by lia. discriminate.
Qed.

Lemma first_empty_None (r : store) (n : nat) :
  forall start,
  first_empty r n start = None <->
  forall j, start <= j < start + Z.of_nat n -> rs_contains r j = true.
Proof.
  induction n as [|n IH]; intros start.
  - simpl. split; [intros _ j Hj; lia|reflexivity].
  - cbn [first_empty]. destruct (rs_contains r start) eqn:Hc; cbn [negb].
    + rewrite IH. split.
      * intros Hall j Hj.
        destruct (decide (j = start)) as [->|Hne]; [exact Hc|].
        apply Hall. lia.
      * intros Hall j Hj. apply Hall. lia.
    + split; [discriminate|]. intros Hall.
      rewrite Hall in Hc by lia. discriminate.
Qed.

Lemma empty_l1_idx_first (self : t store) (idx : Z) :
  first_unoccupied self idx -> _empty_l1_idx self = Ok idx.
Proof.
  intros (Hr & Hf & Hall). unfold _empty_l1_idx.
  replace (first_empty _ _ _) with (Some idx); [reflexivity|].
  symmetry. apply first_empty_Some. repeat split; auto; lia.
Qed.

Lemma empty_l1_idx_full (self : t store) :
  l1_full self -> _empty_l1_idx self = Err TypeError.
Proof.
  intros Hfull. unfold _empty_l1_idx.
  replace (first_empty _ _ _) with (@None Z); [reflexivity|].
  symmetry. apply first_empty_None. intros j Hj. apply Hfull. lia.
Qed.

(** C2: [keyword_index(kw, prefer_l1, create)], where [prefer_l1]
    defaults to true exactly when [kw] starts with [in:].  (1) When the
    hashed-key map holds [kw] it returns the stored index.  (2) Otherwise,
    with [prefer_l1] and [create], it returns the first unoccupied record
    index of the L1 region, after [set_key(kw, idx)] and writing an empty
    bucket there.  (3) Otherwise it returns [l2_begin] plus the first four
    hash bytes, read as a little-endian u32, modulo [l2_buckets]. *)
Theorem keyword_index_placement (self : t store) (kw : string)
    (prefer_l1 : option bool) (create : bool) :
  len (rs_hash_key kw) = 16 -> l2_buckets (config self) <> 0 ->
  let prefer := default (PyStr.startswith kw "in:") prefer_l1 in
  (forall pos idx,
     rs_keys_get (records self) (rs_hash_key kw) = Some (pos, idx) ->
     keyword_index kw prefer_l1 create self = (self, Ok idx)) /\
  (rs_keys_get (records self) (rs_hash_key kw) = None ->
   prefer = true -> create = true ->
   forall idx, first_unoccupied self idx ->
     keyword_index kw prefer_l1 create self = (claimed self kw idx, Ok idx)) /\
  (rs_keys_get (records self) (rs_hash_key kw) = None ->
   prefer && create = false ->
   keyword_index kw prefer_l1 create self =
   (self, Ok (l2_begin self
              + le_int (take 4 (rs_hash_key kw)) mod l2_buckets (config self)))).
Proof.
  intros Hlen Hl2 prefer.
  assert (Hprefer : match prefer_l1 with
                    | Some b => b
                    | None => if PyStr.startswith kw "in:" then true else false
                    end = prefer).
  { unfold prefer. destruct prefer_l1; [reflexivity|].
    simpl. destruct (PyStr.startswith _ _); reflexivity. }
  repeat split.
  - intros pos idx Hk. unfold keyword_index. rewrite Hk. reflexivity.
  - intros Hk Hp -> idx Hfirst. unfold keyword_index.
    rewrite Hk, Hprefer, Hp. cbn [andb].
    rewrite (empty_l1_idx_first self idx Hfirst). reflexivity.
  - intros Hk Hpc. unfold keyword_index. rewrite Hk, Hprefer, Hpc.
    assert (Hs : slice (rs_hash_key kw) 0 4 = take 4 (rs_hash_key kw)).
    { unfold slice. simpl. rewrite drop_0. reflexivity. }
    unfold unpack_I. rewrite Hs.
    assert (Hl4 : len (take 4 (rs_hash_key kw)) = 4).
    { unfold len in *. rewrite length_take. lia. }
    rewrite Hl4. simpl (4 =? 4).
    destruct (Z.eqb_spec (l2_buckets (config self)) 0); [contradiction|].
    cbv iota. do 2 f_equal. lia.
Qed.

(** No fallback when L1 is exhausted: with [prefer_l1] and [create], a
    keyword that is not in the hashed-key map and finds every L1 record
    occupied makes [keyword_index] raise, through [raise None]. *)
Lemma keyword_index_l1_full (self : t store) (kw : string)
    (prefer_l1 : option bool) :
  rs_keys_get (records self) (rs_hash_key kw) = None ->
  default (PyStr.startswith kw "in:") prefer_l1 = true ->
  l1_full self ->
  keyword_index kw prefer_l1 true self = (self, Err TypeError).
Proof.
  intros Hk Hp Hfull. unfold keyword_index. rewrite Hk.
  replace (match prefer_l1 with Some b => b | None => _ end) with true.
  - cbn [andb]. rewrite (empty_l1_idx_full self Hfull). reflexivity.
  - destruct prefer_l1; simpl in *; [congruence|].
    rewrite Hp. reflexivity.
Qed.

End PlacementFacts.

Lemma MapStore_hash_len (kw : string) :
  len (rs_hash_key (store := MapStore.t) kw) = 16.
Proof.
  unfold len. cbn [rs_hash_key MapStore.store]. unfold MapStore.hash_key.
  rewrite length_take, length_app, repeat_length. lia.
Qed.

Lemma small_l2_buckets :
  l2_buckets (SearchEngine.config SampleEngines.se_one) <> 0.
Proof. vm_compute. discriminate. Qed.

Lemma keyword_index_placement_witness :
  SearchEngine.keyword_index "in:inbox" None true SampleEngines.se_one
    = (SampleEngines.se_one, Ok 2001) /\
  SearchEngine.keyword_index "in:new" None true SampleEngines.se_one
    = (claimed SampleEngines.se_one "in:new" 2002, Ok 2002) /\
  SearchEngine.keyword_index "world" None true SampleEngines.se_one
    = (SampleEngines.se_one, Ok (2003 + 1819438967 mod 8)).
Proof.
  split; [|split].
  - apply (keyword_index_placement SampleEngines.se_one "in:inbox" None true
             (MapStore_hash_len _) small_l2_buckets) with (pos := 0).
    vm_compute. reflexivity.
  - apply (keyword_index_placement SampleEngines.se_one "in:new" None true
             (MapStore_hash_len _) small_l2_buckets); try reflexivity.
    split; [vm_compute; split; [discriminate|reflexivity]|].
    split; [vm_compute; reflexivity|].
    intros j Hj. change (2001 <= j < 2002) in Hj.
    assert (j = 2001) as -> by lia.
    vm_compute. reflexivity.
  - apply (keyword_index_placement SampleEngines.se_one "world" None true
             (MapStore_hash_len _) small_l2_buckets); vm_compute; reflexivity.
Defined.

(** C8, at a state whose two L1 records are both occupied: a new tag
    asked for with [create] gets the [TypeError] of [raise None], not a
    [StorageError], and the engine is left as it was. *)
Theorem keyword_index_exhausted_raises_TypeError :
  SearchEngine.keyword_index "in:bjarni" (Some true) true SampleEngines.se_full
    = (SampleEngines.se_full, Err TypeError) /\
  l1_full SampleEngines.se_full /\
  rs_keys_get (SearchEngine.records SampleEngines.se_full)
    (rs_hash_key "in:bjarni") = None /\
  snd (SearchEngine.keyword_index "in:bjarni" (Some true) true
         SampleEngines.se_full) <> Err StorageError.
Proof.
  split; [vm_compute; reflexivity|].
  split; [|split; [vm_compute; reflexivity|vm_compute; discriminate]].
  intros j Hj. change (2001 <= j < 2003) in Hj.
  assert (j = 2001 \/ j = 2002) as [-> | ->] by lia;
    vm_compute; reflexivity.
Qed.

(** ** The bucket loops never run out of fuel *)

Section Fuel.
Context `{DumbCodec}.
Import PostingListBucket.

Lemma unpack_HHI_nonneg (buf : bytes) (a b c : Z) :
  unpack_HHI buf = Ok (a, b, c) -> 0 <= a /\ 0 <= b /\ 0 <= c.
Proof.
  unfold unpack_HHI. destruct (len buf =? 8); [|discriminate].
  intros [= <- <- <-]. auto using le_int_nonneg.
Qed.

Lemma find_loop_error (fuel : nat) :
  forall b bk beg chunks bc iset e,
  len b - beg <= Z.of_nat fuel ->
  find_loop fuel b bk beg chunks bc iset = Err e -> e = StructError.
Proof.
  induction fuel as [|fuel IH]; intros b bk beg chunks bc iset e Hfuel.
  - simpl. destruct (Z.ltb_spec beg (len b)); cbn [negb]; [lia|discriminate].
  - rewrite find_loop_S.
    destruct (Z.ltb_spec beg (len b)); cbn [negb]; [|discriminate].
    destruct (unpack_HHI _) as [[[kw_ln c_ln] iset_ln]|e'] eqn:Hu.
    + apply unpack_HHI_nonneg in Hu as (? & ? & ?).
      rewrite res_bind_ok. cbv zeta.
      destruct (negb _); apply IH; lia.
    + unfold unpack_HHI in Hu. destruct (_ =? 8); [discriminate|].
      rewrite res_bind_err. congruence.
Qed.

(** [_find_iset] can only fail with [struct.error]. *)
Lemma find_iset_error (self : t) (kw : text) (e : exn) :
  _find_iset self kw = Err e -> e = StructError.
Proof.
  unfold _find_iset.
  destruct (find_loop _ _ _ _ _ _ _) as [[[chunks bc] iset]|e'] eqn:Hf.
  - rewrite res_bind_ok. discriminate.
  - rewrite res_bind_err. intros [= <-].
    eapply find_loop_error; [|exact Hf]. unfold len. lia.
Qed.

Lemma get_error (self : t) (kw : text) (e : exn) :
  get self kw = Err e -> e = StructError.
Proof.
  unfold get. destruct (_find_iset self kw) as [[[[? ?] ?] ?]|e'] eqn:Hf.
  - rewrite res_bind_ok. discriminate.
  - rewrite res_bind_err. intros [= <-]. eapply find_iset_error, Hf.
Qed.

End Fuel.

(** ** Subscript lookup *)

Section GetItem.
Context `{DumbCodec} `{TermMagic}.
Context {store : Type} `{RecordStore store}.
Import SearchEngine.

Lemma keyword_index_read (self : t store) (kw : string) (prefer_l1 : option bool) :
  (keyword_index kw prefer_l1 false self).1 = self.
Proof.
  unfold keyword_index.
  destruct (rs_keys_get _ _); [reflexivity|].
  rewrite andb_false_r.
  destruct (unpack_I _); [|reflexivity].
  destruct (_ =? 0); reflexivity.
Qed.

Lemma keyword_index_read_error (self : t store) (kw : string)
    (prefer_l1 : option bool) (e : exn) :
  (keyword_index kw prefer_l1 false self).2 = Err e ->
  e = StructError \/ e = ZeroDivisionError.
Proof.
  unfold keyword_index.
  destruct (rs_keys_get _ _); [discriminate|].
  rewrite andb_false_r. unfold unpack_I.
  destruct (_ =? 4); [|cbn; intros [= <-]; auto].
  destruct (_ =? 0); cbn; [intros [= <-]; auto|discriminate].
Qed.

Lemma getitem_unfold (self : t store) (keyword : string) :
  __getitem__ keyword self =
  (self,
   idx ← (keyword_index keyword None false self).2;
   b ← bucket_blob (rs_get (records self) idx);
   iset ← PostingListBucket.get (PostingListBucket.new b) (Str keyword);
   Ok (IntSetOps.or_empty iset)).
Proof.
  unfold __getitem__, mbind, M_bind, bind.
  pose proof (keyword_index_read self keyword None) as Hr.
  destruct (keyword_index keyword None false self) as [self' [idx|e]];
    cbn [fst snd] in *; subst self'; reflexivity.
Qed.

(** C9: [engine[kw]] always gives an IntSet.  The lookup leaves the
    engine as it is and never raises [KeyError]; when the resolved bucket
    record is absent, or its triples do not hold [kw], the result is the
    empty IntSet.  (The result type has no [None]: a lookup that finds
    [None] or an empty set returns a fresh [IntSet()].) *)
Theorem getitem_gives_intset (self : t store) (kw : string) :
  (__getitem__ kw self).1 = self /\
  (__getitem__ kw self).2 <> Err KeyError /\
  (forall idx,
     (keyword_index kw None false self).2 = Ok idx ->
     rs_get (records self) idx = None ->
     (__getitem__ kw self).2 = Ok ∅) /\
  (forall idx b ts,
     (keyword_index kw None false self).2 = Ok idx ->
     rs_get (records self) idx = Some (RBytes b) ->
     PostingListBucket.items (PostingListBucket.new b) = Ok ts ->
     utf8 kw ∉ map t_kw ts ->
     (__getitem__ kw self).2 = Ok ∅).
Proof.
  rewrite getitem_unfold. cbn [fst snd]. split; [reflexivity|].
  split; [|split].
  - destruct (keyword_index kw None false self).2 as [idx|e] eqn:Hk.
    + rewrite res_bind_ok.
      destruct (bucket_blob (rs_get (records self) idx)) as [b|e] eqn:Hb.
      * rewrite res_bind_ok.
        destruct (PostingListBucket.get (PostingListBucket.new b) (Str kw))
          as [iset|e] eqn:Hg; [discriminate|].
        apply get_error in Hg as ->. discriminate.
      * rewrite res_bind_err.
        destruct (rs_get (records self) idx) as [[]|]; cbn in Hb;
          congruence.
    + rewrite res_bind_err.
      apply keyword_index_read_error in Hk as [-> | ->]; discriminate.
  - intros idx -> Hget. rewrite res_bind_ok, Hget. reflexivity.
  - intros idx b ts -> Hget Hitems Hnot. rewrite res_bind_ok, Hget.
    cbn [bucket_blob]. rewrite res_bind_ok.
    unfold PostingListBucket.get.
    destruct (find_iset_absent _ (Str kw) ts Hitems Hnot) as [chunks ->].
    reflexivity.
Qed.

End GetItem.

Lemma getitem_gives_intset_witness :
  SearchEngine.__getitem__ "notfound" SampleEngines.se0
  = (SampleEngines.se0, Ok ∅).
Proof.
  pose proof (getitem_gives_intset SampleEngines.se0 "notfound")
    as (Hself & _ & Habsent & _).
  specialize (Habsent (2003 + 1718906734 mod 8)
                ltac:(vm_compute; reflexivity) ltac:(vm_compute; reflexivity)).
  destruct (SearchEngine.__getitem__ "notfound" SampleEngines.se0) as [s r].
  cbn [fst snd] in Hself, Habsent. rewrite Hself, Habsent. reflexivity.
Defined.

(** ** What the engine methods leave alone *)

Section Frames.
Context `{DumbCodec} `{TermMagic}.
Context {json : Type} `{JsonCodec json}.
Context {store : Type} `{RecordStore store}.
Import SearchEngine.

Lemma preserves_ret {A X} (f : t store -> X) (a : A) : preserves f (mret a).
Proof. intros self. reflexivity. Qed.

Lemma preserves_raise {A X} (f : t store -> X) (e : exn) :
  preserves f (raise (A := A) e).
Proof. intros self. reflexivity. Qed.

Lemma preserves_lift {A X} (f : t store -> X) (r : res A) :
  preserves f (lift r).
Proof. intros self. reflexivity. Qed.

Lemma preserves_read {A X} (f : t store -> X) (g : t store -> res A) :
  preserves f (read g).
Proof. intros self. reflexivity. Qed.

Lemma preserves_bind {A B X} (f : t store -> X) (m : M A) (k : A -> M B) :
  preserves f m -> (forall a, preserves f (k a)) -> preserves f (mbind k m).
Proof.
  intros Hm Hk self. unfold mbind, M_bind, bind.
  specialize (Hm self). destruct (m self) as [self' [a|e]]; cbn [fst] in *.
  - rewrite Hk. exact Hm.
  - exact Hm.
Qed.

Lemma preserves_records_set {X} (f : t store -> X) idx v :
  (forall self r, f (with_records self r) = f self) ->
  preserves f (records_set idx v).
Proof. intros Hf self. apply Hf. Qed.

Lemma meta_with_records (self : t store) r :
  meta (with_records self r) = meta self.
Proof. reflexivity. Qed.

Lemma meta_keyword_index kw prefer_l1 create :
  preserves (store := store) meta (keyword_index kw prefer_l1 create).
Proof.
  intros self. unfold keyword_index.
  destruct (rs_keys_get _ _); [reflexivity|].
  destruct (_ && _).
  - destruct (_empty_l1_idx self); reflexivity.
  - destruct (unpack_I _); [|reflexivity].
    destruct (_ =? 0); reflexivity.
Qed.

Lemma meta_prep_ids tag_ns kw_list extra_kws r_ids :
  forall st, preserves (store := store) meta (prep_ids tag_ns kw_list extra_kws r_ids st).
Proof.
  induction r_ids as [|r_id r_ids IH]; intros st self; [reflexivity|].
  cbn [prep_ids].
  destruct (prep_kws _ _ _ _).
  - rewrite IH. destruct (_ <=? _); reflexivity.
  - destruct (_ <=? _); reflexivity.
Qed.

Lemma meta_prep_results_loop tag_ns extra_kws results :
  forall st, preserves (store := store) meta (prep_results_loop tag_ns extra_kws results st).
Proof.
  induction results as [|[r_ids kw_list] results IH]; intros st.
  - apply preserves_ret.
  - cbn [prep_results_loop]. apply preserves_bind; [apply meta_prep_ids|].
    intros a. apply IH.
Qed.

Lemma meta_index_keywords prefer_l1 create ks :
  preserves (store := store) meta (index_keywords prefer_l1 create ks).
Proof.
  induction ks as [|k ks IH]; [apply preserves_ret|].
  cbn [index_keywords].
  apply preserves_bind; [apply meta_keyword_index|]. intros idx.
  apply preserves_bind; [exact IH|]. intros rest. apply preserves_ret.
Qed.

Lemma meta_prep_results do_touch results prefer_l1 tag_ns create :
  preserves (store := store) meta (_prep_results do_touch results prefer_l1 tag_ns false create).
Proof.
  unfold _prep_results.
  apply preserves_bind; [apply preserves_ret|]. intros extra.
  apply preserves_bind; [apply meta_prep_results_loop|]. intros [keywords hits].
  apply preserves_bind; [apply meta_index_keywords|]. intros l.
  apply preserves_ret.
Qed.

Lemma meta_add_one keywords x : preserves (store := store) meta (add_one keywords x).
Proof.
  intros self. unfold add_one. destruct x as [idx kw].
  destruct (bucket_blob _); [|reflexivity].
  destruct (dict_get _ _); [|reflexivity].
  destruct (PostingListBucket.add _ _ _) as [plb' [[]|e]]; reflexivity.
Qed.

Lemma meta_add_loop keywords l : preserves (store := store) meta (add_loop keywords l).
Proof.
  induction l as [|x l IH]; [apply preserves_ret|].
  cbn [add_loop]. apply preserves_bind; [apply meta_add_one|].
  intros _. exact IH.
Qed.

Lemma meta_add_results_gen do_touch results prefer_l1 tag_ns :
  preserves (store := store) meta (add_results_gen do_touch results prefer_l1 tag_ns false).
Proof.
  unfold add_results_gen.
  apply preserves_bind; [apply meta_prep_results|].
  intros [[kw_idx_list keywords] hits].
  apply preserves_bind; [apply meta_add_loop|]. intros _.
  apply preserves_bind; [intros self; reflexivity|]. intros _.
  apply preserves_ret.
Qed.

Lemma meta_index_tags op tags : preserves (store := store) meta (index_tags op tags).
Proof.
  induction tags as [|tag tags IH]; [apply preserves_ret|].
  cbn [index_tags].
  apply preserves_bind; [apply meta_keyword_index|]. intros idx.
  apply preserves_bind; [exact IH|]. intros rest. apply preserves_ret.
Qed.

Lemma meta_op_kwi tag_ns op kw : preserves (store := store) meta (_op_kwi tag_ns op kw).
Proof.
  unfold _op_kwi.
  apply preserves_bind; [apply preserves_lift|]. intros op'.
  destruct (_ || _).
  - destruct (bool_decide _); [|apply preserves_ret].
    apply preserves_bind; [apply preserves_read|]. intros tags.
    apply meta_index_tags.
  - apply preserves_bind; [apply preserves_lift|]. intros kw'.
    apply preserves_bind; [apply meta_keyword_index|]. intros idx.
    apply preserves_ret.
Qed.

Lemma meta_expand_ops tag_ns l : preserves (store := store) meta (expand_ops tag_ns l).
Proof.
  induction l as [|[op kw] l IH]; [apply preserves_ret|].
  cbn [expand_ops].
  apply preserves_bind; [apply meta_op_kwi|]. intros l1.
  apply preserves_bind; [exact IH|]. intros l2. apply preserves_ret.
Qed.

Lemma meta_mutate_one (mset : scope json) x acc :
  preserves (store := store) meta (mutate_one mset x acc).
Proof.
  intros self. unfold mutate_one. destruct x as [[op kw] idx].
  destruct (bucket_blob _); [|reflexivity].
  destruct (PostingListBucket.get_with_comment _ _) as [[comment iset]|];
    [|reflexivity].
  destruct mset as [mset|d].
  - destruct (apply_fn _ _); [|reflexivity].
    destruct (negb _); [|reflexivity].
    destruct (PostingListBucket.set _ _ _ _ _ _) as [plb' [[]|e]]; reflexivity.
  - destruct (PostingListBucket.set_comment _ _ _) as [plb' [[]|e]];
      reflexivity.
Qed.

Lemma meta_mutate_ops (mset : scope json) l :
  forall acc, preserves (store := store) meta (mutate_ops mset l acc).
Proof.
  induction l as [|x l IH]; intros acc; [apply preserves_ret|].
  cbn [mutate_ops]. apply preserves_bind; [apply meta_mutate_one|].
  intros acc'. apply IH.
Qed.

Lemma meta_mutate_loop tag_ns (ml : list (scope json * list (opval * string))) :
  forall acc, preserves (store := store) meta (mutate_loop tag_ns ml acc).
Proof.
  induction ml as [|[mset l] ml IH]; intros acc; [apply preserves_ret|].
  cbn [mutate_loop]. apply preserves_bind; [apply meta_expand_ops|].
  intros l'. apply preserves_bind; [apply meta_mutate_ops|].
  intros acc'. apply IH.
Qed.

Lemma meta_history {A} (m : M (store := store) A) :
  preserves meta m -> preserves history m.
Proof. intros Hm self. specialize (Hm self). unfold meta in Hm. congruence. Qed.

Lemma meta_touch_given ids v ts now :
  preserves (store := store) meta (touch ids (Some v) ts now).
Proof.
  unfold touch.
  apply preserves_bind; [apply preserves_ret|]. intros version.
  apply preserves_bind.
  { destruct (bool_decide _); [apply preserves_raise|apply preserves_ret]. }
  intros _. destruct ids as [iset|]; [|apply preserves_ret].
  apply preserves_bind; [apply meta_add_results_gen|]. intros _.
  apply preserves_ret.
Qed.

(** Without a version, [touch] first adds one to the counter and stores
    the status record, then goes on as with that version. *)
Lemma touch_fresh ids ts now (self : t store) :
  touch ids None ts now self =
  touch ids (Some (get_version self + 1)) ts now (bump_version self).
Proof. reflexivity. Qed.

Lemma touch_version ids version ts now (self : t store) :
  get_version (touch ids version ts now self).1 =
  match version with
  | Some _ => get_version self
  | None => get_version self + 1
  end.
Proof.
  destruct version as [v|].
  - pose proof (meta_touch_given ids v ts now self) as Hm.
    unfold meta, get_version in *. congruence.
  - rewrite touch_fresh.
    pose proof (meta_touch_given ids (get_version self + 1) ts now
                  (bump_version self)) as Hm.
    unfold meta in Hm. unfold get_version at 1.
    replace (history _) with (history (bump_version self)) by congruence.
    reflexivity.
Qed.

End Frames.

(** ** History slots and the version counter *)

Section Versions.
Context `{DumbCodec} `{TermMagic}.
Context {json : Type} `{JsonCodec json}.
Context {store : Type} `{RecordStore store}.
Import SearchEngine.

Lemma allocate_history_slot_spec (self : t store) :
  exists self' pos ver,
    _allocate_history_slot self = (self', Ok (pos, ver)) /\
    pos = (let next := default 2000 (h_pos (history self)) + 1 in
           if 2000 <? next then 1001 else next) /\
    ver = get_version self + 1 /\
    h_pos (history self') = Some pos /\
    get_version self' = ver.
Proof.
  eexists _, _, _. split; [reflexivity|].
  unfold IDX_HISTORY_END, IDX_HISTORY_START, get_version. cbn.
  rewrite Z.gtb_ltb. auto.
Qed.

Lemma mutate_version (ml : list (scope json * list (opval * string)))
    record_history tag_ns rnd now now' (self self' : t store) r :
  mutate ml record_history tag_ns rnd now now' self = (self', Ok r) ->
  get_version self' = get_version self + 1.
Proof.
  unfold mutate, mbind, M_bind, bind.
  pose proof (meta_mutate_loop tag_ns ml (mkAcc ∅ [] 0) self) as Hloop.
  destruct (mutate_loop _ _ _ self) as [s1 [acc|e]]; [|discriminate].
  cbn [fst] in Hloop.
  assert (Hv1 : get_version s1 = get_version self)
    by (unfold get_version, meta in *; congruence).
  destruct (match record_history with Some _ => _ | None => _ end).
  - destruct (allocate_history_slot_spec s1)
      as (s2 & pos & ver & -> & _ & Hver & _ & Hv2).
    unfold records_set.
    pose proof (touch_version (Some (acc_cset_all acc)) (Some ver) None now'
      (with_records s2 (rs_set (records s2) pos
         (REntry (mkEntry (PyStr.hex 3 pos +:+ "-" +:+ PyStr.hex 0 rnd) now
            (default ""%string record_history) ver (acc_changes acc))))))
      as Ht.
    destruct (touch _ _ _ _ _) as [s3 [kws|e]]; [|discriminate].
    cbn [fst ret] in *. intros [= <- _].
    rewrite Ht. unfold get_version in *. cbn [history with_records]. lia.
  - pose proof (touch_version (Some (acc_cset_all acc)) None None now' s1) as Ht.
    destruct (touch _ _ _ _ _) as [s3 [kws|e]]; [|discriminate].
    cbn [fst ret] in *. intros [= <- _]. lia.
Qed.

(** C4: a history-slot allocation sets [pos] to the previous [pos] plus
    one, or to 1001 when that would exceed 2000, and adds exactly one to
    [ver]; and after any [mutate] call that returns, with or without
    [record_history], the version counter is one more than before, so
    strictly larger. *)
Theorem history_slots_rotate_and_version_grows :
  (forall self : t store,
     exists self' pos ver,
       _allocate_history_slot self = (self', Ok (pos, ver)) /\
       pos = (let next := default 2000 (h_pos (history self)) + 1 in
              if 2000 <? next then 1001 else next) /\
       ver = get_version self + 1 /\
       h_pos (history self') = Some pos /\
       get_version self' = ver) /\
  (forall (ml : list (scope json * list (opval * string))) record_history
          tag_ns rnd now now' (self self' : t store) r,
     mutate ml record_history tag_ns rnd now now' self = (self', Ok r) ->
     get_version self' = get_version self + 1 /\
     get_version self < get_version self').
Proof.
  split; [apply allocate_history_slot_spec|].
  intros ml rh ns rnd now now' self self' r Hm.
  apply mutate_version in Hm. lia.
Qed.

End Versions.

Lemma history_slots_rotate_and_version_grows_witness :
  SearchEngine.get_version SampleEngines.se_mutated.1
  = SearchEngine.get_version SampleEngines.se_test + 1.
Proof.
  destruct (history_slots_rotate_and_version_grows (json := string)
              (store := MapStore.t)) as [_ Hmutate].
  let v := eval vm_compute in SampleEngines.se_mutated.2 in
  lazymatch v with
  | Ok ?r =>
      assert (Hm : SearchEngine.mutate SampleEngines.test_mutation
                     (Some "Testing"%string) ""%string 1193046 1700000002
                     1700000003 SampleEngines.se_test
                   = (SampleEngines.se_mutated.1, Ok r))
        by (vm_compute; reflexivity)
  end.
  exact (proj1 (Hmutate _ _ _ _ _ _ _ _ _ Hm)).
Defined.

(** The checks the module's test block makes after this mutation. *)
Example mutate_test_block :
  exists s' r e,
    SampleEngines.se_mutated = (s', Ok r) /\
    SearchEngine.mr_mutations r = 2 /\ SearchEngine.mr_history r = Some e /\
    he_id e = "3e9-123456"%string /\
    rs_get (SearchEngine.records s') 1001 = Some (REntry e) /\
    he_comment e = "Testing"%string /\
    (hd (""%string, 0, ""%string, ""%string) (he_changes e)).1.1.1
      = "in:testing"%string /\
    SearchEngine.lookup s' "in:testing" = Ok ∅ /\
    SearchEngine.lookup s' "in:inbox" = Ok {[3; 4]}.
Proof.
  eexists _, _, _. split; [vm_compute; reflexivity|].
  vm_compute. repeat split; reflexivity.
Qed.

(** ** Masked tags in [search] *)

Section Masking.
Context `{DumbCodec} `{TermMagic}.
Context {store : Type} `{RecordStore store} `{SearchEngine.QueryParser store}.
Import SearchEngine.

Lemma search_tuple (self : t store) (ns : string) (f : fn) (a : term)
    (args : list term) :
  _search self ns (TTuple (TFn f :: a :: args)) =
  rs ← search_each self ns (a :: args); apply_fn f rs.
Proof.
  cbn [_search search_each].
  destruct (_search self ns a) as [r|e]; [|reflexivity].
  rewrite !res_bind_ok. do 2 f_equal.
  induction args as [|t l IH]; [reflexivity|].
  cbn [search_each]. rewrite <- IH. reflexivity.
Qed.

Lemma search_each_tags (self : t store) (ns : string) (tags : list string) :
  search_each self ns (map TStr tags) = search_tags_each self ns tags.
Proof.
  induction tags as [|tag tags IH]; [reflexivity|].
  cbn [map search_each search_tags_each]. rewrite IH. reflexivity.
Qed.

Lemma masking_of_all (tags : list string) (terms : term) :
  (forall tag, tag ∈ tags -> not_in_terms tag terms = Ok true) ->
  masking_of tags terms = Ok tags.
Proof.
  induction tags as [|tag tags IH]; intros Hall; [reflexivity|].
  cbn [masking_of]. rewrite Hall by apply list_elem_of_here.
  rewrite res_bind_ok, IH; [reflexivity|].
  intros t Ht. apply Hall. apply list_elem_of_further, Ht.
Qed.

Lemma masking_of_some (tags : list string) (terms : term) :
  (forall tag, tag ∈ tags -> exists b, not_in_terms tag terms = Ok b) ->
  exists masking,
    masking_of tags terms = Ok masking /\
    (length masking <= length tags)%nat /\
    ((exists tag, tag ∈ tags /\ not_in_terms tag terms = Ok false) ->
     (length masking < length tags)%nat).
Proof.
  induction tags as [|tag tags IH]; intros Hall.
  - exists []. split; [reflexivity|]. split; [reflexivity|].
    intros (t & Ht & _). inversion Ht.
  - destruct IH as (ms & Hms & Hle & Hlt).
    { intros t Ht. apply Hall. apply list_elem_of_further, Ht. }
    destruct (Hall tag (list_elem_of_here _ _)) as [b Hb].
    cbn [masking_of]. rewrite Hb, res_bind_ok, Hms, res_bind_ok.
    eexists. split; [reflexivity|].
    destruct b; cbn [length].
    + split; [lia|]. intros (t & Ht & Hf).
      apply elem_of_cons in Ht as [-> | Ht]; [congruence|].
      assert (length ms < length tags)%nat by (apply Hlt; eauto). lia.
    + split; lia.
Qed.

(** C6, as the code has it: masking is all or nothing.  When none of
    the [mask_tags] occurs in the query, every one of them is subtracted
    from the result; when at least one occurs in the query, no tag is
    subtracted at all. *)
Theorem search_masks_all_or_none (self : t store) (terms : term) (ns : string)
    (mask_deleted : bool) (tags : list string) (more_terms : option term)
    (pre : term) :
  tags <> [] ->
  search_ops self terms ns more_terms = Ok pre ->
  ((forall tag, tag ∈ tags -> not_in_terms tag terms = Ok true) ->
   search self terms ns mask_deleted (Some tags) more_terms false =
   (r ← _search self ns pre;
    rs ← search_tags_each self ns tags;
    Ok (Plain (mask_deleted_of self mask_deleted (foldl IntSetOps.Sub r rs))))) /\
  ((forall tag, tag ∈ tags -> exists b, not_in_terms tag terms = Ok b) ->
   (exists tag, tag ∈ tags /\ not_in_terms tag terms = Ok false) ->
   search self terms ns mask_deleted (Some tags) more_terms false =
   (r ← _search self ns pre;
    Ok (Plain (mask_deleted_of self mask_deleted r)))).
Proof.
  intros Hne Hpre. unfold search. rewrite Hpre, res_bind_ok.
  destruct tags as [|tag0 tags0]; [contradiction|].
  cbv beta iota. set (tags := tag0 :: tags0) in *. split.
  - intros Hall. rewrite (masking_of_all tags terms Hall), res_bind_ok.
    rewrite (bool_decide_eq_false_2 (tags = [])) by discriminate.
    rewrite (bool_decide_eq_true_2 (length tags = length tags)) by reflexivity.
    cbn [negb andb]. rewrite res_bind_ok.
    change ([TFn FSub; pre] ++ map TStr tags)
      with (TTuple_args (TFn FSub) pre (map TStr tags)).
    unfold TTuple_args. rewrite search_tuple.
    cbn [search_each]. rewrite search_each_tags.
    destruct (_search self ns pre) as [r|e]; [|reflexivity].
    rewrite !res_bind_ok.
    destruct (search_tags_each self ns tags) as [rs|e]; reflexivity.
  - intros Hall Hsome.
    destruct (masking_of_some tags terms Hall) as (ms & -> & Hle & Hlt).
    specialize (Hlt Hsome). rewrite res_bind_ok.
    rewrite (bool_decide_eq_false_2 (length ms = length tags)) by lia.
    rewrite andb_false_r, res_bind_ok.
    destruct (_search self ns pre) as [r|e]; reflexivity.
Qed.

End Masking.

Lemma search_masks_all_or_none_witness :
  SearchEngine.search SampleEngines.se_mask (TStr "in:spam") ""%string true
    (Some ["in:spam"; "in:trash"]%string) None false
  = Ok (SearchEngine.Plain {[5; 6]}).
Proof.
  destruct (search_masks_all_or_none SampleEngines.se_mask (TStr "in:spam")
              ""%string true ["in:spam"; "in:trash"]%string None
              (TStr "in:spam") ltac:(discriminate) eq_refl) as [_ Hsome].
  rewrite Hsome.
  - vm_compute. reflexivity.
  - intros tag Htag. eexists. reflexivity.
  - exists "in:spam"%string. split; [apply list_elem_of_here|].
    vm_compute. reflexivity.
Defined.

(** C6 as stated fails: [in:trash] is a masked tag that does not occur
    in the query [in:spam], and id 5 carries it, yet id 5 is in the
    result, because the other masked tag does occur in the query. *)
Lemma search_keeps_absent_masked_tag :
  ~ masks_each_absent_tag SampleEngines.se_mask (TStr "in:spam")
      ["in:spam"; "in:trash"]%string.
Proof.
  intros Hclaim.
  apply (Hclaim {[5; 6]} "in:trash"%string {[5]} 5).
  - vm_compute. reflexivity.
  - apply list_elem_of_further, list_elem_of_here.
  - vm_compute. reflexivity.
  - vm_compute. reflexivity.
  - apply elem_of_singleton. reflexivity.
  - apply (bool_decide_unpack _). vm_compute. exact I.
Qed.

(** * Further properties of the posting-list bucket *)

Section BucketLookups.
Context `{DumbCodecLaws}.
Import PostingListBucket.

Lemma found_app bk (ts1 ts2 : list triple) init :
  found bk (ts1 ++ ts2) init = found bk ts2 (found bk ts1 init).
Proof. unfold found. apply fold_left_app. Qed.

Lemma found_kept_same bk (ts : list triple) init :
  found bk (kept bk ts) init = init.
Proof.
  induction ts as [|t ts IH] in init |- *; [reflexivity|].
  unfold kept in *. rewrite filter_cons. destruct (decide (t_kw t <> bk)) as [Hne|Heq].
  - unfold found in *. cbn [fold_left].
    rewrite bool_decide_eq_false_2 by exact Hne. apply IH.
  - apply IH.
Qed.

Lemma found_kept_other bk bk' (ts : list triple) init :
  bk <> bk' -> found bk (kept bk' ts) init = found bk ts init.
Proof.
  intros Hbk. induction ts as [|t ts IH] in init |- *; [reflexivity|].
  unfold kept in *. rewrite filter_cons. unfold found in *.
  destruct (decide (t_kw t <> bk')) as [Hne|Heq]; cbn [fold_left].
  - apply IH.
  - rewrite IH. apply dec_stable in Heq.
    rewrite bool_decide_eq_false_2 by congruence. reflexivity.
Qed.

(** The lookup methods on a well-formed blob. *)
Lemma get_with_comment_serialize (self : t) (ts : list triple) (kw : text) :
  Forall wf_triple ts -> blob self = serialize ts ->
  get_with_comment self kw = Ok (found (to_bytes kw) ts ([], None)).
Proof.
  intros Hwf Hb. unfold get_with_comment.
  rewrite (find_iset_serialize self ts kw Hwf Hb), res_bind_ok.
  destruct (found _ _ _). reflexivity.
Qed.

Lemma get_serialize (self : t) (ts : list triple) (kw : text) :
  Forall wf_triple ts -> blob self = serialize ts ->
  get self kw = Ok (found (to_bytes kw) ts ([], None)).2.
Proof.
  intros Hwf Hb. unfold get.
  rewrite (find_iset_serialize self ts kw Hwf Hb), res_bind_ok.
  reflexivity.
Qed.

(** What a call of [set] that returns has written. *)
Lemma set_spec (self self' : t) (ts : list triple) kw iset comment bko cho :
  Forall wf_triple ts -> blob self = serialize ts ->
  (bko = None /\ cho = None) \/
  (bko = Some (to_bytes kw) /\
   cho = Some (map pack_triple (kept (to_bytes kw) ts))) ->
  set self kw iset comment bko cho = (self', Ok tt) ->
  let bk := to_bytes kw in
  let passed :=
    match bko, cho with
    | Some b, Some c => bytes_truthy b && negb (bool_decide (c = []))
    | _, _ => false
    end in
  let bc := if text_truthy comment then to_bytes comment
            else if passed then [] else (found bk ts ([], None)).1 in
  let ts' := kept bk ts ++
             (if bytes_truthy bc || IntSetOps.opt_truthy iset
              then [(bk, bc, dumb_encode_bin (compress self) iset)] else []) in
  blob self' = serialize ts' /\ Forall wf_triple ts' /\
  compress self' = compress self /\ deleted self' = deleted self.
Proof.
  intros Hwf Hb Hargs Hset bk passed bc ts'.
  pose proof (find_iset_serialize self ts kw Hwf Hb) as Hfind.
  unfold set in Hset. rewrite Hfind, !res_bind_ok in Hset.
  assert (Htail :
    (if bytes_truthy bc || IntSetOps.opt_truthy iset then
       match pack_HHI (len bk) (len bc)
               (len (dumb_encode_bin (compress self) iset)) with
       | Err e => (self, Err e)
       | Ok hdr =>
           (with_blob self
              (concat (map pack_triple (kept bk ts)
                       ++ [hdr; bk; bc; dumb_encode_bin (compress self) iset])),
            Ok tt)
       end
     else (with_blob self (concat (map pack_triple (kept bk ts))), Ok tt))
    = (self', Ok tt)).
  { subst bc passed. destruct Hargs as [[-> ->]|[-> ->]].
    - exact Hset.
    - fold bk in Hset |- *.
      destruct (bytes_truthy bk && _); exact Hset. }
  clear Hset. subst ts'.
  destruct (bytes_truthy bc || IntSetOps.opt_truthy iset).
  - destruct (pack_HHI _ _ _) as [hdr|e] eqn:Hp; [|discriminate].
    injection Htail as <-.
    apply pack_HHI_inv in Hp as (-> & Hk & Hc & Hi).
    repeat split.
    + cbn [blob with_blob]. rewrite serialize_app. unfold serialize.
      rewrite concat_app. cbn [map concat]. unfold pack_triple, header.
      cbn [t_kw t_comment t_iset fst snd].
      rewrite !app_nil_r, <- !app_assoc. reflexivity.
    + apply Forall_app. split; [apply Forall_kept, Hwf|].
      constructor; [|constructor]. repeat split; assumption.
  - injection Htail as <-. rewrite app_nil_r.
    repeat split. apply Forall_kept, Hwf.
Qed.

(** A [set] that fails leaves the bucket as it was; the failure the
    model has is that of [struct.unpack] and [struct.pack]. *)
Lemma set_error (self self' : t) kw iset comment bko cho e :
  set self kw iset comment bko cho = (self', Err e) ->
  self' = self /\ e = StructError.
Proof.
  unfold set.
  assert (Hfind : forall r,
    (('(ch', bk', bc', _) ← _find_iset self kw; Ok (ch', bk', bc'))
       : res (list bytes * bytes * bytes)) = Err r -> r = StructError).
  { intros r. destruct (_find_iset self kw) as [[[[? ?] ?] ?]|e'] eqn:Hf.
    - rewrite res_bind_ok. discriminate.
    - rewrite res_bind_err. intros [= <-]. eapply find_iset_error, Hf. }
  set (refind := ('(ch', bk', bc', _) ← _find_iset self kw; Ok (ch', bk', bc'))) in *.
  destruct (match bko with Some _ => _ | None => _ end)
    as [[[chunks bk] bc]|e'] eqn:Hfound.
  - destruct (_ || _).
    + destruct (pack_HHI _ _ _) as [hdr|e''] eqn:Hp; [discriminate|].
      intros [= <- <-]. split; [reflexivity|].
      unfold pack_HHI in Hp. destruct (_ && _); congruence.
    + discriminate.
  - intros [= <- <-]. split; [reflexivity|].
    destruct bko as [b|]; [destruct cho as [c|]|];
      try (apply Hfind; exact Hfound).
    destruct (_ && _); [discriminate|]. apply Hfind; exact Hfound.
Qed.

End BucketLookups.

Section BucketUpdates.
Context `{DumbCodecLaws}.
Import PostingListBucket.

Lemma add_iset_eq (old : option IntSet) (ints : list Z) (del : option IntSet) :
  match del with
  | Some d =>
      IntSetOps.Sub
        (if negb (bool_decide (ints = []))
         then IntSetOps.Or (match old with Some s => s | None => ∅ end)
                (list_to_set ints)
         else match old with Some s => s | None => ∅ end) d
  | None =>
      if negb (bool_decide (ints = []))
      then IntSetOps.Or (match old with Some s => s | None => ∅ end)
             (list_to_set ints)
      else match old with Some s => s | None => ∅ end
  end = (default ∅ old ∪ list_to_set ints) ∖ default ∅ del.
Proof.
  unfold IntSetOps.Sub, IntSetOps.Or.
  destruct old as [s|], del as [d|], (decide (ints = [])) as [->|Hne];
    cbn [default];
    rewrite ?(bool_decide_eq_true_2 ([] = [])) by reflexivity;
    rewrite ?(bool_decide_eq_false_2 (ints = [])) by exact Hne;
    cbn [negb list_to_set foldr]; set_solver.
Qed.

(** What [add] leaves in a well-formed bucket: the ids are united with
    the keyword's set, the deleted ids are taken out, the comment is
    kept; a keyword left with no ids and no comment is dropped; every
    other keyword reads as before. *)
Theorem add_then_get (self self' : t) (ts : list triple) (kw : text)
    (ints : list Z) (c : bytes) (old : option IntSet) :
  Forall wf_triple ts -> blob self = serialize ts ->
  get_with_comment self kw = Ok (c, old) ->
  add self kw ints = (self', Ok tt) ->
  let new := (default ∅ old ∪ list_to_set ints) ∖ default ∅ (deleted self) in
  get_with_comment self' kw =
    Ok (if bytes_truthy c || IntSetOps.truthy new then (c, Some new)
        else ([], None)) /\
  (forall kw', to_bytes kw' <> to_bytes kw ->
     get_with_comment self' kw' = get_with_comment self kw') /\
  bucket_wf (blob self').
Proof.
  intros Hwf Hb Hget Hadd new.
  rewrite (get_with_comment_serialize self ts kw Hwf Hb) in Hget.
  injection Hget as Hfound.
  unfold add in Hadd. rewrite (find_iset_serialize self ts kw Hwf Hb) in Hadd.
  rewrite Hfound in Hadd. cbn [fst snd] in Hadd.
  rewrite add_iset_eq in Hadd. fold new in Hadd.
  destruct (set_spec self self' ts kw (Some new) (Bytes c)
              (Some (to_bytes kw))
              (Some (map pack_triple (kept (to_bytes kw) ts)))
              Hwf Hb ltac:(auto) Hadd) as (Hb' & Hwf' & _ & _).
  cbv zeta in Hb', Hwf'.
  assert (Hbc : (if text_truthy (Bytes c) then to_bytes (Bytes c)
                 else if bytes_truthy (to_bytes kw)
                         && negb (bool_decide
                              (map pack_triple (kept (to_bytes kw) ts) = []))
                      then [] else (found (to_bytes kw) ts ([], None)).1) = c).
  { rewrite Hfound. cbn [text_truthy to_bytes fst]. unfold bytes_truthy.
    destruct (decide (c = [])) as [->|Hc].
    - rewrite bool_decide_eq_true_2 by reflexivity. cbn [negb].
      destruct (_ && _); reflexivity.
    - rewrite bool_decide_eq_false_2 by exact Hc. reflexivity. }
  rewrite Hbc in Hb', Hwf'.
  change (IntSetOps.opt_truthy (Some new)) with (IntSetOps.truthy new) in *.
  repeat split.
  - rewrite (get_with_comment_serialize self' _ kw Hwf' Hb').
    rewrite found_app, found_kept_same.
    destruct (bytes_truthy c || IntSetOps.truthy new); [|reflexivity].
    unfold found. cbn [fold_left t_kw t_comment t_iset fst snd].
    rewrite bool_decide_eq_true_2 by reflexivity.
    rewrite dumb_decode_encode_bin. reflexivity.
  - intros kw' Hne.
    rewrite (get_with_comment_serialize self' _ kw' Hwf' Hb').
    rewrite (get_with_comment_serialize self ts kw' Hwf Hb).
    rewrite found_app, found_kept_other by exact Hne.
    destruct (bytes_truthy c || IntSetOps.truthy new); [|reflexivity].
    unfold found at 1. cbn [fold_left t_kw fst snd].
    rewrite bool_decide_eq_false_2 by congruence. reflexivity.
  - eexists. split; [exact Hwf'|exact Hb'].
Qed.

(** [remove] strips the keyword's triple and returns its comment and
    IntSet when the IntSet decodes to a set; the keyword then reads as
    absent and every other keyword reads as before.  A triple whose
    IntSet decodes to [None] (a keyword that only carries a comment) is
    left in place. *)
Theorem remove_then_get (self : t) (ts : list triple) (kw : text)
    (c : bytes) (old : option IntSet) :
  Forall wf_triple ts -> blob self = serialize ts ->
  get_with_comment self kw = Ok (c, old) ->
  match old with
  | Some s =>
      exists self',
        remove self kw = (self', Ok (c, Some s)) /\
        get_with_comment self' kw = Ok ([], None) /\
        (forall kw', to_bytes kw' <> to_bytes kw ->
           get_with_comment self' kw' = get_with_comment self kw') /\
        bucket_wf (blob self')
  | None => remove self kw = (self, Ok (c, None))
  end.
Proof.
  intros Hwf Hb Hget.
  rewrite (get_with_comment_serialize self ts kw Hwf Hb) in Hget.
  injection Hget as Hfound.
  unfold remove. rewrite (find_iset_serialize self ts kw Hwf Hb), Hfound.
  cbn [fst snd]. destruct old as [s|]; [|reflexivity].
  eexists. split; [reflexivity|].
  set (self' := with_blob self _).
  assert (Hb' : blob self' = serialize (kept (to_bytes kw) ts)) by reflexivity.
  assert (Hwf' : Forall wf_triple (kept (to_bytes kw) ts))
    by (apply Forall_kept, Hwf).
  repeat split.
  - rewrite (get_with_comment_serialize self' _ kw Hwf' Hb').
    rewrite found_kept_same. reflexivity.
  - intros kw' Hne.
    rewrite (get_with_comment_serialize self' _ kw' Hwf' Hb').
    rewrite (get_with_comment_serialize self ts kw' Hwf Hb).
    rewrite found_kept_other by exact Hne. reflexivity.
  - eexists. split; [exact Hwf'|exact Hb'].
Qed.

(** [set_comment] keeps the keyword's IntSet.  A non-empty comment
    replaces the old one.  An empty comment clears the old one only when
    the keyword is not the empty string and the bucket holds a triple of
    another keyword; when the keyword's triple is the only one, the old
    comment stays.  A keyword left with no comment and no ids is
    dropped. *)
Theorem set_comment_then_get (self self' : t) (ts : list triple) (kw : text)
    (comment : text) (c : bytes) (old : option IntSet) :
  Forall wf_triple ts -> blob self = serialize ts ->
  get_with_comment self kw = Ok (c, old) ->
  set_comment self kw comment = (self', Ok tt) ->
  let others := bytes_truthy (to_bytes kw)
                && negb (bool_decide (kept (to_bytes kw) ts = [])) in
  let c' := if bytes_truthy (to_bytes comment) then to_bytes comment
            else if others then [] else c in
  get_with_comment self' kw =
    Ok (if bytes_truthy c' || IntSetOps.opt_truthy old then (c', old)
        else ([], None)) /\
  (forall kw', to_bytes kw' <> to_bytes kw ->
     get_with_comment self' kw' = get_with_comment self kw').
Proof.
  intros Hwf Hb Hget Hset others c'.
  rewrite (get_with_comment_serialize self ts kw Hwf Hb) in Hget.
  injection Hget as Hfound.
  unfold set_comment in Hset.
  rewrite (find_iset_serialize self ts kw Hwf Hb) in Hset.
  rewrite Hfound in Hset. cbn [fst snd] in Hset.
  destruct (set_spec self self' ts kw old (Bytes (to_bytes comment))
              (Some (to_bytes kw))
              (Some (map pack_triple (kept (to_bytes kw) ts)))
              Hwf Hb ltac:(auto) Hset) as (Hb' & Hwf' & _ & _).
  cbv zeta in Hb', Hwf'.
  assert (Hbc : (if text_truthy (Bytes (to_bytes comment))
                 then to_bytes (Bytes (to_bytes comment))
                 else if bytes_truthy (to_bytes kw)
                         && negb (bool_decide
                              (map pack_triple (kept (to_bytes kw) ts) = []))
                      then [] else (found (to_bytes kw) ts ([], None)).1) = c').
  { subst c' others. rewrite Hfound. cbn [text_truthy to_bytes fst].
    change (negb (bool_decide (to_bytes comment = [])))
      with (bytes_truthy (to_bytes comment)).
    destruct (bytes_truthy (to_bytes comment)); [reflexivity|].
    destruct (kept (to_bytes kw) ts); reflexivity. }
  rewrite Hbc in Hb', Hwf'. split.
  - rewrite (get_with_comment_serialize self' _ kw Hwf' Hb').
    rewrite found_app, found_kept_same.
    destruct (bytes_truthy c' || IntSetOps.opt_truthy old); [|reflexivity].
    unfold found. cbn [fold_left t_kw t_comment t_iset fst snd].
    rewrite bool_decide_eq_true_2 by reflexivity.
    rewrite dumb_decode_encode_bin. reflexivity.
  - intros kw' Hne.
    rewrite (get_with_comment_serialize self' _ kw' Hwf' Hb').
    rewrite (get_with_comment_serialize self ts kw' Hwf Hb).
    rewrite found_app, found_kept_other by exact Hne.
    destruct (bytes_truthy c' || IntSetOps.opt_truthy old); [|reflexivity].
    unfold found at 1. cbn [fold_left t_kw fst snd].
    rewrite bool_decide_eq_false_2 by congruence. reflexivity.
Qed.

End BucketUpdates.

Lemma hello_bucket_wf :
  Forall wf_triple [Samples.hello_triple; Samples.world_triple].
Proof. repeat constructor; vm_compute; reflexivity. Qed.

Lemma add_then_get_witness :
  PostingListBucket.get_with_comment
    (PostingListBucket.add Samples.hello_bucket (Str "hello") [5]).1
    (Str "hello")
  = Ok ([], Some {[1; 2; 3; 4; 5]}).
Proof.
  destruct (PostingListBucket.add Samples.hello_bucket (Str "hello") [5])
    as [self' [[]|e]] eqn:E; [|vm_compute in E; discriminate].
  assert (Hold : PostingListBucket.get_with_comment Samples.hello_bucket
                   (Str "hello") = Ok ([], Some {[1; 2; 3; 4]}))
    by (vm_compute; reflexivity).
  destruct (add_then_get Samples.hello_bucket self'
              [Samples.hello_triple; Samples.world_triple] (Str "hello") [5]
              [] (Some {[1; 2; 3; 4]}) hello_bucket_wf eq_refl Hold E)
    as (Hget & _).
  cbn [fst]. rewrite Hget. vm_compute. reflexivity.
Defined.

Lemma remove_then_get_witness :
  exists self',
    PostingListBucket.remove Samples.hello_bucket (Str "world")
      = (self', Ok (utf8 "note", Some {[1]})) /\
    PostingListBucket.get_with_comment self' (Str "world") = Ok ([], None).
Proof.
  assert (Hold : PostingListBucket.get_with_comment Samples.hello_bucket
                   (Str "world") = Ok (utf8 "note", Some {[1]}))
    by (vm_compute; reflexivity).
  destruct (remove_then_get Samples.hello_bucket
              [Samples.hello_triple; Samples.world_triple] (Str "world")
              (utf8 "note") (Some {[1]}) hello_bucket_wf eq_refl Hold)
    as (self' & Hrm & Hget & _).
  exists self'. split; assumption.
Defined.

Lemma set_comment_then_get_witness :
  PostingListBucket.get_with_comment
    (PostingListBucket.set_comment Samples.hello_bucket (Str "hello")
       (Str "greeting")).1 (Str "hello")
  = Ok (utf8 "greeting", Some {[1; 2; 3; 4]}).
Proof.
  destruct (PostingListBucket.set_comment Samples.hello_bucket (Str "hello")
              (Str "greeting")) as [self' [[]|e]] eqn:E;
    [|vm_compute in E; discriminate].
  assert (Hold : PostingListBucket.get_with_comment Samples.hello_bucket
                   (Str "hello") = Ok ([], Some {[1; 2; 3; 4]}))
    by (vm_compute; reflexivity).
  destruct (set_comment_then_get Samples.hello_bucket self'
              [Samples.hello_triple; Samples.world_triple] (Str "hello")
              (Str "greeting") [] (Some {[1; 2; 3; 4]}) hello_bucket_wf eq_refl
              Hold E) as (Hget & _).
  cbn [fst]. rewrite Hget. vm_compute. reflexivity.
Defined.

(** The comment of a keyword whose triple is alone in its bucket cannot
    be cleared: [set_comment(kw, b'')] leaves it. *)
Example lone_comment_stays :
  let pl := PostingListBucket.new (serialize [Samples.world_triple]) in
  PostingListBucket.get_with_comment
    (PostingListBucket.set_comment pl (Str "world") (Bytes [])).1 (Str "world")
  = Ok (utf8 "note", Some {[1]}).
Proof. vm_compute. reflexivity. Qed.

Section BucketFailures.
Context `{DumbCodec}.
Import PostingListBucket.

(** A bucket method that raises leaves the bucket as it was, on any
    blob, well-formed or not: [self.blob] is assigned only in the last
    statement of [set] and of [remove], after everything that can
    raise.  (The failures the model has are those of [struct.unpack]
    and [struct.pack]; the source assigns nothing before any other
    failure either.) *)
Theorem bucket_methods_fail_safely (self self' : t) (kw : text) (e : exn) :
  (forall iset comment bko cho,
     set self kw iset comment bko cho = (self', Err e) -> self' = self) /\
  (forall ints, add self kw ints = (self', Err e) -> self' = self) /\
  (forall comment,
     set_comment self kw comment = (self', Err e) -> self' = self) /\
  (remove self kw = (self', Err e) -> self' = self).
Proof.
  split; [|split; [|split]].
  - intros iset comment bko cho Hs. eapply set_error; eassumption.
  - intros ints Hs. unfold add in Hs.
    destruct (_find_iset self kw) as [[[[? ?] ?] ?]|e'] eqn:Hf.
    + eapply set_error; eassumption.
    + injection Hs as <- <-. reflexivity.
  - intros comment Hs. unfold set_comment in Hs.
    destruct (_find_iset self kw) as [[[[? ?] ?] ?]|e'] eqn:Hf.
    + eapply set_error; eassumption.
    + injection Hs as <- <-. reflexivity.
  - intros Hs. unfold remove in Hs.
    destruct (_find_iset self kw) as [[[[? ?] ?] ?]|e'] eqn:Hf;
      [discriminate|].
    injection Hs as <- <-. reflexivity.
Qed.

End BucketFailures.

Lemma bucket_methods_fail_safely_witness :
  exists e,
    PostingListBucket.add (PostingListBucket.new [x01]) (Str "a") [1]
    = (PostingListBucket.new [x01], Err e).
Proof.
  destruct (PostingListBucket.add (PostingListBucket.new [x01]) (Str "a") [1])
    as [self' [[]|e]] eqn:E; [vm_compute in E; discriminate|].
  destruct (bucket_methods_fail_safely (PostingListBucket.new [x01]) self'
              (Str "a") e) as (_ & Hadd & _).
  rewrite (Hadd [1] E). exists e. reflexivity.
Defined.

Section BucketLimits.
Context `{DumbCodec}.
Import PostingListBucket.

(** The size limits of a triple: on a well-formed bucket, a [set] that
    has something to write returns when the keyword and the comment are
    shorter than 65536 bytes and the IntSet blob is shorter than 2^32
    bytes, and otherwise raises [struct.error] and writes nothing. *)
Theorem set_size_limits (self : t) (ts : list triple) (kw : text)
    (iset : option IntSet) (comment : text) :
  Forall wf_triple ts -> blob self = serialize ts ->
  let bk := to_bytes kw in
  let bc := if text_truthy comment then to_bytes comment
            else (found bk ts ([], None)).1 in
  let enc := dumb_encode_bin (compress self) iset in
  bytes_truthy bc || IntSetOps.opt_truthy iset = true ->
  if (len bk <? 65536) && (len bc <? 65536) && (len enc <? 4294967296)
  then exists self', set self kw iset comment None None = (self', Ok tt)
  else set self kw iset comment None None = (self, Err StructError).
Proof.
  intros Hwf Hb bk bc enc Htruthy.
  unfold set. rewrite (find_iset_serialize self ts kw Hwf Hb), !res_bind_ok.
  fold bk bc enc. rewrite Htruthy. unfold pack_HHI.
  pose proof (len_nonneg bk). pose proof (len_nonneg bc).
  pose proof (len_nonneg enc).
  destruct (Z.leb_spec 0 (len bk)); [|lia].
  destruct (Z.leb_spec 0 (len bc)); [|lia].
  destruct (Z.leb_spec 0 (len enc)); [|lia].
  destruct (len bk <? 65536), (len bc <? 65536), (len enc <? 4294967296);
    cbn [andb]; eauto.
Qed.

End BucketLimits.

Lemma set_size_limits_witness :
  exists self',
    PostingListBucket.set Samples.hello_bucket (Str "hello") (Some {[7]})
      (Bytes []) None None = (self', Ok tt).
Proof.
  pose proof (set_size_limits (H := ListCodec.codec) Samples.hello_bucket
                [Samples.hello_triple; Samples.world_triple] (Str "hello")
                (Some {[7]}) (Bytes []) hello_bucket_wf eq_refl) as Hlimits.
  cbv zeta in Hlimits.
  specialize (Hlimits ltac:(vm_compute; reflexivity)).
  match type of Hlimits with
  | if ?fits then _ else _ =>
      assert (Hfits : fits = true) by (vm_compute; reflexivity);
      rewrite Hfits in Hlimits
  end.
  exact Hlimits.
Defined.

(** * Serialising and reading back *)

Section BucketRoundTrip.
Context `{DumbCodec}.
Import PostingListBucket.

Lemma iter_loop_serialize (ts : list triple) :
  forall (pre : bytes) (fuel : nat) acc,
  Forall wf_triple ts -> (length ts <= fuel)%nat ->
  iter_loop fuel (pre ++ serialize ts) (len pre) acc = Ok (acc ++ map t_kw ts).
Proof.
  induction ts as [|t ts IH]; intros pre fuel acc Hwf Hfuel.
  - rewrite iter_loop_done by (rewrite len_app; unfold len; simpl; lia).
    rewrite app_nil_r. reflexivity.
  - destruct fuel as [|fuel]; [simpl in Hfuel; lia|].
    apply Forall_cons in Hwf as [Hwt Hwf].
    rewrite iter_loop_S, serialize_cons.
    destruct (slices_of_triple pre (serialize ts) t (len pre) eq_refl)
      as (Hlt & Hh & Hk & Hc & Hi & Hp & He).
    apply Z.ltb_lt in Hlt. rewrite Hlt. cbn [negb].
    rewrite Hh. destruct (header_ok t Hwt) as [-> _].
    rewrite res_bind_ok. rewrite Hk, He.
    rewrite (app_assoc pre).
    rewrite IH by (auto; simpl in Hfuel; lia).
    rewrite <- app_assoc. reflexivity.
Qed.

(** A sequence of triples whose lengths fit their headers reads back
    from its serialisation as it was: [items(decode=False)] yields the
    triples, iteration yields their keywords, in the stored order. *)
Theorem serialize_then_read (ts : list triple) :
  Forall wf_triple ts ->
  items (new (serialize ts)) = Ok ts /\
  iter (new (serialize ts)) = Ok (map t_kw ts).
Proof.
  intros Hwf. split.
  - apply items_serialize; [exact Hwf|reflexivity].
  - unfold iter. cbn [blob new].
    apply (iter_loop_serialize ts [] _ [] Hwf), length_serialize.
Qed.

End BucketRoundTrip.

Lemma serialize_then_read_witness :
  PostingListBucket.items Samples.hello_bucket
  = Ok [Samples.hello_triple; Samples.world_triple].
Proof.
  exact (proj1 (serialize_then_read
                  [Samples.hello_triple; Samples.world_triple]
                  hello_bucket_wf)).
Defined.

(** * The history ring *)

Section RingFacts.
Context {store : Type} `{RecordStore store}.
Import SearchEngine.

(** Slots go round the ring [1001 .. 2000]: starting from a position in
    the ring, [n] allocations leave [pos] at [n] places further on,
    modulo 1000, and the version counter [n] higher.  So every slot
    handed out lies in the ring, and the slot of an entry is handed out
    again exactly 1000 allocations later. *)
Theorem history_ring_cycle (self : t store) (p : Z) (n : nat) :
  h_pos (history self) = Some p -> 1001 <= p <= 2000 ->
  h_pos (history (allocate_n n self))
    = Some (1001 + (p - 1001 + Z.of_nat n) mod 1000) /\
  get_version (allocate_n n self) = get_version self + Z.of_nat n.
Proof.
  intros Hp Hr. induction n as [|n [IHp IHv]].
  - cbn [allocate_n]. rewrite Hp, Z.add_0_r, Z.mod_small by lia.
    split; [f_equal; lia|lia].
  - cbn [allocate_n].
    set (s := allocate_n n self) in *.
    assert (Hstep :
      h_pos (history (_allocate_history_slot s).1)
        = Some (let pos := default IDX_HISTORY_END (h_pos (history s)) + 1 in
                if pos >? IDX_HISTORY_END then IDX_HISTORY_START else pos)
      /\ get_version (_allocate_history_slot s).1 = get_version s + 1)
      by (split; reflexivity).
    destruct Hstep as [-> ->]. rewrite IHp, IHv. cbn [default].
    unfold IDX_HISTORY_END, IDX_HISTORY_START. split; [|lia].
    f_equal.
    replace (p - 1001 + Z.of_nat (S n))
      with ((p - 1001 + Z.of_nat n) + 1) by lia.
    set (q := p - 1001 + Z.of_nat n). unfold id.
    destruct (Z.gtb_spec (1001 + q mod 1000 + 1) 2000);
      Z.div_mod_to_equations; lia.
Qed.

End RingFacts.

Lemma history_ring_cycle_witness :
  h_pos (SearchEngine.history
           (allocate_n 1000
              (SearchEngine._allocate_history_slot SampleEngines.se0).1))
  = Some (1001 + (1001 - 1001 + Z.of_nat 1000) mod 1000).
Proof.
  assert (Hpos : h_pos (SearchEngine.history
                   (SearchEngine._allocate_history_slot SampleEngines.se0).1)
                 = Some 1001) by reflexivity.
  exact (proj1 (history_ring_cycle _ 1001 1000 Hpos ltac:(lia))).
Defined.

(** * Python string operations: facts *)

Module PyStrFacts.
Import PyStr.



Lemma to_chars_app (a b : string) :
  to_chars (a +:+ b) = to_chars a ++ to_chars b.
Proof.
  unfold to_chars. induction a as [|c a IH]; [reflexivity|].
  change (String c a +:+ b) with (String c (a +:+ b)).
  cbn. rewrite IH. reflexivity.
Qed.

Lemma starts_refl_app (p l : chars) : starts p (p ++ l) = true.
Proof.
  induction p as [|c p IH]; [reflexivity|].
  cbn. rewrite bool_decide_eq_true_2 by reflexivity. exact IH.
Qed.

Lemma starts_app (p l l' : chars) :
  starts p l = true -> starts p (l ++ l') = true.
Proof.
  revert l. induction p as [|c p IH]; intros l; [reflexivity|].
  destruct l as [|x l]; [discriminate|]. cbn.
  intros Hs. apply andb_prop in Hs as [Hc Hs].
  rewrite Hc, (IH _ Hs). reflexivity.
Qed.


(** A mismatch inside a known prefix of the text decides the test. *)
Lemma starts_mismatch (p q l : chars) :
  starts (take (length q) p) q = false -> starts p (q ++ l) = false.
Proof.
  revert q. induction p as [|a p IH]; intros [|b q]; cbn; try discriminate.
  destruct (bool_decide (a = b)); [apply IH|reflexivity].
Qed.

Lemma startswith_app (p s : string) : startswith (p +:+ s) p = true.
Proof. unfold startswith. rewrite to_chars_app. apply starts_refl_app. Qed.



Lemma contains_chars_mid (sub a b : chars) :
  contains_chars sub (a ++ sub ++ b) = true.
Proof.
  induction a as [|x a IH].
  - cbn [app]. destruct (sub ++ b) eqn:E; cbn [contains_chars];
      rewrite <- E, starts_refl_app; reflexivity.
  - cbn [app contains_chars]. rewrite IH. apply orb_true_r.
Qed.






End PyStrFacts.

Module DigitFacts.
Import PyStr PyStrFacts.















End DigitFacts.

(** * Id lists *)

Section IdLists.
Context `{DumbCodec} `{TermMagic}.
Context {store : Type} `{RecordStore store}.
Import SearchEngine PyStr PyStrFacts DigitFacts.











End IdLists.



(** * Tag namespaces and query evaluation *)

Section Namespaces.
Context `{DumbCodec} `{TermMagic}.
Context {store : Type} `{RecordStore store} `{SearchEngine.QueryParser store}.
Import SearchEngine PyStr PyStrFacts.

(** A tag is scoped to a namespace once: [_ns] appends [@ns] to an
    unscoped [in:] keyword, and refuses with [PermissionError] to scope
    the result again, whatever the second namespace. *)
Theorem ns_scopes_once (k ns : string) :
  ns <> ""%string -> startswith k "in:" = true -> contains "@" k = false ->
  _ns k ns = Ok (k +:+ "@" +:+ ns) /\
  forall ns', ns' <> ""%string ->
    _ns (k +:+ "@" +:+ ns) ns' = Err PermissionError.
Proof.
  intros Hns Hin Hat. split.
  - unfold _ns. rewrite bool_decide_eq_false_2 by exact Hns.
    rewrite Hin, Hat. reflexivity.
  - intros ns' Hns'. unfold _ns.
    rewrite bool_decide_eq_false_2 by exact Hns'.
    unfold startswith, contains in *. rewrite !to_chars_app.
    rewrite (starts_app _ _ _ Hin). cbn [negb andb].
    change (to_chars "@") with ["@"%char].
    rewrite (contains_chars_mid ["@"%char]). reflexivity.
Qed.

Lemma substring_all (s : string) : String.substring 0 (String.length s) s = s.
Proof. induction s as [|c s IH]; [reflexivity|]. cbn. rewrite IH. reflexivity. Qed.

(** A [tag:] term is read as the [in:] term of the same tag. *)
Theorem search_tag_alias (self : t store) (ns s : string) :
  _search self ns (TStr ("tag:" +:+ s)) = _search self ns (TStr ("in:" +:+ s)).
Proof.
  assert (Hno : startswith ("in:" +:+ s) "tag:" = false).
  { unfold startswith. rewrite to_chars_app. apply starts_mismatch.
    reflexivity. }
  assert (Hsub : String.substring 4 (String.length ("tag:" +:+ s) - 4)
                   ("tag:" +:+ s) = s).
  { change ("tag:" +:+ s)%string
      with (String "t" (String "a" (String "g" (String ":" s)))).
    cbn [String.length Nat.sub String.substring].
    rewrite Nat.sub_0_r. apply substring_all. }
  cbn [_search]. rewrite (startswith_app "tag:" s), Hno, Hsub. reflexivity.
Qed.

Lemma foldl_Sub_subseteq (a : IntSet) (l : list IntSet) :
  foldl IntSetOps.Sub a l ⊆ a.
Proof.
  revert a. induction l as [|x l IH]; intros a; [reflexivity|].
  cbn [foldl]. etrans; [apply IH|]. unfold IntSetOps.Sub. set_solver.
Qed.

Lemma search_namespaced (self : t store) (ns : string) (ops : term) (rv : IntSet) :
  ns <> ""%string ->
  _search self ns (TTuple [TFn FAnd; TFn FAll; ops]) = Ok rv ->
  exists members,
    lookup self ("in:@" +:+ ns) = Ok members /\ rv ⊆ members.
Proof.
  intros Hns. rewrite search_tuple. cbn [search_each _search].
  rewrite (bool_decide_eq_false_2 (ns = ""%string)) by exact Hns.
  cbn [negb].
  destruct (lookup self ("in:@" +:+ ns)) as [members|e]; [|discriminate].
  rewrite res_bind_ok.
  destruct (_search self ns ops) as [r|e]; [|discriminate].
  rewrite !res_bind_ok. cbn [apply_fn foldl]. intros [= <-].
  exists members. split; [reflexivity|]. unfold IntSetOps.And. set_solver.
Qed.

(** What [search] never returns: with [mask_deleted] no deleted id is in
    the result, and inside a tag namespace every id of the result is a
    member of the namespace (an id of [in:@ns]). *)
Theorem search_result_bounds (self : t store) (terms : term) (ns : string)
    (mask_deleted : bool) (mask_tags : option (list string))
    (more_terms : option term) (explain : bool) (r : search_result) :
  search self terms ns mask_deleted mask_tags more_terms explain = Ok r ->
  let rv := match r with Plain rv | Explained _ _ rv => rv end in
  (mask_deleted = true -> rv ## deleted self) /\
  (ns <> ""%string ->
   exists members, lookup self ("in:@" +:+ ns) = Ok members /\ rv ⊆ members).
Proof.
  unfold search.
  destruct (search_ops self terms ns more_terms) as [pre|e] eqn:Hpre;
    [|discriminate].
  rewrite res_bind_ok.
  set (masked := match mask_tags with Some (_ :: _ as tags) => _ | _ => _ end).
  destruct masked as [ops|e] eqn:Hmasked; [|discriminate].
  rewrite res_bind_ok.
  destruct (_search self ns ops) as [rv0|e] eqn:Hrv; [|discriminate].
  rewrite res_bind_ok. intros [= <-].
  assert (Hrv' : (if explain
                  then Explained ns ops
                         (if mask_deleted then IntSetOps.Sub rv0 (deleted self)
                          else rv0)
                  else Plain (if mask_deleted
                              then IntSetOps.Sub rv0 (deleted self) else rv0))
                 = (if explain then Explained ns ops else Plain)
                     (if mask_deleted then IntSetOps.Sub rv0 (deleted self)
                      else rv0)) by (destruct explain; reflexivity).
  rewrite Hrv'. clear Hrv'.
  assert (Hproj : forall x,
    match (if explain then Explained ns ops else Plain) x with
    | Plain rv | Explained _ _ rv => rv
    end = x) by (intros x; destruct explain; reflexivity).
  cbv zeta. rewrite Hproj. split.
  - intros ->. unfold IntSetOps.Sub. set_solver.
  - intros Hns.
    assert (Hpre' : exists ops0, pre = TTuple [TFn FAnd; TFn FAll; ops0]).
    { unfold search_ops in Hpre.
      destruct (parse_query self terms) as [ops0|e]; [|discriminate].
      rewrite res_bind_ok in Hpre.
      destruct (match more_terms with Some _ => _ | None => _ end)
        as [ops1|e]; [|discriminate].
      rewrite res_bind_ok in Hpre.
      rewrite (bool_decide_eq_false_2 (ns = ""%string)) in Hpre by exact Hns.
      cbn [negb] in Hpre. injection Hpre as <-. eauto. }
    destruct Hpre' as [ops0 ->].
    assert (Hbase : exists members,
      lookup self ("in:@" +:+ ns) = Ok members /\ rv0 ⊆ members).
    { subst masked. destruct mask_tags as [[|tag tags]|].
      - injection Hmasked as <-. eapply search_namespaced; eauto.
      - destruct (masking_of (tag :: tags) terms) as [ms|e]; [|discriminate].
        rewrite res_bind_ok in Hmasked.
        destruct (_ && _).
        + injection Hmasked as <-.
          change ([TFn FSub; TTuple [TFn FAnd; TFn FAll; ops0]] ++ map TStr ms)
            with (TFn FSub :: TTuple [TFn FAnd; TFn FAll; ops0] :: map TStr ms)
            in Hrv.
          rewrite search_tuple in Hrv. cbn [search_each] in Hrv.
          destruct (_search self ns (TTuple [TFn FAnd; TFn FAll; ops0]))
            as [r0|e] eqn:Hr0; [|discriminate].
          rewrite res_bind_ok in Hrv.
          destruct (search_each self ns (map TStr ms)) as [rs|e];
            [|discriminate].
          rewrite !res_bind_ok in Hrv. cbn [apply_fn] in Hrv.
          injection Hrv as <-.
          destruct (search_namespaced self ns ops0 r0 Hns Hr0)
            as (members & Hl & Hsub).
          exists members. split; [exact Hl|].
          etrans; [apply foldl_Sub_subseteq|exact Hsub].
        + injection Hmasked as <-. eapply search_namespaced; eauto.
      - injection Hmasked as <-. eapply search_namespaced; eauto. }
    destruct Hbase as (members & Hl & Hsub).
    exists members. split; [exact Hl|].
    destruct mask_deleted; [unfold IntSetOps.Sub; set_solver|exact Hsub].
Qed.

End Namespaces.

Lemma ns_scopes_once_witness :
  SearchEngine._ns "in:inbox" "work" = Ok "in:inbox@work"%string /\
  SearchEngine._ns "in:inbox@work" "home" = Err PermissionError.
Proof.
  destruct (ns_scopes_once "in:inbox" "work" ltac:(discriminate) eq_refl eq_refl)
    as [Hfirst Hagain].
  split; [exact Hfirst|]. apply (Hagain "home"%string). discriminate.
Defined.

Lemma search_result_bounds_witness :
  ({[5; 6]} : IntSet) ## SearchEngine.deleted SampleEngines.se_mask.
Proof.
  assert (E : SearchEngine.search SampleEngines.se_mask (TStr "in:spam")
                ""%string true None None false
              = Ok (SearchEngine.Plain {[5; 6]})) by (vm_compute; reflexivity).
  exact (proj1 (search_result_bounds SampleEngines.se_mask (TStr "in:spam")
                  ""%string true None None false _ E) eq_refl).
Defined.

(** * The [in:*] operand of [mutate] *)

Section WildcardUnion.
Context `{DumbCodec} `{TermMagic}.
Context {json : Type} `{JsonCodec json}.
Context {store : Type} `{RecordStore store}.
Import SearchEngine.

Lemma is_wildcard (kw : string) :
  kw = "in:*"%string \/ kw = tag_quote "in:*" ->
  bool_decide (kw = "in:*"%string) || bool_decide (kw = tag_quote "in:*") = true.
Proof.
  intros [-> | ->].
  - rewrite bool_decide_eq_true_2 by reflexivity. reflexivity.
  - rewrite (bool_decide_eq_true_2 (tag_quote "in:*" = tag_quote "in:*"))
      by reflexivity.
    apply orb_true_r.
Qed.

(** A union with the wildcard yields nothing and reads nothing. *)
Lemma op_kwi_union (ns : string) (op : opval) (kw : string) (self : t store) :
  kw = "in:*"%string \/ kw = tag_quote "in:*" -> _op op = Ok FOr ->
  _op_kwi ns op kw self = (self, Ok []).
Proof.
  intros Hkw Hop. apply is_wildcard in Hkw.
  unfold _op_kwi, mbind, M_bind, bind, lift. rewrite Hop.
  cbv beta iota. rewrite Hkw. reflexivity.
Qed.

Lemma expand_ops_skip (ns : string) (op : opval) (kw : string)
    (ops1 ops2 : list (opval * string)) :
  kw = "in:*"%string \/ kw = tag_quote "in:*" -> _op op = Ok FOr ->
  forall self : t store,
    expand_ops ns (ops1 ++ (op, kw) :: ops2) self
    = expand_ops ns (ops1 ++ ops2) self.
Proof.
  intros Hkw Hop. induction ops1 as [|[o k] ops1 IH]; intros self.
  - cbn [app expand_ops]. unfold mbind at 1, M_bind, bind.
    rewrite (op_kwi_union ns op kw self Hkw Hop).
    unfold mbind, M_bind, bind.
    destruct (expand_ops ns ops2 self) as [s [ls|e]]; reflexivity.
  - cbn [app expand_ops]. unfold mbind at 1 3, M_bind, bind.
    destruct (_op_kwi ns o k self) as [s [l|e]]; [|reflexivity].
    unfold mbind at 1 2, M_bind, bind. rewrite IH. reflexivity.
Qed.

Lemma mutate_loop_skip (ns : string) (op : opval) (kw : string)
    (mset : scope json) (ops1 ops2 : list (opval * string))
    (ml1 ml2 : list (scope json * list (opval * string))) :
  kw = "in:*"%string \/ kw = tag_quote "in:*" -> _op op = Ok FOr ->
  forall acc (self : t store),
    mutate_loop ns (ml1 ++ (mset, ops1 ++ (op, kw) :: ops2) :: ml2) acc self
    = mutate_loop ns (ml1 ++ (mset, ops1 ++ ops2) :: ml2) acc self.
Proof.
  intros Hkw Hop. induction ml1 as [|[m ops] ml1 IH]; intros acc self.
  - cbn [app mutate_loop]. unfold mbind at 1 3, M_bind, bind.
    rewrite (expand_ops_skip ns op kw ops1 ops2 Hkw Hop). reflexivity.
  - cbn [app mutate_loop]. unfold mbind at 1 3, M_bind, bind.
    destruct (expand_ops ns ops self) as [s [l|e]]; [|reflexivity].
    unfold mbind at 1 2, M_bind, bind.
    destruct (mutate_ops m l acc s) as [s' [acc'|e]]; [|reflexivity].
    apply IH.
Qed.

(** [mutate] with a union over the wildcard among its operands is
    [mutate] without that operand. *)
Lemma mutate_skips_union (ns : string) (op : opval) (kw : string)
    (mset : scope json) (ops1 ops2 : list (opval * string))
    (ml1 ml2 : list (scope json * list (opval * string)))
    record_history rnd now now' (self : t store) :
  kw = "in:*"%string \/ kw = tag_quote "in:*" -> _op op = Ok FOr ->
  mutate (ml1 ++ (mset, ops1 ++ (op, kw) :: ops2) :: ml2) record_history ns
    rnd now now' self
  = mutate (ml1 ++ (mset, ops1 ++ ops2) :: ml2) record_history ns
      rnd now now' self.
Proof.
  intros Hkw Hop. unfold mutate. unfold mbind at 1 5, M_bind, bind.
  rewrite (mutate_loop_skip ns op kw mset ops1 ops2 ml1 ml2 Hkw Hop).
  reflexivity.
Qed.

End WildcardUnion.

(** ** Reasoning about methods that return *)

Section HoareFacts.
Context {store : Type}.
Import SearchEngine.

Lemma hoare_ret {A} (P : t store -> Prop) (a : A) (Q : A -> t store -> Prop) :
  (forall self, P self -> Q a self) -> hoare P (mret a) Q.
Proof. intros HQ self self' a' HP [= <- <-]. apply HQ, HP. Qed.

Lemma hoare_raise {A} (P : t store -> Prop) (e : exn)
    (Q : A -> t store -> Prop) :
  hoare P (raise e) Q.
Proof. intros self self' a _ [=]. Qed.

Lemma hoare_bind {A B} (P : t store -> Prop) (m : M A) (k : A -> M B)
    (Q : A -> t store -> Prop) (R : B -> t store -> Prop) :
  hoare P m Q -> (forall a, hoare (Q a) (k a) R) -> hoare P (mbind k m) R.
Proof.
  intros Hm Hk self self' b HP. unfold mbind, M_bind, bind.
  destruct (m self) as [s1 [a|e]] eqn:Em; [|discriminate].
  intros Hb. exact (Hk a s1 self' b (Hm self s1 a HP Em) Hb).
Qed.

Lemma hoare_weaken {A} (P P' : t store -> Prop) (m : M A)
    (Q Q' : A -> t store -> Prop) :
  (forall self, P' self -> P self) ->
  (forall a self, Q a self -> Q' a self) ->
  hoare P m Q -> hoare P' m Q'.
Proof. intros HP HQ Hm self self' a HP' Em. eauto. Qed.

Lemma hoare_keep {A} (P : t store -> Prop) (a : A) :
  hoare P (mret a) (fun _ s => P s).
Proof. apply hoare_ret. auto. Qed.

Lemma hoare_bind_keep {A B} (P : t store -> Prop) (m : M A) (k : A -> M B)
    (R : B -> t store -> Prop) :
  hoare P m (fun _ s => P s) -> (forall a, hoare P (k a) R) ->
  hoare P (mbind k m) R.
Proof. intros Hm Hk. exact (hoare_bind P m k _ R Hm Hk). Qed.

End HoareFacts.

(** ** What a bucket update leaves of the other keywords *)

Section BucketOthers.
Context `{DumbCodecLaws}.
Import PostingListBucket.

Lemma utf8_inj (a b : string) : utf8 a = utf8 b -> a = b.
Proof.
  unfold utf8. intros E.
  rewrite <- (string_of_list_byte_of_string a), E.
  apply string_of_list_byte_of_string.
Qed.

Lemma or_empty_default (o : option IntSet) : IntSetOps.or_empty o = default ∅ o.
Proof.
  destruct o as [s|]; [|reflexivity]. cbn. unfold IntSetOps.truthy.
  destruct (decide (s = ∅)) as [->|Hne].
  - rewrite bool_decide_eq_true_2 by reflexivity. reflexivity.
  - rewrite bool_decide_eq_false_2 by exact Hne. reflexivity.
Qed.

(** [mutate]'s write: [set(kw, oset)] on a well-formed bucket. *)
Lemma set_same_key (p p' : t) (ts : list triple) (tag : string) (oset : IntSet) :
  Forall wf_triple ts -> blob p = serialize ts ->
  set p (Str tag) (Some oset) (Bytes []) None None = (p', Ok tt) ->
  bucket_wf (blob p') /\
  get_with_comment p' (Str tag) =
    Ok (let c := (found (utf8 tag) ts ([], None)).1 in
        if bytes_truthy c || IntSetOps.truthy oset then (c, Some oset)
        else ([], None)) /\
  forall kw', to_bytes kw' <> utf8 tag ->
    get_with_comment p' kw' = get_with_comment p kw'.
Proof.
  intros Hwf Hb Hset.
  destruct (set_spec p p' ts (Str tag) (Some oset) (Bytes []) None None
              Hwf Hb (or_introl (conj eq_refl eq_refl)) Hset)
    as (Hb' & Hwf' & _ & _).
  cbv zeta in Hb', Hwf'. cbn [to_bytes text_truthy] in Hb', Hwf'.
  rewrite (bool_decide_eq_true_2 (@nil byte = [])) in Hb', Hwf' by reflexivity.
  cbn [negb] in Hb', Hwf'.
  change (IntSetOps.opt_truthy (Some oset)) with (IntSetOps.truthy oset) in *.
  split; [eexists; split; [exact Hwf'|exact Hb']|]. split.
  - rewrite (get_with_comment_serialize p' _ (Str tag) Hwf' Hb').
    cbn [to_bytes]. rewrite found_app, found_kept_same. cbv zeta.
    destruct (bytes_truthy _ || IntSetOps.truthy oset); [|reflexivity].
    unfold found at 1. cbn [fold_left t_kw t_comment t_iset fst snd].
    rewrite bool_decide_eq_true_2 by reflexivity.
    rewrite dumb_decode_encode_bin. reflexivity.
  - intros kw' Hne.
    rewrite (get_with_comment_serialize p' _ kw' Hwf' Hb').
    rewrite (get_with_comment_serialize p ts kw' Hwf Hb).
    rewrite found_app, found_kept_other by exact Hne.
    destruct (bytes_truthy _ || IntSetOps.truthy oset); [|reflexivity].
    unfold found at 1. cbn [fold_left t_kw fst snd].
    rewrite bool_decide_eq_false_2 by congruence. reflexivity.
Qed.

(** [add_results]' write: [add(kw, ids)] on a well-formed bucket. *)
Lemma add_other_keys (p p' : t) (ts : list triple) (kw : text) (ints : list Z) :
  Forall wf_triple ts -> blob p = serialize ts ->
  add p kw ints = (p', Ok tt) ->
  bucket_wf (blob p') /\
  forall kw', to_bytes kw' <> to_bytes kw ->
    get_with_comment p' kw' = get_with_comment p kw'.
Proof.
  intros Hwf Hb Hadd.
  unfold add in Hadd. rewrite (find_iset_serialize p ts kw Hwf Hb) in Hadd.
  destruct (found (to_bytes kw) ts ([], None)) as [c old] eqn:Hfound.
  cbn [fst snd] in Hadd.
  match type of Hadd with
  | set p kw ?iset ?cm ?bko ?cho = _ =>
      destruct (set_spec p p' ts kw iset cm bko cho Hwf Hb
                  ltac:(right; split; reflexivity) Hadd)
        as (Hb' & Hwf' & _ & _)
  end.
  cbv zeta in Hb', Hwf'.
  split; [eexists; split; [exact Hwf'|exact Hb']|].
  intros kw' Hne.
  rewrite (get_with_comment_serialize p' _ kw' Hwf' Hb').
  rewrite (get_with_comment_serialize p ts kw' Hwf Hb).
  rewrite found_app, found_kept_other by exact Hne.
  destruct (_ || _); [|reflexivity].
  unfold found at 1. cbn [fold_left t_kw fst snd].
  rewrite bool_decide_eq_false_2 by congruence. reflexivity.
Qed.

Lemma get_of_get_with_comment (b : bytes) (kw : text) v :
  bucket_wf b ->
  get_with_comment (new b) kw = Ok v -> get (new b) kw = Ok v.2.
Proof.
  intros (ts & Hwf & ->) Hg.
  rewrite (get_with_comment_serialize (new (serialize ts)) ts kw Hwf eq_refl)
    in Hg.
  rewrite (get_serialize (new (serialize ts)) ts kw Hwf eq_refl).
  congruence.
Qed.

End BucketOthers.

(** ** Tags across writes to the records *)

Section TagFrames.
Context `{DumbCodecLaws} `{TermMagic}.
Context {store : Type} `{RecordStoreLaws store}.
Import SearchEngine.

Lemma keyword_index_frame (s s' : t store) (tag : string) :
  config s' = config s -> l2_begin s' = l2_begin s ->
  rs_keys_get (records s') (rs_hash_key tag)
    = rs_keys_get (records s) (rs_hash_key tag) ->
  (keyword_index tag None false s').2 = (keyword_index tag None false s).2.
Proof.
  intros Hc Hl Hk. unfold keyword_index. rewrite Hk, Hc, Hl. clear Hk.
  destruct (rs_keys_get (records s) (rs_hash_key tag)); [reflexivity|].
  rewrite !andb_false_r.
  destruct (unpack_I _); [|reflexivity].
  destruct (_ =? 0); reflexivity.
Qed.

Lemma holds_frame (idx : Z) (tag : string) v (s s' : t store) :
  config s' = config s -> l2_begin s' = l2_begin s ->
  rs_keys_get (records s') (rs_hash_key tag)
    = rs_keys_get (records s) (rs_hash_key tag) ->
  bucket_blob (rs_get (records s') idx) = bucket_blob (rs_get (records s) idx) ->
  holds idx tag v s -> holds idx tag v s'.
Proof.
  intros Hc Hl Hk Hb [Hidx Hbucket]. split.
  - rewrite (keyword_index_frame s s' tag Hc Hl Hk). exact Hidx.
  - rewrite Hb. exact Hbucket.
Qed.

Lemma holds_set_other (idx i : Z) (tag : string) v (x : recval) (s : t store) :
  i <> idx ->
  holds idx tag v s ->
  holds idx tag v (with_records s (rs_set (records s) i x)).
Proof.
  intros Hne. apply holds_frame; cbn [config l2_begin records with_records];
    try reflexivity.
  - apply rs_keys_get_set.
  - rewrite rs_get_set_other by exact Hne. reflexivity.
Qed.

Lemma holds_set_same (idx : Z) (tag : string) v v' (b' : bytes) (s : t store) :
  bucket_wf b' ->
  PostingListBucket.get_with_comment (PostingListBucket.new b') (Str tag)
    = Ok v' ->
  holds idx tag v s ->
  holds idx tag v' (with_records s (rs_set (records s) idx (RBytes b'))).
Proof.
  intros Hwf Hget [Hidx _]. split.
  - rewrite <- Hidx. apply keyword_index_frame;
      cbn [config l2_begin records with_records]; try reflexivity.
    apply rs_keys_get_set.
  - exists b'. cbn [records with_records]. rewrite rs_get_set_same. auto.
Qed.

Lemma holds_with_history (idx : Z) (tag : string) v h (s : t store) :
  holds idx tag v s -> holds idx tag v (with_history s h).
Proof. apply holds_frame; reflexivity. Qed.

Lemma holds_with_maxint (idx : Z) (tag : string) v m (s : t store) :
  holds idx tag v s -> holds idx tag v (with_maxint s m).
Proof. apply holds_frame; reflexivity. Qed.

Lemma holds_with_pending (idx : Z) (tag : string) v p (s : t store) :
  holds idx tag v s -> holds idx tag v (with_pending s p).
Proof. apply holds_frame; reflexivity. Qed.

(** What [self[tag]] gives for a tag that is held. *)
Lemma holds_lookup (idx : Z) (tag : string) v (s : t store) :
  holds idx tag v s -> lookup s tag = Ok (default ∅ v.2).
Proof.
  intros (Hidx & b & Hb & Hwf & Hget).
  unfold lookup. rewrite getitem_unfold. cbn [snd].
  rewrite Hidx, res_bind_ok, Hb, res_bind_ok.
  rewrite (get_of_get_with_comment b (Str tag) v Hwf Hget), res_bind_ok.
  rewrite or_empty_default. reflexivity.
Qed.

Lemma holds_index_of (idx : Z) (tag : string) v (s : t store) :
  holds idx tag v s -> index_of s tag = idx.
Proof. intros [Hidx _]. unfold index_of. rewrite Hidx. reflexivity. Qed.

(** A bucket record is read the same whatever the bucket object's
    options. *)
Lemma get_with_comment_blob (p q : PostingListBucket.t) (kw : text) :
  PostingListBucket.blob p = PostingListBucket.blob q ->
  PostingListBucket.get_with_comment p kw
  = PostingListBucket.get_with_comment q kw.
Proof.
  intros E. unfold PostingListBucket.get_with_comment,
    PostingListBucket._find_iset. rewrite E. reflexivity.
Qed.

End TagFrames.

(** ** The subtraction applied to each tag *)

Section SubtractLoop.
Context `{DumbCodecLaws} `{TermMagic}.
Context {json : Type} `{JsonCodec json}.
Context {store : Type} `{RecordStoreLaws store}.
Import SearchEngine.

Lemma holds_fun (idx : Z) (tag : string) v v' (s : t store) :
  holds idx tag v s -> holds idx tag v' s -> v = v'.
Proof.
  intros (_ & b & Hb & _ & Hg) (_ & b' & Hb' & _ & Hg').
  rewrite Hb in Hb'. injection Hb' as <-. congruence.
Qed.

Lemma index_tags_held (ix : string -> Z) (self : t store) (tags : list string) :
  (forall tag, tag ∈ tags -> exists v, holds (ix tag) tag v self) ->
  index_tags FSub tags self
  = (self, Ok (map (fun tag => (FSub, tag, ix tag)) tags)).
Proof.
  induction tags as [|tag tags IH]; intros Hall; [reflexivity|].
  cbn [index_tags map]. unfold mbind at 1, M_bind, bind.
  destruct (Hall tag ltac:(left)) as [v [Hidx _]].
  pose proof (keyword_index_read self tag None) as Hr.
  destruct (keyword_index tag None false self) as [self' [idx|e]];
    cbn [fst snd] in *; subst self'; [|discriminate].
  injection Hidx as ->.
  unfold mbind at 1, M_bind, bind.
  rewrite IH by (intros t Ht; apply Hall; right; exact Ht).
  reflexivity.
Qed.

(** One round of [mutate]'s loop for a subtraction from [tag]: [tag]
    loses the ids of the scope, the other tags stay as they are. *)
Lemma mutate_one_subtract (ix : string -> Z) (T : list string) (mset : IntSet)
    (tag : string) acc acc' (s s' : t store) :
  all_hold ix T s -> tag ∈ T ->
  mutate_one (json := json) (ScopeSet mset) (FSub, tag, ix tag) acc s
    = (s', Ok acc') ->
  forall t, t ∈ T ->
    exists vt vt',
      holds (ix t) t vt s /\ holds (ix t) t vt' s' /\
      default ∅ vt'.2 = if bool_decide (t = tag)
                         then default ∅ vt.2 ∖ mset else default ∅ vt.2.
Proof.
  intros Hall Htag Hm.
  destruct (Hall tag Htag) as [[c iset] Hh].
  pose proof Hh as (Hidx & b & Hb & (ts & Hwf & ->) & Hget).
  unfold mutate_one in Hm. rewrite Hb, Hget in Hm.
  cbn [apply_fn foldl] in Hm.
  set (iset0 := default ∅ iset) in *.
  destruct (decide (iset0 = IntSetOps.Sub iset0 mset)) as [Heq|Hne].
  - rewrite bool_decide_eq_true_2 in Hm by exact Heq. cbn [negb] in Hm.
    injection Hm as <- <-.
    intros t Ht. destruct (Hall t Ht) as [vt Hht].
    exists vt, vt. split; [exact Hht|]. split; [exact Hht|].
    destruct (decide (t = tag)) as [->|Hnt].
    + rewrite bool_decide_eq_true_2 by reflexivity.
      assert (vt = (c, iset)) as -> by exact (holds_fun _ _ _ _ _ Hht Hh).
      cbn [snd]. exact Heq.
    + rewrite bool_decide_eq_false_2 by exact Hnt. reflexivity.
  - rewrite bool_decide_eq_false_2 in Hm by exact Hne. cbn [negb] in Hm.
    destruct (PostingListBucket.set _ _ _ _ _ _) as [plb' [[]|e]] eqn:Hset;
      [|discriminate].
    injection Hm as <- _.
    destruct (set_same_key (PostingListBucket.new (serialize ts)) plb' ts tag
                (IntSetOps.Sub iset0 mset) Hwf eq_refl Hset)
      as (Hwf' & Hget' & Hoth).
    rewrite (get_with_comment_blob plb'
               (PostingListBucket.new (PostingListBucket.blob plb')))
      in Hget' by reflexivity.
    intros t Ht. destruct (Hall t Ht) as [vt Hht].
    destruct (decide (t = tag)) as [->|Hnt].
    + eexists _, _. split; [exact Hh|].
      split; [exact (holds_set_same _ _ _ _ _ _ Hwf' Hget' Hh)|].
      rewrite bool_decide_eq_true_2 by reflexivity. cbn [snd]. fold iset0.
      cbv zeta. unfold IntSetOps.truthy.
      destruct (bytes_truthy _); cbn [orb snd default]; [reflexivity|].
      destruct (decide (IntSetOps.Sub iset0 mset = ∅)) as [E|E].
      * rewrite bool_decide_eq_true_2 by exact E. cbn [negb snd default].
        unfold IntSetOps.Sub in E. symmetry. exact E.
      * rewrite bool_decide_eq_false_2 by exact E. reflexivity.
    + exists vt, vt. split; [exact Hht|].
      rewrite bool_decide_eq_false_2 by exact Hnt.
      split; [|reflexivity].
      destruct (decide (ix t = ix tag)) as [E|E].
      * rewrite E. rewrite E in Hht.
        pose proof Hht as (_ & b2 & Hb2 & _ & Hg2).
        rewrite Hb in Hb2. injection Hb2 as <-.
        apply (holds_set_same _ _ vt _ _ _ Hwf'); [|exact Hht].
        rewrite <- (get_with_comment_blob plb') by reflexivity.
        rewrite Hoth; [exact Hg2|].
        cbn [to_bytes]. intros Hu. apply Hnt, utf8_inj, Hu.
      * apply holds_set_other; [congruence|exact Hht].
Qed.

Lemma mutate_ops_subtract (ix : string -> Z) (T : list string) (mset : IntSet) :
  forall (T' : list string) acc acc' (s s' : t store),
  (forall t, t ∈ T' -> t ∈ T) -> all_hold ix T s ->
  mutate_ops (json := json) (ScopeSet mset)
    (map (fun tag => (FSub, tag, ix tag)) T') acc s = (s', Ok acc') ->
  forall t, t ∈ T ->
    exists vt vt',
      holds (ix t) t vt s /\ holds (ix t) t vt' s' /\
      default ∅ vt'.2 = if bool_decide (t ∈ T')
                         then default ∅ vt.2 ∖ mset else default ∅ vt.2.
Proof.
  induction T' as [|a T' IH]; intros acc acc' s s' Hsub Hall Hm t Ht.
  - cbn in Hm. injection Hm as <- _.
    destruct (Hall t Ht) as [vt Hht]. exists vt, vt.
    rewrite bool_decide_eq_false_2 by apply not_elem_of_nil. auto.
  - cbn [map mutate_ops] in Hm. unfold mbind, M_bind, bind in Hm.
    destruct (mutate_one _ _ acc s) as [s1 [acc1|e]] eqn:Hone; [|discriminate].
    pose proof (mutate_one_subtract ix T mset a acc acc1 s s1 Hall
                  (Hsub a ltac:(left)) Hone) as Hstep.
    assert (Hall1 : all_hold ix T s1).
    { intros u Hu. destruct (Hstep u Hu) as (_ & v1 & _ & Hh1 & _). eauto. }
    destruct (Hstep t Ht) as (vt & v1 & Hhs & Hh1 & Hd1).
    destruct (IH acc1 acc' s1 s' ltac:(intros u Hu; apply Hsub; right; exact Hu)
                Hall1 Hm t Ht) as (v1' & vt' & Hh1' & Hhs' & Hd').
    rewrite <- (holds_fun _ _ _ _ _ Hh1 Hh1') in Hd'.
    exists vt, vt'. split; [exact Hhs|]. split; [exact Hhs'|].
    rewrite Hd', Hd1.
    destruct (decide (t = a)) as [->|Hne].
    + rewrite (bool_decide_eq_true_2 (a = a)) by reflexivity.
      rewrite (bool_decide_eq_true_2 (a ∈ a :: T')) by left.
      destruct (bool_decide (a ∈ T')); set_solver.
    + rewrite (bool_decide_eq_false_2 (t = a)) by exact Hne.
      destruct (decide (t ∈ T')) as [Hin|Hnin].
      * rewrite (bool_decide_eq_true_2 (t ∈ T')) by exact Hin.
        rewrite (bool_decide_eq_true_2 (t ∈ a :: T')) by (right; exact Hin).
        reflexivity.
      * rewrite (bool_decide_eq_false_2 (t ∈ T')) by exact Hnin.
        rewrite (bool_decide_eq_false_2 (t ∈ a :: T')); [reflexivity|].
        intros Hin. apply elem_of_cons in Hin as [?|?]; contradiction.
Qed.

End SubtractLoop.

(** ** Tags across [touch] *)

Section TouchFrame.
Context `{DumbCodecLaws} `{TermMagic}.
Context {store : Type} `{RecordStoreLaws store}.
Import SearchEngine.

Lemma dict_append_keys (d : list (string * list Z)) (kw : string) (r : Z)
    (P : string -> Prop) :
  P kw -> Forall P (map fst d) -> Forall P (map fst (dict_append d kw r)).
Proof.
  intros Hkw. induction d as [|[k ids] d IH]; intros Hd.
  - cbn. constructor; [exact Hkw|constructor].
  - cbn [dict_append]. apply Forall_cons in Hd as [Hk Hd].
    destruct (bool_decide (k = kw)); cbn [map fst].
    + constructor; assumption.
    + constructor; [exact Hk|apply IH, Hd].
Qed.

Lemma prep_kws_plain (kws : list string) (r_id : Z) :
  Forall plain_keyword kws ->
  forall d d',
    Forall (fun k => PyStr.startswith k "in:" = false) (map fst d) ->
    prep_kws ""%string kws r_id d = Ok d' ->
    Forall (fun k => PyStr.startswith k "in:" = false) (map fst d').
Proof.
  induction 1 as [|kw kws Hkw _ IH]; intros d d' Hd Hp.
  - cbn in Hp. injection Hp as <-. exact Hd.
  - cbn [prep_kws] in Hp.
    destruct (normalise_kw ""%string kw) as [kw'|e] eqn:Hn; [|discriminate].
    rewrite res_bind_ok in Hp.
    apply (IH _ _ (dict_append_keys d kw' r_id _ (Hkw kw' Hn) Hd) Hp).
Qed.

Lemma prep_ids_plain (idx : Z) (tag : string) v (kw_list extra : list string)
    (r_ids : list Z) :
  Forall plain_keyword (kw_list ++ extra) ->
  forall st,
    Forall (fun k => PyStr.startswith k "in:" = false) (map fst st.1) ->
    hoare (store := store) (holds idx tag v)
      (prep_ids ""%string kw_list extra r_ids st)
      (fun st' s => holds idx tag v s /\
         Forall (fun k => PyStr.startswith k "in:" = false) (map fst st'.1)).
Proof.
  intros Hkws. induction r_ids as [|r_id r_ids IH]; intros st Hst.
  - apply hoare_ret. auto.
  - intros s s' st' Hs. cbn [prep_ids].
    destruct (prep_kws _ _ _ _) as [keywords|e] eqn:Hp; [|discriminate].
    apply (IH (keywords, _)).
    + cbn [fst]. exact (prep_kws_plain _ _ Hkws _ _ Hst Hp).
    + destruct (maxint s <=? r_id); [apply holds_with_maxint|]; exact Hs.
Qed.

Lemma keyword_index_plain (k : string) (create : bool) (s : t store) :
  PyStr.startswith k "in:" = false ->
  (keyword_index k None create s).1 = s.
Proof.
  intros Hk. unfold keyword_index. rewrite Hk.
  destruct (rs_keys_get _ _); [reflexivity|].
  cbn [andb]. destruct (unpack_I _); [|reflexivity].
  destruct (_ =? 0); reflexivity.
Qed.

Lemma index_keywords_plain (P : t store -> Prop) (ks : list string) :
  Forall (fun k => PyStr.startswith k "in:" = false) ks ->
  hoare P (index_keywords None true ks)
    (fun l s => P s /\
       Forall (fun x : Z * string => PyStr.startswith x.2 "in:" = false) l).
Proof.
  induction 1 as [|k ks Hk _ IH].
  - apply hoare_ret. auto.
  - cbn [index_keywords]. intros s s' l HP. unfold mbind at 1, M_bind, bind.
    pose proof (keyword_index_plain k true s Hk) as Hs.
    destruct (keyword_index k None true s) as [s1 [idx|e]]; [|discriminate].
    cbn [fst] in Hs. subst s1.
    unfold mbind at 1, M_bind, bind.
    destruct (index_keywords None true ks s) as [s2 [rest|e]] eqn:Hrest;
      [|discriminate].
    intros [= <- <-].
    destruct (IH s s2 rest HP Hrest) as [HP2 Hrest2].
    split; [exact HP2|]. constructor; [exact Hk|exact Hrest2].
Qed.

Lemma Forall_sorted (Q : Z * string -> Prop) (l : list (Z * string)) :
  Forall Q l -> Forall Q (sorted l).
Proof.
  induction 1 as [|x l Hx _ IH]; [constructor|].
  cbn [sorted foldr]. fold (sorted l).
  induction IH as [|y l' Hy Hl' IH']; cbn [sorted_insert].
  - constructor; [exact Hx|constructor].
  - destruct (pair_leb x y); repeat constructor; assumption.
Qed.

(** A keyword outside the tags is added without disturbing a tag. *)
Lemma add_one_other (idx : Z) (tag : string) v
    (keywords : list (string * IntSet)) (i : Z) (k : string) :
  PyStr.startswith tag "in:" = true -> PyStr.startswith k "in:" = false ->
  hoare (store := store) (holds idx tag v) (add_one keywords (i, k))
    (fun _ s => holds idx tag v s).
Proof.
  intros Htag Hk s s' [] Hh. unfold add_one.
  destruct (bucket_blob (rs_get (records s) i)) as [b|e] eqn:Hb;
    [|discriminate].
  destruct (dict_get keywords k) as [ids|e]; [|discriminate].
  destruct (PostingListBucket.add _ _ _) as [plb' [[]|e]] eqn:Hadd;
    [|discriminate].
  unfold records_set. intros [= <-].
  destruct (decide (i = idx)) as [->|Hne]; [|apply holds_set_other; assumption].
  pose proof Hh as (_ & b0 & Hb0 & Hwf0 & Hg0).
  rewrite Hb in Hb0. injection Hb0 as <-.
  pose proof Hwf0 as (ts & Hwf & ->).
  match type of Hadd with
  | PostingListBucket.add ?p _ _ = _ =>
      destruct (add_other_keys p plb' ts (Str k) (elements ids) Hwf eq_refl
                  Hadd) as [Hwf' Hoth]
  end.
  apply (holds_set_same _ _ v _ _ _ Hwf'); [|exact Hh].
  rewrite <- (get_with_comment_blob plb') by reflexivity.
  rewrite Hoth.
  - rewrite <- Hg0. apply get_with_comment_blob. reflexivity.
  - cbn [to_bytes]. intros Hu. apply utf8_inj in Hu. subst k. congruence.
Qed.

Lemma add_loop_other (idx : Z) (tag : string) v
    (keywords : list (string * IntSet)) (l : list (Z * string)) :
  PyStr.startswith tag "in:" = true ->
  Forall (fun x : Z * string => PyStr.startswith x.2 "in:" = false) l ->
  hoare (store := store) (holds idx tag v) (add_loop keywords l)
    (fun _ s => holds idx tag v s).
Proof.
  intros Htag. induction 1 as [|[i k] l Hk _ IH].
  - apply hoare_ret. auto.
  - cbn [add_loop]. eapply hoare_bind.
    + apply (add_one_other idx tag v keywords i k Htag Hk).
    + intros u. exact IH.
Qed.

Lemma add_results_keeps_tag (idx : Z) (tag : string) v (ids : list Z)
    (kws : list string) :
  PyStr.startswith tag "in:" = true -> Forall plain_keyword kws ->
  hoare (store := store) (holds idx tag v)
    (add_results_gen (raise TypeError) [(IdList ids, KwList kws)] None
       ""%string false)
    (fun _ s => holds idx tag v s).
Proof.
  intros Htag Hkws. unfold add_results_gen, _prep_results.
  rewrite bool_decide_eq_true_2 by reflexivity.
  apply hoare_bind with
    (Q := fun (x : list (Z * string) * list (string * IntSet) * list Z) s =>
            holds idx tag v s /\
            Forall (fun y : Z * string => PyStr.startswith y.2 "in:" = false)
              x.1.1).
  - apply hoare_bind with
      (Q := fun (extra : list string) s => holds idx tag v s /\ extra = []).
    { apply hoare_ret. auto. }
    intros extra s s' x [Hs ->]. revert s s' x Hs.
    apply hoare_bind with
      (Q := fun (st : list (string * list Z) * list Z) s =>
              holds idx tag v s /\
              Forall (fun k => PyStr.startswith k "in:" = false)
                (map fst st.1)).
    + cbn [prep_results_loop ids_list kws_list].
      apply hoare_bind with
        (Q := fun (st : list (string * list Z) * list Z) s =>
                holds idx tag v s /\
                Forall (fun k => PyStr.startswith k "in:" = false)
                  (map fst st.1)).
      * apply (prep_ids_plain idx tag v kws [] ids);
          [rewrite app_nil_r; exact Hkws|constructor].
      * intros st. apply hoare_ret. auto.
    + intros [keywords hits].
      apply hoare_bind with
        (Q := fun (l : list (Z * string)) s =>
                holds idx tag v s /\
                Forall (fun y : Z * string => PyStr.startswith y.2 "in:" = false)
                  l).
      * intros s s' l [Hs Hk]. revert s s' l Hs.
        apply (index_keywords_plain (holds idx tag v) (map fst keywords) Hk).
      * intros l. apply hoare_ret. auto.
  - intros [[kw_idx_list keywords] hits].
    apply hoare_bind with (Q := fun _ s => holds idx tag v s).
    + intros s s' a [Hs Hk]. revert s s' a Hs.
      apply add_loop_other; [exact Htag|]. apply Forall_sorted, Hk.
    + intros u. apply hoare_bind_keep.
      * intros s s' a Hs [= <- _]. apply holds_with_pending, Hs.
      * intros u'. apply hoare_keep.
Qed.

(** [touch] with a version given: the keywords it adds to the changed
    ids lie outside the tags, so a tag reads as before. *)
Lemma touch_keeps_tag (idx : Z) (tag : string) v (cset : IntSet)
    (version now : Z) :
  PyStr.startswith tag "in:" = true ->
  Forall plain_keyword (version_to_keywords version ++ ts_to_keywords now "vdate") ->
  hoare (store := store) (holds idx tag v)
    (touch (Some cset) (Some version) None now)
    (fun _ s => holds idx tag v s).
Proof.
  intros Htag Hkws. unfold touch.
  apply hoare_bind with
    (Q := fun (ver : Z) s => holds idx tag v s /\ ver = version).
  { apply hoare_ret. auto. }
  intros ver s s' x [Hs ->]. revert s s' x Hs.
  apply hoare_bind_keep.
  { destruct (bool_decide _); [apply hoare_raise|apply hoare_keep]. }
  intros u. apply hoare_bind_keep; [|intros u'; apply hoare_keep].
  apply add_results_keeps_tag; assumption.
Qed.

End TouchFrame.

(** ** The wildcard in [mutate] *)

Section Wildcard.
Context `{DumbCodecLaws} `{TermMagic}.
Context {json : Type} `{JsonCodec json}.
Context {store : Type} `{RecordStoreLaws store}.
Import SearchEngine.

(** What [iter_tags] yields in the global namespace begins with [in:]. *)
Lemma iter_tags_from_prefixed (n : nat) :
  forall (idx : Z) (self : t store) tags,
  iter_tags_from n idx ""%string self = Ok tags ->
  forall tag, tag ∈ map fst tags -> PyStr.startswith tag "in:" = true.
Proof.
  induction n as [|n IH]; intros idx self tags Hit tag Htag.
  - cbn in Hit. injection Hit as <-. inversion Htag.
  - cbn [iter_tags_from] in Hit.
    destruct (negb _).
    { injection Hit as <-. inversion Htag. }
    destruct (rs_get _ _) as [[b| | |]|]; try discriminate.
    destruct (PostingListBucket.items _) as [its|e]; [|discriminate].
    rewrite res_bind_ok in Hit.
    destruct (iter_tags_from n (idx + 1) ""%string self) as [rest|e] eqn:Hrest;
      [|discriminate].
    rewrite res_bind_ok in Hit. injection Hit as <-.
    rewrite map_app in Htag. apply elem_of_app in Htag as [Htag|Htag].
    + apply list_elem_of_fmap in Htag as ([kw x] & -> & Hin).
      unfold tags_of_items in Hin.
      apply list_elem_of_omap in Hin as (it & _ & Hf).
      rewrite bool_decide_eq_true_2 in Hf by reflexivity.
      destruct (_ && _) eqn:Histag; [|discriminate].
      injection Hf as <- _. cbn [fst].
      apply andb_prop in Histag as [Histag _].
      apply andb_prop in Histag as [_ Hstart]. exact Hstart.
    + exact (IH _ _ _ Hrest tag Htag).
Qed.

Lemma op_kwi_subtract (ix : string -> Z) (op : opval) (kw : string)
    (self : t store) tags :
  kw = "in:*"%string \/ kw = tag_quote "in:*" -> _op op = Ok FSub ->
  iter_tags ""%string self = Ok tags ->
  all_hold ix (map fst tags) self ->
  _op_kwi ""%string op kw self
  = (self, Ok (map (fun tag => (FSub, tag, ix tag)) (map fst tags))).
Proof.
  intros Hkw Hop Htags Hall. apply is_wildcard in Hkw.
  unfold _op_kwi, mbind, M_bind, bind, lift, read. rewrite Hop.
  cbv beta iota. rewrite Hkw.
  rewrite bool_decide_eq_true_2 by reflexivity.
  cbv beta iota. rewrite Htags.
  apply index_tags_held. exact Hall.
Qed.

Lemma allocate_keeps_tag (idx : Z) (tag : string) v (self0 : t store) :
  IDX_MAX_RESERVED < idx ->
  IDX_HISTORY_STATUS <= default IDX_HISTORY_END (h_pos (history self0)) ->
  hoare (fun s => holds idx tag v s /\ history s = history self0)
    _allocate_history_slot
    (fun x s => holds idx tag v s /\
                x.1 <> idx /\ x.2 = get_version self0 + 1).
Proof.
  intros Hidx Hpos s s' [pos ver] [Hs Hh]. unfold _allocate_history_slot.
  rewrite Hh. intros [= <- <- <-]. cbn [fst snd].
  split; [|split; [|reflexivity]].
  - apply (holds_set_other idx IDX_HISTORY_STATUS tag v _ (with_history s _)).
    + unfold IDX_HISTORY_STATUS, IDX_MAX_RESERVED in *. lia.
    + apply holds_with_history, Hs.
  - unfold IDX_HISTORY_STATUS, IDX_MAX_RESERVED, IDX_HISTORY_END,
      IDX_HISTORY_START in *.
    destruct (Z.gtb_spec (default 2000 (h_pos (history self0)) + 1) 2000); lia.
Qed.

Lemma touch_fresh_keeps_tag (idx : Z) (tag : string) v (cset : IntSet)
    (now : Z) (self0 : t store) :
  IDX_MAX_RESERVED < idx -> PyStr.startswith tag "in:" = true ->
  Forall plain_keyword (touch_keywords self0 now) ->
  hoare (fun s => holds idx tag v s /\ history s = history self0)
    (touch (Some cset) None None now)
    (fun _ s => holds idx tag v s).
Proof.
  intros Hidx Htag Hkws s s' a [Hs Hh]. rewrite touch_fresh.
  apply (touch_keeps_tag idx tag v cset (get_version s + 1) now Htag).
  - unfold get_version. rewrite Hh. exact Hkws.
  - unfold bump_version.
    apply (holds_set_other idx IDX_HISTORY_STATUS tag v _ (with_history s _)).
    + unfold IDX_HISTORY_STATUS, IDX_MAX_RESERVED in *. lia.
    + apply holds_with_history, Hs.
Qed.

(** After [mutate]'s loop, what is left of [mutate] keeps a tag as it
    is: the history entry and the status go to reserved records, and
    [touch] adds keywords outside the tags. *)
Lemma mutate_subtract_tags (op : opval) (kw : string) (mset : IntSet) tags
    record_history rnd now now' (self self' : t store) r :
  kw = "in:*"%string \/ kw = tag_quote "in:*" -> _op op = Ok FSub ->
  iter_tags ""%string self = Ok tags ->
  Forall (tag_stored self) (map fst tags) ->
  IDX_HISTORY_STATUS <= default IDX_HISTORY_END (h_pos (history self)) ->
  Forall plain_keyword (touch_keywords self now') ->
  mutate (json := json) [(ScopeSet mset, [(op, kw)])] record_history ""%string
    rnd now now' self = (self', Ok r) ->
  forall tag, tag ∈ map fst tags ->
    exists v v',
      holds (index_of self tag) tag v self /\
      holds (index_of self tag) tag v' self' /\
      default ∅ v'.2 = default ∅ v.2 ∖ mset.
Proof.
  intros Hkw Hop Htags Hstored Hpos Hplain Hm tag Htag.
  set (T := map fst tags) in *. set (ix := index_of self).
  assert (Hall : all_hold ix T self).
  { intros u Hu. rewrite Forall_forall in Hstored.
    destruct (Hstored u Hu) as (idx & v & _ & Hh).
    exists v. unfold ix. rewrite (holds_index_of _ _ _ _ Hh). exact Hh. }
  assert (Habove : IDX_MAX_RESERVED < ix tag).
  { rewrite Forall_forall in Hstored.
    destruct (Hstored tag Htag) as (idx & v & Hidx & Hh).
    unfold ix. rewrite (holds_index_of _ _ _ _ Hh). exact Hidx. }
  assert (Hprefix : PyStr.startswith tag "in:" = true)
    by exact (iter_tags_from_prefixed _ _ _ _ Htags tag Htag).
  unfold mutate in Hm. unfold mbind at 1, M_bind, bind in Hm.
  destruct (mutate_loop _ _ _ self) as [s1 [acc1|e]] eqn:Hloop; [|discriminate].
  pose proof (meta_mutate_loop (json := json) ""%string
                [(ScopeSet mset, [(op, kw)])] (mkAcc ∅ [] 0) self) as Hmeta.
  rewrite Hloop in Hmeta. cbn [fst] in Hmeta.
  assert (Hhist : history s1 = history self)
    by (unfold meta in Hmeta; congruence).
  cbn [mutate_loop expand_ops] in Hloop.
  unfold mbind, M_bind, bind in Hloop.
  rewrite (op_kwi_subtract ix op kw self tags Hkw Hop Htags Hall) in Hloop.
  cbn [mret M_ret ret] in Hloop. rewrite app_nil_r in Hloop.
  fold T in Hloop.
  destruct (mutate_ops _ _ _ self) as [s1' [acc1'|e]] eqn:Hops; [|discriminate].
  injection Hloop as -> ->.
  destruct (mutate_ops_subtract ix T mset T _ _ _ _ ltac:(auto) Hall Hops
              tag Htag) as (v & v' & Hv & Hv' & Hd).
  rewrite bool_decide_eq_true_2 in Hd by exact Htag.
  exists v, v'. split; [exact Hv|]. split; [|exact Hd].
  destruct (match record_history with Some _ => _ | None => _ end).
  - match type of Hm with
    | ?m s1 = _ =>
        assert (Htail : hoare (fun s => holds (ix tag) tag v' s /\
                                        history s = history self) m
                          (fun _ s => holds (ix tag) tag v' s))
    end.
    { eapply hoare_bind;
        [apply (allocate_keeps_tag _ _ _ self Habove Hpos)|].
      intros [slot version] s s' a (Hs & Hslot & Hver).
      cbn [fst snd] in Hslot, Hver. subst version. revert s s' a Hs.
      apply hoare_bind_keep.
      { intros s s' [] Hs [= <-]. apply holds_set_other; assumption. }
      intros u. apply hoare_bind_keep; [|intros kws; apply hoare_keep].
      apply touch_keeps_tag; [exact Hprefix|exact Hplain]. }
    exact (Htail s1 self' r (conj Hv' Hhist) Hm).
  - match type of Hm with
    | ?m s1 = _ =>
        assert (Htail : hoare (fun s => holds (ix tag) tag v' s /\
                                        history s = history self) m
                          (fun _ s => holds (ix tag) tag v' s))
    end.
    { eapply hoare_bind;
        [apply (touch_fresh_keeps_tag _ _ _ _ _ self Habove Hprefix Hplain)|].
      intros kws. apply hoare_keep. }
    exact (Htail s1 self' r (conj Hv' Hhist) Hm).
Qed.

(** C5, as the code has it.  A union ([+]) with the operand [in:*]
    is skipped: wherever it stands in the mutation list and whatever the
    namespace, [mutate] does exactly what it does without that operand,
    so no error is raised on its account.  A subtraction ([-]) with the
    operand [in:*] in the global namespace is applied to every tag that
    [iter_tags] yields: when [mutate] returns, each of these tags has
    lost the ids of the scope.  (The tags are kept in well-formed
    buckets above the reserved records, the history position is inside
    its ring, and the keywords [touch] adds are no tags.) *)
Theorem wildcard_operand_expansion (self : t store) (op : opval) (kw : string) :
  kw = "in:*"%string \/ kw = tag_quote "in:*" ->
  (_op op = Ok FOr ->
   forall ns (mset : scope json) ops1 ops2 ml1 ml2 record_history rnd now now',
     mutate (ml1 ++ (mset, ops1 ++ (op, kw) :: ops2) :: ml2) record_history ns
       rnd now now' self
     = mutate (ml1 ++ (mset, ops1 ++ ops2) :: ml2) record_history ns
         rnd now now' self) /\
  (_op op = Ok FSub ->
   forall (mset : IntSet) tags record_history rnd now now' self' r,
     iter_tags ""%string self = Ok tags ->
     Forall (tag_stored self) (map fst tags) ->
     IDX_HISTORY_STATUS <= default IDX_HISTORY_END (h_pos (history self)) ->
     Forall plain_keyword (touch_keywords self now') ->
     mutate (json := json) [(ScopeSet mset, [(op, kw)])] record_history
       ""%string rnd now now' self = (self', Ok r) ->
     forall tag old,
       tag ∈ map fst tags -> lookup self tag = Ok old ->
       lookup self' tag = Ok (old ∖ mset)).
Proof.
  intros Hkw. split.
  - intros Hop ns mset ops1 ops2 ml1 ml2 rh rnd now now'.
    apply mutate_skips_union; assumption.
  - intros Hop mset tags rh rnd now now' self' r Htags Hstored Hpos Hplain Hm
      tag old Htag Hold.
    destruct (mutate_subtract_tags op kw mset tags rh rnd now now' self self' r
                Hkw Hop Htags Hstored Hpos Hplain Hm tag Htag)
      as (v & v' & Hv & Hv' & Hd).
    rewrite (holds_lookup _ _ _ _ Hv) in Hold. injection Hold as <-.
    rewrite (holds_lookup _ _ _ _ Hv'), Hd. reflexivity.
Qed.

End Wildcard.

(** The reference store meets the contract of the record store. *)
#[global] Instance MapStore_laws : RecordStoreLaws MapStore.t.
Proof.
  split.
  - intros s i b. cbn. rewrite lookup_insert_eq. reflexivity.
  - intros s i j v Hne. cbn. apply lookup_insert_ne, Hne.
  - intros s i v h. reflexivity.
Qed.

Lemma wildcard_operand_expansion_witness :
  SearchEngine.mutate (json := string)
    [(SearchEngine.ScopeSet {[4]},
      [(SearchEngine.OStr "+", "in:*"%string);
       (SearchEngine.OStr "+", "in:inbox"%string)])]
    None ""%string 0 1700000002 1700000003 SampleEngines.se_test
  = SearchEngine.mutate (json := string)
      [(SearchEngine.ScopeSet {[4]},
        [(SearchEngine.OStr "+", "in:inbox"%string)])]
      None ""%string 0 1700000002 1700000003 SampleEngines.se_test
  /\
  SearchEngine.lookup
    (SearchEngine.mutate (json := string)
       [(SearchEngine.ScopeSet {[4]}, [(SearchEngine.OStr "-", "in:*"%string)])]
       (Some "Clear"%string) ""%string 1193046 1700000002 1700000003
       SampleEngines.se_test).1 "in:inbox"
  = Ok ({[4]} ∖ {[4]}).
Proof.
  destruct (wildcard_operand_expansion (json := string) SampleEngines.se_test
              (SearchEngine.OStr "+") "in:*" (or_introl eq_refl))
    as [Hunion _].
  destruct (wildcard_operand_expansion (json := string) SampleEngines.se_test
              (SearchEngine.OStr "-") "in:*" (or_introl eq_refl))
    as [_ Hsub].
  split.
  - exact (Hunion eq_refl ""%string (SearchEngine.ScopeSet {[4]}) []
             [(SearchEngine.OStr "+", "in:inbox"%string)] [] []
             None 0 1700000002 1700000003).
  - match goal with
    | |- SearchEngine.lookup (?run).1 _ = _ =>
        let v := eval vm_compute in run.2 in
        lazymatch v with
        | Ok ?r => assert (Hm : run = (run.1, Ok r)) by (vm_compute; reflexivity)
        end
    end.
    assert (Htags : SearchEngine.iter_tags ""%string SampleEngines.se_test
                    = Ok [("in:inbox"%string, ([], {[4]}));
                          ("in:testing"%string, ([], {[4]}))])
      by (vm_compute; reflexivity).
    assert (Hold : SearchEngine.lookup SampleEngines.se_test "in:inbox"
                   = Ok {[4]}) by (vm_compute; reflexivity).
    refine (Hsub eq_refl {[4]} _ _ _ _ _ _ _ Htags _ _ _ Hm
              "in:inbox"%string {[4]} _ Hold).
    + constructor; [|constructor; [|constructor]].
      * exists 2001, ([], Some {[4]}). split; [reflexivity|].
        split; [vm_compute; reflexivity|].
        eexists. split; [vm_compute; reflexivity|]. split.
        -- exists [(utf8 "in:inbox", [], dumb_encode_bin None (Some {[4]}))].
           split; [repeat constructor; vm_compute; reflexivity|].
           vm_compute. reflexivity.
        -- vm_compute. reflexivity.
      * exists 2002, ([], Some {[4]}). split; [reflexivity|].
        split; [vm_compute; reflexivity|].
        eexists. split; [vm_compute; reflexivity|]. split.
        -- exists [(utf8 "in:testing", [], dumb_encode_bin None (Some {[4]}))].
           split; [repeat constructor; vm_compute; reflexivity|].
           vm_compute. reflexivity.
        -- vm_compute. reflexivity.
    + vm_compute. discriminate.
    + repeat constructor; intros kw' Hn; vm_compute in Hn;
        injection Hn as <-; vm_compute; reflexivity.
    + left.
Defined.

(** C5 as stated fails in both halves.  A union with [in:*] returns
    normally, with no error.  And inside the namespace [work] a
    subtraction with [in:*] leaves the namespace's own tag
    [in:inbox@work] as it was: [iter_tags] yields the tag without its
    namespace and the wildcard branch resolves that name as it is, where
    the branch beside it scopes the keyword with [_ns] first; it is the
    global [in:inbox] that loses the id. *)
Lemma wildcard_claim_fails :
  ~ wildcard_union_raises (json := string) SampleEngines.se_test {[4]} /\
  ~ wildcard_subtract_scoped (json := string) SampleEngines.se_ns "work" {[5]}.
Proof.
  split.
  - intros Hclaim. destruct (Hclaim 0 1700000002 1700000003) as [e He].
    match type of He with
    | ?x = _ =>
        let v := eval vm_compute in x in
        assert (Hv : x = v) by (vm_compute; reflexivity)
    end.
    rewrite Hv in He. discriminate.
  - intros Hclaim.
    let run := constr:(SearchEngine.mutate (json := string)
                         [(SearchEngine.ScopeSet {[5]},
                           [(SearchEngine.OStr "-", "in:*"%string)])]
                         None "work"%string 0 1700000002 1700000003
                         SampleEngines.se_ns) in
    let v := eval vm_compute in run.2 in
    lazymatch v with
    | Ok ?r =>
        assert (Hm : run = (run.1, Ok r)) by (vm_compute; reflexivity);
        assert (Hafter : SearchEngine.lookup run.1 "in:inbox@work" = Ok {[5]}
                         /\ SearchEngine.lookup run.1 "in:inbox" = Ok {[4]})
          by (split; vm_compute; reflexivity);
        pose proof (Hclaim 0 1700000002 1700000003 run.1 r
                      [("in:inbox"%string, ([], {[5]}))] "in:inbox"%string
                      "in:inbox@work"%string {[5]} Hm) as Hc
    end.
    specialize (Hc ltac:(vm_compute; reflexivity) ltac:(left)
                  ltac:(vm_compute; reflexivity) ltac:(vm_compute; reflexivity)).
    rewrite (proj1 Hafter) in Hc.
    pose proof (f_equal (fun x : res IntSet =>
                           match x with Ok s => s | Err _ => ∅ end) Hc) as E.
    cbv beta iota in E.
    assert (Hin : 5 ∈ ({[5]} ∖ {[5]} : IntSet))
      by (rewrite <- E; apply elem_of_singleton; reflexivity).
    apply elem_of_difference in Hin as [Hin Hnot]. exact (Hnot Hin).
Qed.

(** * Id terms in queries *)

Section IdTerms.
Context `{DumbCodec} `{TermMagic}.
Context {store : Type} `{RecordStore store}.
Import SearchEngine PyStr PyStrFacts DigitFacts.




End IdTerms.


